(** * base.h: chunked arena allocator, growable vector and arena-backed strings

    A shallow embedding of the core of [base.h] (the arena allocator, the
    [Vec*] macros and the [Str*] functions) together with the properties
    stated about them.

    Conventions of the embedding:
    - [size_t] values are integers in [0, 2^64) held in [Z]; every C
      operation that can wrap is written with [size_t] (reduction modulo
      2^64) or [intptr_t] (the signed reading of the same 64 bits);
    - [i32] arithmetic that would overflow is undefined in C and is an
      [Overflow] error here;
    - memory is a list of blocks of bytes, one block per [malloc]; a pointer
      is [NULL] or a block number with a byte offset; reading or writing
      outside a block is an [OutOfBounds] error;
    - [assert] is compiled in (no [NDEBUG]): a failed assertion is the error
      [AssertFailed] carrying the message of the assertion;
    - [malloc] and [realloc] return memory (the code asserts that they do);
    - a [String *] or [Arena *] argument is a valid pointer to the struct,
      so the model passes the struct itself. *)

From Stdlib Require Import ZArith Lia List Strings.Byte Strings.String.
From stdpp Require Import base list numbers.

Local Open Scope Z_scope.

(** ** Machine integers *)

(** Conversion to [size_t] (64 bits, unsigned). *)
Definition size_t (z : Z) : Z := z mod 2 ^ 64.

(** Conversion to [intptr_t] (64 bits, two's complement). *)
Definition intptr_t (z : Z) : Z :=
  let u := z mod 2 ^ 64 in if u <? 2 ^ 63 then u else u - 2 ^ 64.

Definition INT32_MIN : Z := - 2 ^ 31.
Definition INT32_MAX : Z := 2 ^ 31 - 1.

(** ** Errors *)

Inductive error : Type :=
| AssertFailed (msg : string)   (* assert(...) failed: the process aborts *)
| NullDeref                     (* a null pointer was dereferenced *)
| OutOfBounds                   (* access outside the block a pointer points into *)
| Overflow                      (* signed integer overflow *)
| OutOfFuel.                    (* a loop of the model ran longer than its bound *)

Inductive outcome (A : Type) : Type :=
| Ok (a : A)
| Err (e : error).
Arguments Ok {A} a.
Arguments Err {A} e.

(** [outcome] is an error monad; the code below uses stdpp's notations
    [x ← c; k], ['(x, y) ← c; k] and [c;; k] for it. *)
#[global] Instance outcome_ret : MRet outcome := fun A a => Ok a.
#[global] Instance outcome_bind : MBind outcome := fun A B k c =>
  match c with
  | Ok a => k a
  | Err e => Err e
  end.

Definition assert_ (cond : bool) (msg : string) : outcome unit :=
  if cond then Ok tt else Err (AssertFailed msg).

(** [i32] arithmetic: the mathematical result when it is representable. *)
Definition i32 (z : Z) : outcome Z :=
  if (INT32_MIN <=? z) && (z <=? INT32_MAX) then Ok z else Err Overflow.

(** ** The growable vector (the [Vec*] macros) *)

Section Vector.
Context {T : Type}.

(** [sizeof( *vector.data)] *)
Variable elem_size : Z.

(** [VEC_TYPE]: [data] is [None] for a null pointer, otherwise the slots of
    the buffer; a slot is [None] until it is written. *)
Record Vec : Type := {
  vec_data : option (list (option T));
  vec_length : Z;
  vec_capacity : Z
}.

(** [Vector vector = {0}] *)
Definition VecZero : Vec :=
  {| vec_data := None; vec_length := 0; vec_capacity := 0 |}.

(** [Realloc(block, size)] on a buffer of elements: the new buffer has
    [size / sizeof(T)] slots, keeps the old contents that fit, and the
    slots beyond them are unwritten. *)
Definition Realloc (block : option (list (option T))) (size : Z)
  : outcome (list (option T)) :=
  assert_ (0 <? size) "Realloc: size cant be negative";;
  let old := default [] block in
  let n := Z.to_nat (size / elem_size) in
  Ok (take n old ++ replicate (n - length old) None).

(** [VecPush(vector, value)]. The second component of the result lists the
    sizes passed to [Realloc] during the call, in order. *)
Definition VecPush (vector : Vec) (value : T) : outcome (Vec * list Z) :=
  assert_ (vec_length vector <=? vec_capacity vector)
         "VecPush: Possible memory corruption or vector not initialized";;
  '(vector, reallocs) ←
    (if vec_length vector >=? vec_capacity vector then
       capacity ← (if vec_capacity vector =? 0 then Ok 128
                    else i32 (vec_capacity vector * 2));
       let size := size_t (capacity * elem_size) in
       data ← Realloc (vec_data vector) size;
       Ok ({| vec_data := Some data;
              vec_length := vec_length vector;
              vec_capacity := capacity |}, [size])
     else Ok (vector, []));
  data ← match vec_data vector with
          | None => Err NullDeref
          | Some slots =>
              if (0 <=? vec_length vector)
                 && (vec_length vector <? Z.of_nat (length slots))
              then Ok (<[Z.to_nat (vec_length vector) := Some value]> slots)
              else Err OutOfBounds
          end;
  len ← i32 (vec_length vector + 1);
  Ok ({| vec_data := Some data;
         vec_length := len;
         vec_capacity := vec_capacity vector |}, reallocs).

(** A run of [VecPush] calls, one per value, collecting the [Realloc]
    requests of all of them. *)
Fixpoint VecPushAll (vector : Vec) (values : list T) : outcome (Vec * list Z) :=
  match values with
  | [] => Ok (vector, [])
  | value :: rest =>
      '(vector, r1) ← VecPush vector value;
      '(vector, r2) ← VecPushAll vector rest;
      Ok (vector, r1 ++ r2)
  end.

(** The live elements [data[0 .. length)], when all of them are written. *)
Definition vec_elems (vector : Vec) : option (list T) :=
  match vec_data vector with
  | None => if vec_length vector =? 0 then Some [] else None
  | Some slots =>
      if Z.of_nat (length slots) <? vec_length vector then None
      else mapM id (take (Z.to_nat (vec_length vector)) slots)
  end.
End Vector.

Arguments Vec T : clear implicits.

(** *** The other vector macros *)

Section VectorOps.
Context {T : Type}.

(** [sizeof( *vector.data)] *)
Variable elem_size : Z.

(** [vector.data[index]], read: the content of the slot, [None] when the
    slot was never written. *)
Definition slot_read (data : option (list (option T))) (index : Z)
  : outcome (option T) :=
  match data with
  | None => Err NullDeref
  | Some slots =>
      if (0 <=? index) && (index <? Z.of_nat (length slots))
      then Ok (default None (slots !! Z.to_nat index))
      else Err OutOfBounds
  end.

(** [vector.data[index] = value] *)
Definition slot_write (data : option (list (option T))) (index : Z) (value : T)
  : outcome (list (option T)) :=
  match data with
  | None => Err NullDeref
  | Some slots =>
      if (0 <=? index) && (index <? Z.of_nat (length slots))
      then Ok (<[Z.to_nat index := Some value]> slots)
      else Err OutOfBounds
  end.

(** [memmove(&vector.data[dst], &vector.data[src], size)]: [size] bytes,
    that is [size / sizeof(T)] slots, are copied inside the buffer; the
    ranges may overlap. Nothing is accessed when [size] is zero. *)
Definition slots_move (data : option (list (option T))) (dst src size : Z)
  : outcome (option (list (option T))) :=
  if size =? 0 then Ok data
  else match data with
       | None => Err NullDeref
       | Some slots =>
           let n := size / elem_size in
           if (0 <=? dst) && (0 <=? src)
              && (dst + n <=? Z.of_nat (length slots))
              && (src + n <=? Z.of_nat (length slots))
           then Ok (Some (take (Z.to_nat dst) slots
                          ++ take (Z.to_nat n) (drop (Z.to_nat src) slots)
                          ++ drop (Z.to_nat (dst + n)) slots))
           else Err OutOfBounds
       end.

(** [VecPop(vector)]: the macro yields the address of its copy of the last
    element; the model returns that copy. *)
Definition VecPop (vector : Vec T) : outcome (Vec T * option T) :=
  assert_ (vec_length vector >? 0) "VecPop: Cannot pop from empty vector";;
  value ← slot_read (vec_data vector) (vec_length vector - 1);
  len ← i32 (vec_length vector - 1);
  Ok ({| vec_data := vec_data vector; vec_length := len;
         vec_capacity := vec_capacity vector |}, value).

(** [VecShift(vector)] *)
Definition VecShift (vector : Vec T) : outcome (Vec T * option T) :=
  assert_ (negb (vec_length vector =? 0)) "VecShift: Length should at least be >= 1";;
  value ← slot_read (vec_data vector) 0;
  n ← i32 (vec_length vector - 1);
  data ← slots_move (vec_data vector) 0 1 (size_t (n * elem_size));
  Ok ({| vec_data := data; vec_length := n;
         vec_capacity := vec_capacity vector |}, value).

(** The growth step shared by [VecUnshift] and [VecInsert]: the capacity
    starts at 2 and doubles. The second component lists the sizes passed to
    [Realloc]. *)
Definition vec_make_room (vector : Vec T) : outcome (Vec T * list Z) :=
  if vec_length vector >=? vec_capacity vector then
    capacity ← (if vec_capacity vector =? 0 then Ok 2
                 else i32 (vec_capacity vector * 2));
    let size := size_t (capacity * elem_size) in
    data ← Realloc elem_size (vec_data vector) size;
    Ok ({| vec_data := Some data; vec_length := vec_length vector;
           vec_capacity := capacity |}, [size])
  else Ok (vector, []).

(** [VecUnshift(vector, value)] *)
Definition VecUnshift (vector : Vec T) (value : T) : outcome (Vec T * list Z) :=
  '(vector, reallocs) ← vec_make_room vector;
  data ← (if vec_length vector >? 0
           then slots_move (vec_data vector) 1 0
                  (size_t (vec_length vector * elem_size))
           else Ok (vec_data vector));
  data ← slot_write data 0 value;
  len ← i32 (vec_length vector + 1);
  Ok ({| vec_data := Some data; vec_length := len;
         vec_capacity := vec_capacity vector |}, reallocs).

(** [VecInsert(vector, value, index)] *)
Definition VecInsert (vector : Vec T) (value : T) (index : Z)
  : outcome (Vec T * list Z) :=
  assert_ (index <=? vec_length vector) "VecInsert: Index out of bounds for insertion";;
  '(vector, reallocs) ← vec_make_room vector;
  n ← i32 (vec_length vector - index);
  data ← slots_move (vec_data vector) (index + 1) index (size_t (n * elem_size));
  data ← slot_write data index value;
  len ← i32 (vec_length vector + 1);
  Ok ({| vec_data := Some data; vec_length := len;
         vec_capacity := vec_capacity vector |}, reallocs).

(** [VecAt(vector, index)]: the macro yields the address of the slot; the
    model returns its content. *)
Definition VecAt (vector : Vec T) (index : Z) : outcome (option T) :=
  assert_ ((index >=? 0) && (index <? vec_length vector)) "VecAt: Index out of bounds";;
  slot_read (vec_data vector) index.

(** [VecFree(vector)]: the buffer is released and [data] is set to null;
    [length] and [capacity] are not touched. *)
Definition VecFree (vector : Vec T) : outcome (Vec T) :=
  assert_ (bool_decide (vec_data vector <> None))
         "VecFree: Vector data should never be NULL";;
  Ok {| vec_data := None; vec_length := vec_length vector;
        vec_capacity := vec_capacity vector |}.
End VectorOps.

(** ** Memory *)

#[global] Instance byte_eq_dec : EqDecision byte := Byte.byte_eq_dec.

(** A block is the content of one [malloc]ed (or static) object. [garbage]
    is the byte found in memory that [malloc] returns: C leaves it
    unspecified, so nothing below depends on its value. *)
Record Mem : Type := {
  blocks : list (list byte);
  garbage : byte
}.

Inductive pointer : Type :=
| NULL
| Ptr (blk : nat) (off : Z).

#[global] Instance pointer_eq_dec : EqDecision pointer.
Proof. solve_decision. Defined.

(** [p + i] *)
Definition ptr_add (p : pointer) (i : Z) : pointer :=
  match p with
  | NULL => NULL
  | Ptr blk off => Ptr blk (off + i)
  end.

Definition in_block (b : list byte) (off n : Z) : bool :=
  (0 <=? off) && (0 <=? n) && (off + n <=? Z.of_nat (length b)).

(** Read [n] bytes at [p]. No byte is accessed when [n = 0]. *)
Definition load (m : Mem) (p : pointer) (n : Z) : outcome (list byte) :=
  if n =? 0 then Ok []
  else match p with
       | NULL => Err NullDeref
       | Ptr blk off =>
           match blocks m !! blk with
           | None => Err OutOfBounds
           | Some b =>
               if in_block b off n
               then Ok (take (Z.to_nat n) (drop (Z.to_nat off) b))
               else Err OutOfBounds
           end
       end.

(** The block [b] with the bytes [bs] written at offset [off]. *)
Definition splice (b : list byte) (off : nat) (bs : list byte) : list byte :=
  take off b ++ bs ++ drop (off + length bs) b.

(** Write the bytes [bs] at [p]. No byte is accessed when [bs] is empty. *)
Definition store (m : Mem) (p : pointer) (bs : list byte) : outcome Mem :=
  match bs with
  | [] => Ok m
  | _ =>
      match p with
      | NULL => Err NullDeref
      | Ptr blk off =>
          match blocks m !! blk with
          | None => Err OutOfBounds
          | Some b =>
              if in_block b off (Z.of_nat (length bs))
              then Ok {| blocks := <[blk := splice b (Z.to_nat off) bs]> (blocks m);
                         garbage := garbage m |}
              else Err OutOfBounds
          end
      end
  end.

(** [*p] *)
Definition load_byte (m : Mem) (p : pointer) : outcome byte :=
  bs ← load m p 1;
  match bs with
  | [c] => Ok c
  | _ => Err OutOfBounds
  end.

(** [memset(p, c, n)] *)
Definition memset (m : Mem) (p : pointer) (c : byte) (n : Z) : outcome Mem :=
  store m p (replicate (Z.to_nat n) c).

(** [memcpy(dest, src, n)]: the [n] source bytes are read, then written.
    (C leaves overlapping copies undefined; the model copies a snapshot.) *)
Definition memcpy (m : Mem) (dest src : pointer) (n : Z) : outcome Mem :=
  bs ← load m src n;
  store m dest bs.

(** Lexicographic comparison of two byte strings of the same length, as
    [memcmp] computes it: the sign of the first difference. *)
Fixpoint bytes_cmp (xs ys : list byte) : Z :=
  match xs, ys with
  | x :: xs', y :: ys' =>
      if decide (x = y) then bytes_cmp xs' ys'
      else if (Byte.to_nat x <? Byte.to_nat y)%nat then -1 else 1
  | _, _ => 0
  end.

(** [memcmp(p, q, n)] *)
Definition memcmp (m : Mem) (p q : pointer) (n : Z) : outcome Z :=
  xs ← load m p n;
  ys ← load m q n;
  Ok (bytes_cmp xs ys).

(** [Malloc(size)]: a new block of [size] bytes; returns its number.
    ([malloc] itself is assumed to succeed.) *)
Definition Malloc (m : Mem) (size : Z) : outcome (Mem * nat) :=
  assert_ (0 <? size) "Malloc: size cant be negative";;
  Ok ({| blocks := blocks m ++ [replicate (Z.to_nat size) (garbage m)];
         garbage := garbage m |},
      length (blocks m)).

(** ** The arena *)

(** [sizeof(__ArenaChunk)]: the [next] pointer and [cap]; the flexible array
    member [buffer] starts right after them, in the same block. *)
Definition sizeof_ArenaChunk : Z := 16.

(** One [__ArenaChunk]: [base] is the block [malloc] returned for it. The
    [next] link is the order of the chunks in [chunks] below. *)
Record ArenaChunk : Type := {
  base : nat;
  cap : Z
}.

(** [chunk->buffer] *)
Definition buffer (ch : ArenaChunk) : pointer := Ptr (base ch) sizeof_ArenaChunk.

(** [Arena]. The chain of chunks is the list [chunks], in link order;
    [current] and [root] are positions in it ([None] for a null pointer). *)
Record Arena : Type := {
  chunks : list ArenaChunk;
  current : option nat;
  offset : Z;
  root : option nat;
  chunkSize : Z
}.

(** The loop of [__ArenaNextChunk]: [cs] is the chain from chunk number [i]
    on; the result is the first chunk whose [cap] exceeds [bytes]. *)
Fixpoint next_fit (cs : list ArenaChunk) (i : nat) (bytes : Z) : option nat :=
  match cs with
  | [] => None
  | ch :: rest => if cap ch >? bytes then Some i else next_fit rest (S i) bytes
  end.

(** [__ArenaNextChunk(arena, bytes)]. When no linked chunk fits, the walk
    has left [current] on the tail of the chain and the new chunk is linked
    after it, that is appended to [chunks]. (With [current] null, as in
    [ArenaCreate], the chain is empty.) *)
Definition __ArenaNextChunk (m : Mem) (arena : Arena) (bytes : Z)
  : outcome (Mem * Arena) :=
  let next := match current arena with
              | Some c => S c
              | None => length (chunks arena)
              end in
  match next_fit (drop next (chunks arena)) next bytes with
  | Some i =>
      Ok (m, {| chunks := chunks arena; current := Some i;
                offset := offset arena; root := root arena;
                chunkSize := chunkSize arena |})
  | None =>
      '(m, blk) ← Malloc m (size_t (sizeof_ArenaChunk + bytes));
      Ok (m, {| chunks := chunks arena ++ [{| base := blk; cap := bytes |}];
                current := Some (length (chunks arena));
                offset := offset arena; root := root arena;
                chunkSize := chunkSize arena |})
  end.

(** [arena->current], dereferenced. *)
Definition current_chunk (arena : Arena) : outcome ArenaChunk :=
  match current arena with
  | None => Err NullDeref
  | Some c => match chunks arena !! c with
              | None => Err OutOfBounds
              | Some ch => Ok ch
              end
  end.

(** [ArenaAllocAligned(arena, size, al)] *)
Definition ArenaAllocAligned (m : Mem) (arena : Arena) (size al : Z)
  : outcome (Mem * Arena * pointer) :=
  let tail := intptr_t (Z.land (offset arena) (size_t (al - 1))) in
  let aligned := intptr_t (if negb (tail =? 0)
                           then size_t (size_t (offset arena + al) - offset arena)
                           else offset arena) in
  let arena := {| chunks := chunks arena; current := current arena;
                  offset := size_t (aligned + size); root := root arena;
                  chunkSize := chunkSize arena |} in
  ch ← current_chunk arena;
  '(m, arena, result) ←
    (if offset arena >? cap ch then
       '(m, arena) ← __ArenaNextChunk m arena
                        (if size >? chunkSize arena then size else chunkSize arena);
       ch ← current_chunk arena;
       Ok (m, arena, buffer ch)
     else Ok (m, arena, ptr_add (buffer ch) aligned));
  m ← (if size =? 0 then Ok m else memset m result "000"%byte size);
  Ok (m, arena, result).

(** [ArenaAllocChars(arena, count)] *)
Definition ArenaAllocChars (m : Mem) (arena : Arena) (count : Z)
  : outcome (Mem * Arena * pointer) :=
  ArenaAllocAligned m arena count 1.

(** [DEFAULT_ALIGNMENT], with 8-byte pointers. *)
Definition DEFAULT_ALIGNMENT : Z := 2 * 8.

(** [ArenaAlloc(arena, size)] *)
Definition ArenaAlloc (m : Mem) (arena : Arena) (size : Z)
  : outcome (Mem * Arena * pointer) :=
  ArenaAllocAligned m arena size DEFAULT_ALIGNMENT.

(** [ArenaReset(arena)] *)
Definition ArenaReset (arena : Arena) : Arena :=
  {| chunks := chunks arena; current := root arena; offset := 0;
     root := root arena; chunkSize := chunkSize arena |}.

(** [sizeof(Arena)] *)
Definition sizeof_Arena : Z := 32.

(** [ArenaCreate(chunkSize)]: the control block is allocated and zeroed (the
    model keeps its fields in the record), then the first chunk is obtained
    through [__ArenaNextChunk]. *)
Definition ArenaCreate (m : Mem) (chunkSize : Z) : outcome (Mem * Arena) :=
  '(m, blk) ← Malloc m sizeof_Arena;
  m ← memset m (Ptr blk 0) "000"%byte sizeof_Arena;
  let res := {| chunks := []; current := None; offset := 0; root := None;
                chunkSize := chunkSize |} in
  '(m, res) ← __ArenaNextChunk m res chunkSize;
  Ok (m, {| chunks := chunks res; current := current res; offset := offset res;
            root := current res; chunkSize := chunkSize |}).

(** ** Strings *)

(** [String]: [length] and [data]. *)
Record String : Type := {
  str_length : Z;
  str_data : pointer
}.

(** [sizeof(String)] *)
Definition sizeof_String : Z := 16.

(** [StringVector] *)
Definition StringVector : Type := Vec String.

(** [addNullTerminator(str, len)] *)
Definition addNullTerminator (m : Mem) (str : pointer) (len : Z) : outcome Mem :=
  store m (ptr_add str len) ["000"%byte].

(** [StrIsNull(str)] *)
Definition StrIsNull (str : String) : bool :=
  bool_decide (str_data str = NULL).

Definition EINVAL : Z := 22.

(** [memcpy_s(dest, destSize, src, count)], as defined for the platforms
    that lack it. *)
Definition memcpy_s (m : Mem) (dest : pointer) (destSize : Z) (src : pointer)
    (count : Z) : outcome (Mem * Z) :=
  if bool_decide (dest = NULL) then Ok (m, EINVAL)
  else if bool_decide (src = NULL) || (destSize <? count) then
    m ← memset m dest "000"%byte destSize;
    Ok (m, EINVAL)
  else
    m ← memcpy m dest src count;
    Ok (m, 0).

(** [StrNewSize(arena, str, len)] *)
Definition StrNewSize (m : Mem) (arena : Arena) (str : pointer) (len : Z)
  : outcome (Mem * Arena * String) :=
  let memorySize := size_t (1 * len + 1) in
  '(m, arena, allocatedString) ← ArenaAllocChars m arena memorySize;
  m ← memcpy m allocatedString str memorySize;
  m ← addNullTerminator m allocatedString len;
  Ok (m, arena, {| str_length := len; str_data := allocatedString |}).

(** [StrConcat(arena, string1, string2)] *)
Definition StrConcat (m : Mem) (arena : Arena) (string1 string2 : String)
  : outcome (Mem * Arena * String) :=
  if StrIsNull string1 then
    let len := str_length string2 in
    let memorySize := size_t (1 * len) in
    '(m, arena, allocatedString) ← ArenaAllocChars m arena memorySize;
    '(m, _) ← memcpy_s m allocatedString memorySize
                (str_data string2) (str_length string2);
    m ← addNullTerminator m allocatedString len;
    Ok (m, arena, {| str_length := len; str_data := allocatedString |})
  else if StrIsNull string2 then
    let len := str_length string1 in
    let memorySize := size_t (1 * len) in
    '(m, arena, allocatedString) ← ArenaAllocChars m arena memorySize;
    '(m, _) ← memcpy_s m allocatedString memorySize
                (str_data string1) (str_length string1);
    m ← addNullTerminator m allocatedString len;
    Ok (m, arena, {| str_length := len; str_data := allocatedString |})
  else
    let len := size_t (str_length string1 + str_length string2) in
    let memorySize := size_t (1 * len + 1) in
    '(m, arena, allocatedString) ← ArenaAllocChars m arena memorySize;
    '(m, _) ← memcpy_s m allocatedString memorySize
                (str_data string1) (str_length string1);
    '(m, _) ← memcpy_s m (ptr_add allocatedString (str_length string1)) memorySize
                (str_data string2) (str_length string2);
    m ← addNullTerminator m allocatedString len;
    Ok (m, arena, {| str_length := len; str_data := allocatedString |}).

(** [StrEqual(string1, string2)] *)
Definition StrEqual (m : Mem) (string1 string2 : String) : outcome bool :=
  if negb (str_length string1 =? str_length string2) then Ok false
  else
    c ← memcmp m (str_data string1) (str_data string2) (str_length string1);
    if negb (c =? 0) then Ok false else Ok true.

(** The first loop of [StrSplit] (empty delimiter): [n] iterations are left,
    starting at index [i]. *)
Fixpoint split_bytes (m : Mem) (arena : Arena) (str : String)
    (result : StringVector) (i : Z) (n : nat)
  : outcome (Mem * Arena * StringVector) :=
  match n with
  | O => Ok (m, arena, result)
  | S n' =>
      '(m, arena, currString) ← StrNewSize m arena (ptr_add (str_data str) i) 1;
      '(result, _) ← VecPush sizeof_String result currString;
      split_bytes m arena str result (i + 1) n'
  end.

(** The search loop of [StrSplit],
    [for (search = curr; search <= end - delimiter->length; search++)],
    with [n] candidate positions left. Positions are offsets from
    [str->data]; the result is the position of the first match. *)
Fixpoint find_match (m : Mem) (str delimiter : String) (search : Z) (n : nat)
  : outcome (option Z) :=
  match n with
  | O => Ok None
  | S n' =>
      c ← memcmp m (ptr_add (str_data str) search) (str_data delimiter)
            (str_length delimiter);
      if c =? 0 then Ok (Some search)
      else find_match m str delimiter (search + 1) n'
  end.

(** The main loop of [StrSplit], [while (curr < end)]. Every iteration moves
    [curr] forward, so [fuel] bounds the number of iterations. *)
Fixpoint split_loop (fuel : nat) (m : Mem) (arena : Arena)
    (str delimiter : String) (result : StringVector) (curr : Z)
  : outcome (Mem * Arena * StringVector) :=
  let end_ := str_length str in
  if curr <? end_ then
    match fuel with
    | O => Err OutOfFuel
    | S fuel' =>
        found ← find_match m str delimiter curr
                  (Z.to_nat (end_ - str_length delimiter - curr + 1));
        match found with
        | None =>
            '(m, arena, currString) ←
              StrNewSize m arena (ptr_add (str_data str) curr) (end_ - curr);
            '(result, _) ← VecPush sizeof_String result currString;
            Ok (m, arena, result)
        | Some match_ =>
            let len := match_ - curr in
            '(m, arena, currString) ←
              StrNewSize m arena (ptr_add (str_data str) curr) len;
            '(result, _) ← VecPush sizeof_String result currString;
            split_loop fuel' m arena str delimiter result
              (match_ + str_length delimiter)
        end
    end
  else Ok (m, arena, result).

(** [StrSplit(arena, str, delimiter)] *)
Definition StrSplit (m : Mem) (arena : Arena) (str delimiter : String)
  : outcome (Mem * Arena * StringVector) :=
  assert_ (negb (StrIsNull str)) "StrSplit: str should never be NULL";;
  assert_ (negb (StrIsNull delimiter)) "StrSplit: delimiter should never be NULL";;
  let result := VecZero in
  if str_length delimiter =? 0 then
    split_bytes m arena str result 0 (Z.to_nat (str_length str))
  else
    split_loop (Z.to_nat (str_length str)) m arena str delimiter result 0.

(** [isSpace(character)]: space, line feed, tab, carriage return. *)
Definition isSpace (character : byte) : bool :=
  bool_decide (character = " "%byte) || bool_decide (character = "010"%byte)
  || bool_decide (character = "009"%byte) || bool_decide (character = "013"%byte).

(** The scanning loop of [StrTrim] over the bytes [data[i ..]]: [firstChar]
    and [lastChar] are positions in [data] ([None] for a null pointer). *)
Fixpoint trim_scan (bytes : list byte) (i : Z) (firstChar lastChar : option Z)
  : option Z * option Z :=
  match bytes with
  | [] => (firstChar, lastChar)
  | currChar :: rest =>
      if isSpace currChar then trim_scan rest (i + 1) firstChar lastChar
      else trim_scan rest (i + 1)
             (match firstChar with None => Some i | Some _ => firstChar end)
             (Some i)
  end.

(** [StrTrim(str)]: the string is rewritten in place; the result is the
    memory and the updated [String]. *)
Definition StrTrim (m : Mem) (str : String) : outcome (Mem * String) :=
  if str_length str =? 0 then Ok (m, str)
  else if str_length str =? 1 then
    c ← load_byte m (str_data str);
    if isSpace c then
      m ← store m (str_data str) ["000"%byte];
      Ok (m, {| str_length := 0; str_data := str_data str |})
    else Ok (m, str)
  else
    bytes ← load m (str_data str) (str_length str);
    match trim_scan bytes 0 None None with
    | (Some firstChar, Some lastChar) =>
        let len := size_t (lastChar - firstChar + 1) in
        '(m, _) ← memcpy_s m (str_data str) (str_length str)
                    (ptr_add (str_data str) firstChar) len;
        m ← addNullTerminator m (str_data str) len;
        Ok (m, {| str_length := len; str_data := str_data str |})
    | _ =>
        m ← store m (str_data str) ["000"%byte];
        m ← addNullTerminator m (str_data str) 0;
        Ok (m, {| str_length := 0; str_data := str_data str |})
    end.

(** [StrSlice(arena, str, start, end)]. The parameters are [size_t]: the
    arguments of a call are converted to it on entry. *)
Definition StrSlice (m : Mem) (arena : Arena) (str : String) (start end_ : Z)
  : outcome (Mem * Arena * String) :=
  let start := size_t start in
  let end_ := size_t end_ in
  assert_ (start >=? 0) "StrSlice: start index must be non-negative";;
  assert_ (start <=? str_length str) "StrSlice: start index out of bounds";;
  let end_ := if end_ <? 0 then size_t (str_length str + end_) else end_ in
  assert_ (end_ >=? start) "StrSlice: end must be greater than or equal to start";;
  assert_ (end_ <=? str_length str) "StrSlice: end index out of bounds";;
  let len := size_t (end_ - start) in
  StrNewSize m arena (ptr_add (str_data str) start) len.

(** *** The other string functions *)

(** The loop of [strLength], [while (len < maxSize && str[len] != '\0')],
    with [n] iterations left before [len] reaches [maxSize]. *)
Fixpoint strLength_loop (m : Mem) (str : pointer) (len : Z) (n : nat) : outcome Z :=
  match n with
  | O => Ok len
  | S n' =>
      c ← load_byte m (ptr_add str len);
      if bool_decide (c = "000"%byte) then Ok len
      else strLength_loop m str (len + 1) n'
  end.

(** [strLength(str, maxSize)] *)
Definition strLength (m : Mem) (str : pointer) (maxSize : Z) : outcome Z :=
  if bool_decide (str = NULL) then Ok 0
  else strLength_loop m str 0 (Z.to_nat maxSize).

(** [StrNew(arena, str)]. [maxStringSize] is the value of the global of
    that name: 10000 until [SetMaxStrSize] changes it. *)
Definition StrNew (maxStringSize : Z) (m : Mem) (arena : Arena) (str : pointer)
  : outcome (Mem * Arena * String) :=
  len ← strLength m str maxStringSize;
  if len =? 0 then Ok (m, arena, {| str_length := 0; str_data := NULL |})
  else
    let memorySize := size_t (1 * len + 1) in
    '(m, arena, allocatedString) ← ArenaAllocChars m arena memorySize;
    m ← memcpy m allocatedString str memorySize;
    m ← addNullTerminator m allocatedString len;
    Ok (m, arena, {| str_length := len; str_data := allocatedString |}).

(** [StrCopy(destination, source)]: the result is the memory and the
    updated [*destination]. *)
Definition StrCopy (m : Mem) (destination source : String) : outcome (Mem * String) :=
  assert_ (negb (StrIsNull destination)) "StrCopy: destination should never be NULL";;
  assert_ (negb (StrIsNull source)) "StrCopy: source should never be NULL";;
  assert_ (str_length destination >=? str_length source)
         "destination length should never smaller than source length";;
  '(m, result) ← memcpy_s m (str_data destination) (str_length destination)
                    (str_data source) (str_length source);
  assert_ (result =? 0) "StrCopy: result should never be anything but 0";;
  let destination := {| str_length := str_length source;
                        str_data := str_data destination |} in
  m ← addNullTerminator m (str_data destination) (str_length destination);
  Ok (m, destination).

(** The inner loop of [StrSplitNewLine],
    [while (pos < end && *pos != '\n') pos++], with [n] positions left
    before [end]. Positions are offsets from [str->data]. *)
Fixpoint find_newline (m : Mem) (str : String) (pos : Z) (n : nat) : outcome Z :=
  match n with
  | O => Ok pos
  | S n' =>
      c ← load_byte m (ptr_add (str_data str) pos);
      if bool_decide (c = "010"%byte) then Ok pos
      else find_newline m str (pos + 1) n'
  end.

(** The outer loop of [StrSplitNewLine], [while (curr < end)]. Every
    iteration moves [curr] forward, so [fuel] bounds their number. *)
Fixpoint newline_loop (fuel : nat) (m : Mem) (arena : Arena) (str : String)
    (result : StringVector) (curr : Z) : outcome (Mem * Arena * StringVector) :=
  let end_ := str_length str in
  if curr <? end_ then
    match fuel with
    | O => Err OutOfFuel
    | S fuel' =>
        pos ← find_newline m str curr (Z.to_nat (end_ - curr));
        let len := pos - curr in
        len ← (if (pos <? end_) && (pos >? curr) then
                 c ← load_byte m (ptr_add (str_data str) (pos - 1));
                 if bool_decide (c = "013"%byte) then Ok (len - 1) else Ok len
               else Ok len);
        '(m, arena, currString) ←
          StrNewSize m arena (ptr_add (str_data str) curr) len;
        '(result, _) ← VecPush sizeof_String result currString;
        if pos <? end_ then newline_loop fuel' m arena str result (pos + 1)
        else Ok (m, arena, result)
    end
  else Ok (m, arena, result).

(** [StrSplitNewLine(arena, str)] *)
Definition StrSplitNewLine (m : Mem) (arena : Arena) (str : String)
  : outcome (Mem * Arena * StringVector) :=
  assert_ (negb (StrIsNull str)) "SplitNewLine: str should never be NULL";;
  newline_loop (Z.to_nat (str_length str)) m arena str VecZero 0.

(** [toupper] and [tolower] in the "C" locale: only the 26 ASCII letters
    change. *)
Definition toupper (c : byte) : byte :=
  let n := Byte.to_N c in
  if ((97 <=? n) && (n <=? 122))%N then default c (Byte.of_N (n - 32)) else c.





(** [ParsePath(arena, path)] *)
Definition ParsePath (m : Mem) (arena : Arena) (path : String)
  : outcome (Mem * Arena * String) :=
  dotted ← (if str_length path >=? 2 then
              c0 ← load_byte m (str_data path);
              if bool_decide (c0 = "."%byte) then
                c1 ← load_byte m (ptr_add (str_data path) 1);
                Ok (bool_decide (c1 = "/"%byte) || bool_decide (c1 = "092"%byte))
              else Ok false
            else Ok false);
  if dotted : bool then
    '(m, arena, result) ←
      StrNewSize m arena (ptr_add (str_data path) 2) (size_t (str_length path - 2));
    m ← memcpy m (str_data result) (ptr_add (str_data path) 2)
          (size_t (str_length path - 2));
    Ok (m, arena, result)
  else StrNewSize m arena (str_data path) (str_length path).

(** ** Random numbers *)

(** Conversion to [u32] (32 bits, unsigned). *)
Definition u32 (z : Z) : Z := z mod 2 ^ 32.

(** Conversion to [i32] (32 bits, two's complement). *)
Definition to_i32 (z : Z) : Z :=
  let u := z mod 2 ^ 32 in if u <? 2 ^ 31 then u else u - 2 ^ 32.

(** The loop [do { r = rand(); } while (r >= limit)] of [RandomInteger];
    [rands] are the successive results of [rand()]. The loop has no result
    when none of them is below [limit]. *)
Fixpoint rand_until (rands : list Z) (limit : Z) : outcome Z :=
  match rands with
  | [] => Err OutOfFuel
  | r :: rest =>
      let r := u32 r in
      if r >=? limit then rand_until rest limit else Ok r
  end.

(** [RandomInteger(min, max)]. [RAND_MAX] is the constant of the C library
    and [rands] the results that [rand()] is going to give. (With
    [buckets == 0] the loop has no result, so the division by [buckets] is
    not reached.) *)
Definition RandomInteger (RAND_MAX : Z) (rands : list Z) (min max : Z) : outcome Z :=
  assert_ (min <=? max) "RandomInteger: min should always be less than or equal to max";;
  diff ← i32 (max - min);
  assert_ (diff <=? INT32_MAX - 1) "RandomInteger: range too large";;
  range ← i32 (diff + 1);
  let buckets := u32 (Z.quot RAND_MAX range) in
  let limit := u32 (buckets * u32 range) in
  r ← rand_until rands limit;
  Ok (to_i32 (u32 min + Z.quot r buckets)).

(** ** Reading values back *)

(** The bytes [data[0 .. length)] of a string. *)
Definition str_bytes (m : Mem) (str : String) : outcome (list byte) :=
  load m (str_data str) (str_length str).

(** The bytes of every string of a list, in order. *)
Fixpoint strs_bytes (m : Mem) (strs : list String) : outcome (list (list byte)) :=
  match strs with
  | [] => Ok []
  | str :: rest =>
      bs ← str_bytes m str;
      bss ← strs_bytes m rest;
      Ok (bs :: bss)
  end.

(** [join d [t1; ...; tn] = t1 ++ d ++ ... ++ d ++ tn] *)
Fixpoint join (d : list byte) (tokens : list (list byte)) : list byte :=
  match tokens with
  | [] => []
  | [t] => t
  | t :: rest => t ++ d ++ join d rest
  end.

(** [StrSplit] followed by reading the bytes of every token of the vector
    it returns. *)
Definition split_tokens (m : Mem) (arena : Arena) (str delimiter : String)
  : outcome (list (list byte)) :=
  '(m, arena, result) ← StrSplit m arena str delimiter;
  match vec_elems result with
  | Some tokens => strs_bytes m tokens
  | None => Err OutOfBounds
  end.

(** [StrSplitNewLine] followed by reading the bytes of every line of the
    vector it returns. *)
Definition line_tokens (m : Mem) (arena : Arena) (str : String)
  : outcome (list (list byte)) :=
  '(m, arena, result) ← StrSplitNewLine m arena str;
  match vec_elems result with
  | Some tokens => strs_bytes m tokens
  | None => Err OutOfBounds
  end.

(** A memory with one static block per given byte string, in order; the
    [i]-th string is at [Ptr i 0]. *)
Definition static_mem (literals : list (list byte)) : Mem :=
  {| blocks := literals; garbage := "205"%byte |}.

(** The bytes of a C string literal: the characters and the terminator. *)
Definition literal (s : string) : list byte :=
  list_byte_of_string s ++ ["000"%byte].

#[global] Instance String_eq_dec : EqDecision String.
Proof. solve_decision. Defined.

(** The macro [S(s)]: the [String] for the literal held in block [blk]. *)
Definition StrLit (blk : nat) (s : string) : String :=
  {| str_length := Z.of_nat (String.length s); str_data := Ptr blk 0 |}.

(** [StrSplit(arena, &S(s), &S(d))] on an arena just created with chunk
    size 64, with the bytes of the tokens read back. *)
Definition split_literals (s d : string) : outcome (list (list byte)) :=
  '(m, arena) ← ArenaCreate (static_mem [literal s; literal d]) 64;
  split_tokens m arena (StrLit 0 s) (StrLit 1 d).

(** ** Observing runs of allocations *)

(** The position in the chain (counted from [i]) of the chunk whose block
    is [blk]. *)
Fixpoint find_chunk (cs : list ArenaChunk) (i : nat) (blk : nat) : option nat :=
  match cs with
  | [] => None
  | ch :: rest => if decide (base ch = blk) then Some i else find_chunk rest (S i) blk
  end.

(** What one allocation did: the chunk its result points into, the position
    of the result in that chunk's [buffer], and the number of chunks and
    the [offset] of the arena after the call. *)
Record alloc_event : Type := {
  served_by : option nat;
  position : Z;
  chunk_count : nat;
  offset_after : Z
}.

Definition observe (arena : Arena) (p : pointer) : alloc_event :=
  match p with
  | NULL => {| served_by := None; position := 0;
               chunk_count := length (chunks arena); offset_after := offset arena |}
  | Ptr blk off =>
      {| served_by := find_chunk (chunks arena) 0 blk;
         position := off - sizeof_ArenaChunk;
         chunk_count := length (chunks arena);
         offset_after := offset arena |}
  end.

(** A run of [ArenaAllocAligned(arena, size, al)] calls, one per request
    [(size, al)], observed. *)
Fixpoint alloc_run (m : Mem) (arena : Arena) (requests : list (Z * Z))
  : outcome (list alloc_event) :=
  match requests with
  | [] => Ok []
  | (size, al) :: rest =>
      '(m, arena, p) ← ArenaAllocAligned m arena size al;
      events ← alloc_run m arena rest;
      Ok (observe arena p :: events)
  end.

(** The same run on an arena just created with chunk size [chunkSize]. *)
Definition fresh_alloc_run (m : Mem) (chunkSize : Z) (requests : list (Z * Z))
  : outcome (list alloc_event) :=
  '(m, arena) ← ArenaCreate m chunkSize;
  alloc_run m arena requests.

(** ** Predicates used in the statements *)

(** The buffer of a vector has [capacity] slots (none for a null [data]) and
    the live elements fit in it. *)
Definition vec_wf {T : Type} (v : Vec T) : Prop :=
  Z.of_nat (length (default [] (vec_data v))) = vec_capacity v
  /\ 0 <= vec_length v <= vec_capacity v.

(** The capacity [VecPush] moves to when the buffer is full. *)
Definition grown (capacity : Z) : Z :=
  if capacity =? 0 then 128 else capacity * 2.

(** The size of block [blk], when it exists. *)
Definition block_size (m : Mem) (blk : nat) : option Z :=
  (fun b => Z.of_nat (length b)) <$> blocks m !! blk.

(** The [n] bytes at [p] lie inside a block of [m]. *)
Definition readable (m : Mem) (p : pointer) (n : Z) : Prop :=
  match p with
  | NULL => False
  | Ptr blk off =>
      exists size, block_size m blk = Some size /\ 0 <= off /\ 0 <= n /\ off + n <= size
  end.

(** The arena is in a state that its own operations produce: [current] is a
    chunk of the chain, every chunk has its own block, which holds the
    header and [cap] bytes, and the sizes are far from wrapping. *)
Definition arena_wf (m : Mem) (arena : Arena) : Prop :=
  (exists c, current arena = Some c /\ (c < length (chunks arena))%nat)
  /\ (forall i ch, chunks arena !! i = Some ch ->
        block_size m (base ch) = Some (sizeof_ArenaChunk + cap ch)
        /\ 0 <= cap ch < 2 ^ 62)
  /\ (forall i j ci cj, chunks arena !! i = Some ci -> chunks arena !! j = Some cj ->
        base ci = base cj -> i = j)
  /\ 0 <= offset arena
  /\ 0 <= chunkSize arena < 2 ^ 62.

(** The [n] bytes at [p] are readable and out of the reach of later
    allocations of the arena: they are outside its chunks, or in a chunk
    before [current], or in [current] below [offset]. *)
Definition live (m : Mem) (arena : Arena) (p : pointer) (n : Z) : Prop :=
  readable m p n
  /\ match p with
     | NULL => False
     | Ptr blk off =>
         forall i ch, chunks arena !! i = Some ch -> base ch = blk ->
           exists c, current arena = Some c
             /\ ((i < c)%nat
                 \/ (i = c /\ off + n <= sizeof_ArenaChunk + offset arena))
     end.

(** The arena with [current] on chunk [c] and [offset] at [off]. *)
Definition arena_at (arena : Arena) (c : nat) (off : Z) : Arena :=
  {| chunks := chunks arena; current := Some c; offset := off;
     root := root arena; chunkSize := chunkSize arena |}.

(** The arena with a new chunk of [bytes] bytes in block [blk] linked at the
    tail and made current, and [offset] at [off]. *)
Definition arena_grown (arena : Arena) (blk : nat) (bytes off : Z) : Arena :=
  {| chunks := chunks arena ++ [{| base := blk; cap := bytes |}];
     current := Some (length (chunks arena)); offset := off;
     root := root arena; chunkSize := chunkSize arena |}.

(** The memory with a new block of [size] bytes. *)
Definition mem_grown (m : Mem) (size : Z) : Mem :=
  {| blocks := blocks m ++ [replicate (Z.to_nat size) (garbage m)];
     garbage := garbage m |}.

(** The position that [ArenaAllocAligned] computes from [offset] for the
    alignment [al]: [offset] when it is a multiple of [al], otherwise [al]
    (the value of [offset + al - offset]). *)
Definition aligned_position (offset al : Z) : Z :=
  if Z.land offset (al - 1) =? 0 then offset else al.

(** Two regions do not overlap. *)
Definition disjoint (blk : nat) (off n : Z) (blk' : nat) (off' n' : Z) : Prop :=
  blk <> blk' \/ off + n <= off' \/ off' + n' <= off.

(** What an allocation of [size] bytes establishes, from memory [m] and
    arena [arena] to [m'] and [arena'] with the region at [Ptr blk off]:
    the arena stays well formed, the region is live and zero-filled, and
    every region that was live stays live, keeps its content and does not
    overlap the new one. *)
Definition alloc_post (m : Mem) (arena : Arena) (size : Z)
    (m' : Mem) (arena' : Arena) (blk : nat) (off : Z) : Prop :=
  arena_wf m' arena'
  /\ offset arena' = offset arena + size
  /\ chunkSize arena' = chunkSize arena
  /\ live m' arena' (Ptr blk off) size
  /\ load m' (Ptr blk off) size = Ok (replicate (Z.to_nat size) "000"%byte)
  /\ (forall blk' off' n, live m arena (Ptr blk' off') n ->
        live m' arena' (Ptr blk' off') n
        /\ load m' (Ptr blk' off') n = load m (Ptr blk' off') n
        /\ disjoint blk' off' n blk off size).

(** The string [str] holds the bytes [bs]: its [length] is their number and
    its buffer, the bytes and the slot of the terminator, is live. *)
Definition holds (m : Mem) (arena : Arena) (str : String) (bs : list byte) : Prop :=
  str_length str = Z.of_nat (length bs)
  /\ exists b o, str_data str = Ptr b o
       /\ live m arena (Ptr b o) (str_length str + 1)
       /\ load m (Ptr b o) (str_length str) = Ok bs.

(** Every token followed by the delimiter: [t1 ++ d ++ ... ++ tn ++ d]. *)
Definition glue (d : list byte) (tokens : list (list byte)) : list byte :=
  concat (map (fun t => t ++ d) tokens).

(** The bytes of a path without a leading ["./"] or [".\"]. *)
Definition strip_dot_prefix (bs : list byte) : list byte :=
  match bs with
  | c0 :: c1 :: rest =>
      if bool_decide (c0 = "."%byte)
         && (bool_decide (c1 = "/"%byte) || bool_decide (c1 = "092"%byte))
      then rest else bs
  | _ => bs
  end.

(** The first position in [search, search + k) at which [s] holds [d]. *)
Fixpoint find_pure (s d : list byte) (search k : nat) : option nat :=
  match k with
  | O => None
  | S k' =>
      if bool_decide (take (length d) (drop search s) = d) then Some search
      else find_pure s d (S search) k'
  end.

(** The tokens that [StrSplit] cuts from the bytes [s] with the delimiter
    [d], from position [curr] on: up to the next occurrence of [d], then on
    from behind it; the rest of [s] when [d] does not occur again, and
    nothing when [curr] is the end of [s]. *)
Fixpoint split_pure (fuel : nat) (s d : list byte) (curr : nat) : list (list byte) :=
  if (curr <? length s)%nat then
    match fuel with
    | O => []
    | S fuel' =>
        match find_pure s d curr (length s + 1 - length d - curr) with
        | None => [drop curr s]
        | Some mt =>
            take (mt - curr) (drop curr s) :: split_pure fuel' s d (mt + length d)
        end
    end
  else [].

(** The lines that [StrSplitNewLine] cuts from the bytes [s], from position
    [curr] on: up to the next line feed, without a carriage return right
    before it. *)
Fixpoint lines_pure (fuel : nat) (s : list byte) (curr : nat) : list (list byte) :=
  if (curr <? length s)%nat then
    match fuel with
    | O => []
    | S fuel' =>
        match find_pure s ["010"%byte] curr (length s - curr) with
        | None => [drop curr s]
        | Some pos =>
            (if (curr <? pos)%nat && bool_decide (s !! (pos - 1)%nat = Some "013"%byte)
             then take (pos - curr - 1) (drop curr s)
             else take (pos - curr) (drop curr s))
            :: lines_pure fuel' s (S pos)
        end
    end
  else [].

(** The arena has run past its chunks: [current] is the tail of the chain
    and [offset] has reached the capacity of that chunk. *)
Definition exhausted (arena : Arena) : Prop :=
  exists c ch,
    current arena = Some c /\ S c = length (chunks arena)
    /\ chunks arena !! c = Some ch /\ cap ch <= offset arena.

(** * Properties *)

(** ** Integers and the error monad *)

Lemma size_t_small (z : Z) : 0 <= z < 2 ^ 64 -> size_t z = z.
Proof. intros H. unfold size_t. apply Z.mod_small. exact H. Qed.

Lemma size_t_range (z : Z) : 0 <= size_t z < 2 ^ 64.
Proof. unfold size_t. apply Z.mod_pos_bound. lia. Qed.

Lemma intptr_t_small (z : Z) : 0 <= z < 2 ^ 63 -> intptr_t z = z.
Proof.
  intros H. unfold intptr_t. rewrite Z.mod_small by lia.
  destruct (Z.ltb_spec z (2 ^ 63)); lia.
Qed.

Lemma i32_in_range (z : Z) : INT32_MIN <= z <= INT32_MAX -> i32 z = Ok z.
Proof.
  intros H. unfold i32.
  destruct (Z.leb_spec INT32_MIN z); [|lia].
  destruct (Z.leb_spec z INT32_MAX); [reflexivity|lia].
Qed.

Lemma assert_true (msg : string) : assert_ true msg = Ok tt.
Proof. reflexivity. Qed.

Lemma bind_Ok {A B : Type} (a : A) (k : A -> outcome B) : (Ok a ≫= k) = k a.
Proof. reflexivity. Qed.

(** One step of evaluation in the error monad. *)
Ltac mstep := rewrite bind_Ok; cbv beta iota.

(** ** The vector *)

Section VectorFacts.
Context {T : Type}.
Variable elem_size : Z.
Hypothesis elem_size_pos : 0 < elem_size.
Hypothesis elem_size_small : elem_size <= 2 ^ 32.

Implicit Types (v : Vec T) (x : T).

Lemma VecZero_wf : vec_wf (@VecZero T).
Proof. unfold vec_wf. simpl. lia. Qed.

Lemma Realloc_grow (block : option (list (option T))) (capacity : Z) :
  Z.of_nat (length (default [] block)) <= capacity ->
  0 < capacity <= INT32_MAX ->
  Realloc elem_size block (size_t (capacity * elem_size))
  = Ok (default [] block
        ++ replicate (Z.to_nat capacity - length (default [] block)) None).
Proof.
  intros Hlen Hcap. unfold Realloc, INT32_MAX in *.
  rewrite size_t_small by nia.
  destruct (Z.ltb_spec 0 (capacity * elem_size)); [|nia].
  simpl. rewrite Z.div_mul by lia.
  rewrite take_ge by lia. reflexivity.
Qed.

(** A push into a buffer that has room: no [Realloc]. *)
Lemma VecPush_room v x slots :
  vec_data v = Some slots ->
  Z.of_nat (length slots) = vec_capacity v ->
  0 <= vec_length v < vec_capacity v ->
  vec_capacity v <= INT32_MAX ->
  VecPush elem_size v x
  = Ok ({| vec_data := Some (<[Z.to_nat (vec_length v) := Some x]> slots);
           vec_length := vec_length v + 1;
           vec_capacity := vec_capacity v |}, []).
Proof.
  intros Hd Hs Hl Hc. unfold VecPush.
  destruct (Z.leb_spec (vec_length v) (vec_capacity v)); [|lia].
  rewrite assert_true. simpl.
  destruct (Z.geb_spec (vec_length v) (vec_capacity v)); [lia|].
  simpl. rewrite Hd.
  destruct (Z.leb_spec 0 (vec_length v)); [|lia].
  destruct (Z.ltb_spec (vec_length v) (Z.of_nat (length slots))); [|lia].
  simpl. rewrite i32_in_range by (unfold INT32_MIN, INT32_MAX in *; lia).
  reflexivity.
Qed.

(** A push into a full buffer: one [Realloc], to the grown capacity. *)
Lemma VecPush_full v x :
  vec_wf v ->
  vec_length v = vec_capacity v ->
  grown (vec_capacity v) <= INT32_MAX ->
  VecPush elem_size v x
  = Ok ({| vec_data :=
             Some (<[Z.to_nat (vec_length v) := Some x]>
                     (default [] (vec_data v)
                      ++ replicate (Z.to_nat (grown (vec_capacity v))
                                    - length (default [] (vec_data v))) None));
           vec_length := vec_length v + 1;
           vec_capacity := grown (vec_capacity v) |},
        [grown (vec_capacity v) * elem_size]).
Proof.
  intros [Hs Hl] Hfull Hg. unfold VecPush.
  destruct (Z.leb_spec (vec_length v) (vec_capacity v)); [|lia].
  rewrite assert_true. simpl.
  destruct (Z.geb_spec (vec_length v) (vec_capacity v)); [|lia].
  assert (Hgrow : vec_capacity v < grown (vec_capacity v)).
  { unfold grown. destruct (Z.eqb_spec (vec_capacity v) 0); lia. }
  assert (Hcap : (if vec_capacity v =? 0 then Ok 128 else i32 (vec_capacity v * 2))
                 = Ok (grown (vec_capacity v))).
  { unfold grown in *. destruct (Z.eqb_spec (vec_capacity v) 0); [reflexivity|].
    apply i32_in_range. unfold INT32_MIN, INT32_MAX in *. lia. }
  rewrite Hcap. simpl.
  rewrite Realloc_grow by lia. simpl.
  rewrite length_app, length_replicate.
  destruct (Z.leb_spec 0 (vec_length v)); [|lia].
  match goal with |- context [(?a <? ?b)] => destruct (Z.ltb_spec a b); [|lia] end.
  simpl. rewrite i32_in_range by (unfold INT32_MIN, INT32_MAX in *; lia).
  rewrite size_t_small by (unfold INT32_MAX in *; nia).
  reflexivity.
Qed.

Lemma vec_elems_spec v (l : list T) :
  vec_wf v ->
  vec_elems v = Some l
  <-> take (Z.to_nat (vec_length v)) (default [] (vec_data v)) = map Some l.
Proof.
  intros [Hs Hl]. unfold vec_elems.
  destruct (vec_data v) as [slots|] eqn:Hd; simpl in *.
  - destruct (Z.ltb_spec (Z.of_nat (length slots)) (vec_length v)); [lia|].
    rewrite mapM_Some. split.
    + intros HF. induction HF as [|? ? ? ? Hy]; simpl; [reflexivity|].
      unfold id in Hy. congruence.
    + intros ->. induction l; simpl; constructor; auto.
  - assert (vec_length v = 0) as -> by lia. simpl. split.
    + intros [= <-]. reflexivity.
    + destruct l; [reflexivity|discriminate].
Qed.

(** What a push does to a well-formed vector, with or without growth. *)
Lemma VecPush_spec v x (l : list T) :
  vec_wf v ->
  vec_elems v = Some l ->
  vec_capacity v <= INT32_MAX ->
  (vec_length v = vec_capacity v -> grown (vec_capacity v) <= INT32_MAX) ->
  exists v',
    VecPush elem_size v x
    = Ok (v', if vec_length v <? vec_capacity v then []
              else [grown (vec_capacity v) * elem_size])
    /\ vec_wf v'
    /\ vec_elems v' = Some (l ++ [x])
    /\ vec_length v' = vec_length v + 1
    /\ vec_capacity v' = (if vec_length v <? vec_capacity v then vec_capacity v
                          else grown (vec_capacity v)).
Proof.
  intros Hwf He Hc Hg. pose proof Hwf as [Hs Hl].
  apply vec_elems_spec in He; [|exact Hwf].
  assert (Hgrow : vec_capacity v < grown (vec_capacity v)).
  { unfold grown. destruct (Z.eqb_spec (vec_capacity v) 0); lia. }
  destruct (Z.ltb_spec (vec_length v) (vec_capacity v)) as [Hlt|Hge].
  - destruct (vec_data v) as [slots|] eqn:Hd; simpl in *; [|lia].
    eexists. split; [apply (VecPush_room v x slots); auto; lia|].
    assert (Hwf' : vec_wf {| vec_data := Some (<[Z.to_nat (vec_length v) := Some x]> slots);
                             vec_length := vec_length v + 1;
                             vec_capacity := vec_capacity v |}).
    { unfold vec_wf. simpl. rewrite length_insert. lia. }
    split; [exact Hwf'|]. split; [|split; reflexivity].
    apply vec_elems_spec; [exact Hwf'|]. simpl.
    replace (Z.to_nat (vec_length v + 1)) with (S (Z.to_nat (vec_length v))) by lia.
    rewrite (take_S_r _ _ (Some x)) by (apply list_lookup_insert_eq; lia).
    rewrite take_insert_ge by lia. rewrite He, map_app. reflexivity.
  - assert (Hfull : vec_length v = vec_capacity v) by lia.
    eexists. split; [apply VecPush_full; auto|].
    set (slots := default [] (vec_data v)
                  ++ replicate (Z.to_nat (grown (vec_capacity v))
                                - length (default [] (vec_data v))) None).
    assert (Hslots : length slots = Z.to_nat (grown (vec_capacity v))).
    { unfold slots. rewrite length_app, length_replicate. lia. }
    assert (Hwf' : vec_wf {| vec_data := Some (<[Z.to_nat (vec_length v) := Some x]> slots);
                             vec_length := vec_length v + 1;
                             vec_capacity := grown (vec_capacity v) |}).
    { unfold vec_wf. simpl. rewrite length_insert. lia. }
    split; [exact Hwf'|]. split; [|split; reflexivity].
    apply vec_elems_spec; [exact Hwf'|]. simpl.
    replace (Z.to_nat (vec_length v + 1)) with (S (Z.to_nat (vec_length v))) by lia.
    rewrite (take_S_r _ _ (Some x)) by (apply list_lookup_insert_eq; lia).
    rewrite take_insert_ge by lia. unfold slots.
    rewrite take_app_le by lia. rewrite He, map_app. reflexivity.
Qed.

(** A run of pushes that fits in the current capacity: no [Realloc]. *)
Lemma VecPushAll_room v (xs l : list T) :
  vec_wf v ->
  vec_elems v = Some l ->
  vec_capacity v <= INT32_MAX ->
  vec_length v + Z.of_nat (length xs) <= vec_capacity v ->
  exists v',
    VecPushAll elem_size v xs = Ok (v', [])
    /\ vec_wf v'
    /\ vec_elems v' = Some (l ++ xs)
    /\ vec_length v' = vec_length v + Z.of_nat (length xs)
    /\ vec_capacity v' = vec_capacity v.
Proof.
  revert v l. induction xs as [|x xs IH]; intros v l Hwf He Hc Hfit.
  - exists v. simpl. rewrite app_nil_r. repeat split; auto; try apply Hwf. lia.
  - simpl in Hfit.
    destruct (VecPush_spec v x l Hwf He Hc) as (v1 & Hp & Hwf1 & He1 & Hl1 & Hc1);
      [destruct Hwf; lia|].
    destruct (Z.ltb_spec (vec_length v) (vec_capacity v)); [|lia].
    destruct (IH v1 (l ++ [x]) Hwf1 He1) as (v2 & Hp2 & Hwf2 & He2 & Hl2 & Hc2);
      [lia|lia|].
    exists v2. simpl. rewrite Hp. simpl. rewrite Hp2. simpl.
    rewrite <- app_assoc in He2. repeat split; auto; try apply Hwf2; lia.
Qed.

Lemma VecPushAll_app v (xs ys : list T) :
  VecPushAll elem_size v (xs ++ ys)
  = '(v1, r1) ← VecPushAll elem_size v xs;
    '(v2, r2) ← VecPushAll elem_size v1 ys;
    Ok (v2, r1 ++ r2).
Proof.
  revert v. induction xs as [|x xs IH]; intros v; simpl.
  - destruct (VecPushAll elem_size v ys) as [[v2 r2]|e]; reflexivity.
  - destruct (VecPush elem_size v x) as [[v1 r1]|e]; simpl; [|reflexivity].
    rewrite IH.
    destruct (VecPushAll elem_size v1 xs) as [[v2 r2]|e]; simpl; [|reflexivity].
    destruct (VecPushAll elem_size v2 ys) as [[v3 r3]|e]; simpl; [|reflexivity].
    rewrite app_assoc. reflexivity.
Qed.

(** C7. A [VecPush] that returns has called [Realloc] exactly when
    [length == capacity] held before the call. A zero-initialised vector
    pushed 130 times ends with the 130 values, [length == 130] and
    [capacity == 256]; the [Realloc] requests of the run are the baseline
    buffer of 128 slots (at the first push) and a single growth, to 256
    slots. *)
Theorem VecPush_realloc_iff_full :
  (forall v x v' reallocs,
      VecPush elem_size v x = Ok (v', reallocs) ->
      (reallocs <> [] <-> vec_length v = vec_capacity v))
  /\ (forall xs : list T,
        length xs = 130%nat ->
        exists v',
          VecPushAll elem_size VecZero xs
          = Ok (v', [128 * elem_size; 256 * elem_size])
          /\ vec_elems v' = Some xs
          /\ vec_length v' = 130
          /\ vec_capacity v' = 256).
Proof.
  split.
  - intros v x v' reallocs. unfold VecPush.
    destruct (Z.leb_spec (vec_length v) (vec_capacity v)) as [Hle|]; [|discriminate].
    rewrite assert_true. simpl.
    destruct (Z.geb_spec (vec_length v) (vec_capacity v)) as [Hge|Hlt].
    + destruct (if vec_capacity v =? 0 then Ok 128 else i32 (vec_capacity v * 2))
        as [c|]; simpl; [|discriminate].
      destruct (Realloc _ _ _) as [d|]; simpl; [|discriminate].
      destruct (if _ && _ then _ else _) as [d'|]; simpl; [|discriminate].
      destruct (i32 _); simpl; [|discriminate].
      intros [= <- <-]. split; [lia|discriminate].
    + simpl. destruct (match vec_data v with Some _ => _ | None => _ end);
        simpl; [|discriminate].
      destruct (i32 _); simpl; [|discriminate].
      intros [= <- <-]. split; [congruence|lia].
  - intros xs Hxs.
    destruct xs as [|x1 xs]; [discriminate|].
    assert (Hsplit : xs = take 127 xs ++ drop 127 xs) by (symmetry; apply take_drop).
    assert (Hlt : length (take 127 xs) = 127%nat) by (rewrite length_take; simpl in Hxs; lia).
    assert (Hld : length (drop 127 xs) = 2%nat) by (rewrite length_drop; simpl in Hxs; lia).
    destruct (drop 127 xs) as [|x129 [|x130 [|]]]; try discriminate.
    rewrite Hsplit. set (mid := take 127 xs) in *. clearbody mid. clear Hsplit Hxs xs.
    destruct (VecPush_spec VecZero x1 [] VecZero_wf eq_refl)
      as (v1 & Hp1 & Hwf1 & He1 & Hl1 & Hc1); [vm_compute; discriminate..|].
    change (VecPush elem_size VecZero x1 = Ok (v1, [128 * elem_size])) in Hp1.
    change (vec_length v1 = 1) in Hl1. change (vec_capacity v1 = 128) in Hc1.
    destruct (VecPushAll_room v1 mid [x1] Hwf1 He1)
      as (v2 & Hp2 & Hwf2 & He2 & Hl2 & Hc2);
      [rewrite Hc1; vm_compute; discriminate | lia|].
    destruct (VecPush_spec v2 x129 _ Hwf2 He2)
      as (v3 & Hp3 & Hwf3 & He3 & Hl3 & Hc3);
      [rewrite Hc2, Hc1; vm_compute; discriminate..|].
    rewrite Hl2, Hc2, Hl1, Hc1, Hlt in Hp3, Hc3.
    change (VecPush elem_size v2 x129 = Ok (v3, [256 * elem_size])) in Hp3.
    change (vec_capacity v3 = 256) in Hc3.
    destruct (VecPush_spec v3 x130 _ Hwf3 He3)
      as (v4 & Hp4 & Hwf4 & He4 & Hl4 & Hc4);
      [rewrite Hc3; vm_compute; discriminate..|].
    rewrite Hl3, Hl2, Hl1, Hc3, Hlt in Hp4, Hc4.
    change (VecPush elem_size v3 x130 = Ok (v4, [])) in Hp4.
    change (vec_capacity v4 = 256) in Hc4.
    exists v4.
    change (x1 :: mid ++ [x129; x130]) with ([x1] ++ mid ++ [x129; x130]).
    rewrite VecPushAll_app. simpl. rewrite Hp1. simpl.
    rewrite VecPushAll_app. rewrite Hp2. simpl. rewrite Hp3. simpl. rewrite Hp4. simpl.
    split; [reflexivity|]. split; [|split; lia].
    rewrite He4. simpl. repeat rewrite <- app_assoc. reflexivity.
Qed.
End VectorFacts.

(** The statement at a vector of integers with 16-byte elements. *)
Lemma VecPush_realloc_iff_full_witness :
  (0 < 16 /\ 16 <= 2 ^ 32)
  /\ ([128 * 16] <> [] <-> vec_length (@VecZero Z) = vec_capacity (@VecZero Z))
  /\ exists v',
       VecPushAll 16 VecZero (seqZ 1 130) = Ok (v', [128 * 16; 256 * 16])
       /\ vec_elems v' = Some (seqZ 1 130)
       /\ vec_length v' = 130
       /\ vec_capacity v' = 256.
Proof.
  assert (H1 : 0 < 16) by lia. assert (H2 : 16 <= 2 ^ 32) by lia.
  destruct (@VecPush_realloc_iff_full Z 16 H1 H2) as [Hiff Hrun].
  split; [split; assumption|]. split.
  - eapply (Hiff VecZero 7). vm_compute. reflexivity.
  - apply Hrun. reflexivity.
Defined.

(** ** Memory *)

Lemma splice_length (b bs : list byte) (o : nat) :
  (o + length bs <= length b)%nat -> length (splice b o bs) = length b.
Proof.
  intros H. unfold splice.
  rewrite !length_app, length_take, length_drop. lia.
Qed.

Lemma splice_read_same (b bs : list byte) (o : nat) :
  (o <= length b)%nat -> take (length bs) (drop o (splice b o bs)) = bs.
Proof.
  intros H. unfold splice.
  rewrite drop_app_ge by (rewrite length_take; lia).
  rewrite length_take. replace (o - o `min` length b)%nat with 0%nat by lia.
  simpl. apply take_app_length.
Qed.

Lemma splice_read_before (b bs : list byte) (o o' n : nat) :
  (o <= length b)%nat -> (o' + n <= o)%nat ->
  take n (drop o' (splice b o bs)) = take n (drop o' b).
Proof.
  intros H1 H2. unfold splice.
  rewrite drop_app_le by (rewrite length_take; lia).
  rewrite take_app_le by (rewrite length_drop, length_take; lia).
  rewrite !take_drop_commute. rewrite take_take.
  replace ((o' + n) `min` o)%nat with (o' + n)%nat by lia. reflexivity.
Qed.

Lemma splice_read_after (b bs : list byte) (o o' n : nat) :
  (o + length bs <= length b)%nat -> (o + length bs <= o')%nat ->
  take n (drop o' (splice b o bs)) = take n (drop o' b).
Proof.
  intros H1 H2. unfold splice.
  rewrite drop_app_ge by (rewrite length_take; lia).
  rewrite drop_app_ge by (rewrite length_take; lia).
  rewrite drop_drop, length_take. f_equal. f_equal. lia.
Qed.

Lemma splice_same (b : list byte) (o n : nat) :
  splice b o (take n (drop o b)) = b.
Proof.
  unfold splice. rewrite length_take, length_drop.
  destruct (Nat.le_gt_cases n (length b - o)) as [Hle|Hgt].
  - replace (n `min` (length b - o))%nat with n by lia.
    rewrite <- drop_drop, (take_drop n (drop o b)). apply take_drop.
  - replace (n `min` (length b - o))%nat with (length b - o)%nat by lia.
    rewrite (take_ge (drop o b)) by (rewrite length_drop; lia).
    rewrite (drop_ge b (o + _)) by lia. rewrite app_nil_r. apply take_drop.
Qed.

Lemma block_size_Some (m : Mem) (blk : nat) (size : Z) :
  block_size m blk = Some size
  <-> exists b, blocks m !! blk = Some b /\ Z.of_nat (length b) = size.
Proof.
  unfold block_size. destruct (blocks m !! blk) as [b|]; simpl; split.
  - intros [= <-]. eauto.
  - intros (b' & [= <-] & <-). reflexivity.
  - discriminate.
  - intros (b' & [=] & _).
Qed.

Lemma in_block_true (b : list byte) (off n : Z) :
  in_block b off n = true <-> 0 <= off /\ 0 <= n /\ off + n <= Z.of_nat (length b).
Proof. unfold in_block. rewrite !andb_true_iff, !Z.leb_le. tauto. Qed.

(** A read succeeds exactly on a readable region ([n = 0] reads nothing). *)
Lemma load_Ok (m : Mem) (blk : nat) (off n : Z) (b : list byte) :
  blocks m !! blk = Some b ->
  0 <= off -> 0 <= n -> off + n <= Z.of_nat (length b) ->
  load m (Ptr blk off) n = Ok (take (Z.to_nat n) (drop (Z.to_nat off) b)).
Proof.
  intros Hb Ho Hn Hlen. unfold load.
  destruct (Z.eqb_spec n 0) as [->|Hne]; [reflexivity|].
  rewrite Hb. destruct (in_block b off n) eqn:Hin; [reflexivity|].
  assert (in_block b off n = true) by (apply in_block_true; lia). congruence.
Qed.

Lemma load_Ok_inv (m : Mem) (p : pointer) (n : Z) (bs : list byte) :
  load m p n = Ok bs -> n <> 0 ->
  exists blk off b, p = Ptr blk off /\ blocks m !! blk = Some b
    /\ 0 <= off /\ 0 < n /\ off + n <= Z.of_nat (length b)
    /\ bs = take (Z.to_nat n) (drop (Z.to_nat off) b).
Proof.
  unfold load. intros H Hn.
  destruct (Z.eqb_spec n 0); [lia|].
  destruct p as [|blk off]; [discriminate|].
  destruct (blocks m !! blk) as [b|] eqn:Hb; [|discriminate].
  destruct (in_block b off n) eqn:Hin; [|discriminate].
  apply in_block_true in Hin. injection H as <-.
  exists blk, off, b. repeat split; auto; lia.
Qed.

Lemma load_length (m : Mem) (p : pointer) (n : Z) (bs : list byte) :
  load m p n = Ok bs -> 0 <= n -> Z.of_nat (length bs) = n.
Proof.
  intros H Hn. destruct (Z.eq_dec n 0) as [->|Hne].
  - injection H as <-. reflexivity.
  - apply load_Ok_inv in H as (blk & off & b & -> & Hb & Ho & Hn' & Hlen & ->); [|exact Hne].
    rewrite length_take, length_drop. lia.
Qed.

Lemma readable_load (m : Mem) (p : pointer) (n : Z) :
  readable m p n -> exists bs, load m p n = Ok bs.
Proof.
  destruct p as [|blk off]; [intros []|].
  intros (size & Hs & Ho & Hn & Hlen).
  apply block_size_Some in Hs as (b & Hb & <-).
  eexists. apply (load_Ok m blk off n b); auto.
Qed.

(** Reading [n1 + n2] bytes is reading [n1] bytes and then [n2] bytes. *)
Lemma load_app (m : Mem) (blk : nat) (off n1 n2 : Z) (xs ys : list byte) :
  0 <= n1 -> 0 <= n2 ->
  load m (Ptr blk off) n1 = Ok xs ->
  load m (Ptr blk (off + n1)) n2 = Ok ys ->
  load m (Ptr blk off) (n1 + n2) = Ok (xs ++ ys).
Proof.
  intros H1 H2 Hx Hy.
  destruct (Z.eq_dec n2 0) as [->|Hn2].
  { injection Hy as <-. rewrite Z.add_0_r, app_nil_r. exact Hx. }
  apply load_Ok_inv in Hy as (blk' & off' & b & [= <- <-] & Hb & Ho & Hn' & Hlen & ->);
    [|exact Hn2].
  destruct (Z.eq_dec n1 0) as [->|Hn1].
  { injection Hx as <-. rewrite Z.add_0_r, Z.add_0_l. simpl.
    apply (load_Ok m blk off n2 b); auto; lia. }
  apply load_Ok_inv in Hx as (blk' & off' & b' & [= <- <-] & Hb' & Ho' & Hn'' & Hlen' & ->);
    [|exact Hn1].
  rewrite Hb in Hb'. injection Hb' as <-.
  rewrite (load_Ok m blk off (n1 + n2) b) by (auto; lia). f_equal.
  replace (Z.to_nat (n1 + n2)) with (Z.to_nat n1 + Z.to_nat n2)%nat by lia.
  replace (Z.to_nat (off + n1)) with (Z.to_nat off + Z.to_nat n1)%nat by lia.
  rewrite <- drop_drop.
  rewrite <- (take_drop (Z.to_nat n1) (drop (Z.to_nat off) b)) at 1.
  rewrite take_app_ge by (rewrite length_take, length_drop; lia).
  rewrite length_take, length_drop. f_equal. f_equal. lia.
Qed.

Lemma store_Ok (m : Mem) (blk : nat) (off : Z) (bs b : list byte) :
  blocks m !! blk = Some b ->
  0 <= off -> off + Z.of_nat (length bs) <= Z.of_nat (length b) ->
  store m (Ptr blk off) bs
  = Ok {| blocks := <[blk := splice b (Z.to_nat off) bs]> (blocks m);
          garbage := garbage m |}.
Proof.
  intros Hb Ho Hlen. unfold store. destruct bs as [|x bs].
  - unfold splice. simpl. rewrite Nat.add_0_r, take_drop.
    rewrite list_insert_id by exact Hb. destruct m; reflexivity.
  - rewrite Hb. destruct (in_block b off _) eqn:Hin; [reflexivity|].
    assert (in_block b off (Z.of_nat (length (x :: bs))) = true)
      by (apply in_block_true; lia).
    congruence.
Qed.

Lemma store_Ok_inv (m m' : Mem) (p : pointer) (bs : list byte) :
  store m p bs = Ok m' -> bs <> [] ->
  exists blk off b, p = Ptr blk off /\ blocks m !! blk = Some b
    /\ 0 <= off /\ off + Z.of_nat (length bs) <= Z.of_nat (length b)
    /\ m' = {| blocks := <[blk := splice b (Z.to_nat off) bs]> (blocks m);
               garbage := garbage m |}.
Proof.
  unfold store. intros H Hne. destruct bs as [|x bs]; [congruence|].
  destruct p as [|blk off]; [discriminate|].
  destruct (blocks m !! blk) as [b|] eqn:Hb; [|discriminate].
  destruct (in_block b off _) eqn:Hin; [|discriminate].
  apply in_block_true in Hin. injection H as <-.
  exists blk, off, b. repeat split; auto; lia.
Qed.

(** A write changes no block size. *)
Lemma store_block_size (m m' : Mem) (p : pointer) (bs : list byte) (blk : nat) :
  store m p bs = Ok m' -> block_size m' blk = block_size m blk.
Proof.
  intros H. destruct bs as [|x bs]; [injection H as <-; reflexivity|].
  apply store_Ok_inv in H as (blk' & off & b & -> & Hb & Ho & Hlen & ->); [|discriminate].
  unfold block_size. simpl.
  destruct (decide (blk' = blk)) as [<-|Hne].
  - rewrite list_lookup_insert_eq by (eapply lookup_lt_Some; eauto).
    rewrite Hb. simpl. rewrite splice_length by lia. reflexivity.
  - rewrite list_lookup_insert_ne by exact Hne. reflexivity.
Qed.

Lemma readable_store (m : Mem) (blk : nat) (off : Z) (bs : list byte) :
  readable m (Ptr blk off) (Z.of_nat (length bs)) ->
  exists m', store m (Ptr blk off) bs = Ok m'.
Proof.
  intros (size & Hs & Ho & Hn & Hlen).
  apply block_size_Some in Hs as (b & Hb & <-).
  eexists. apply (store_Ok m blk off bs b); auto.
Qed.

(** The bytes written are the bytes read back. *)
Lemma load_store_same (m m' : Mem) (p : pointer) (bs : list byte) :
  store m p bs = Ok m' -> load m' p (Z.of_nat (length bs)) = Ok bs.
Proof.
  intros H. destruct bs as [|x bs]; [reflexivity|].
  apply store_Ok_inv in H as (blk & off & b & -> & Hb & Ho & Hlen & ->); [|discriminate].
  rewrite (load_Ok _ blk off _ (splice b (Z.to_nat off) (x :: bs))).
  - rewrite Nat2Z.id, splice_read_same by lia. reflexivity.
  - simpl. apply list_lookup_insert_eq. eapply lookup_lt_Some; eauto.
  - exact Ho.
  - lia.
  - rewrite splice_length by lia. exact Hlen.
Qed.

(** A write leaves every region it does not overlap as it was. *)
Lemma load_store_other (m m' : Mem) (blk blk' : nat) (off off' n : Z)
    (bs : list byte) :
  store m (Ptr blk off) bs = Ok m' ->
  blk' <> blk \/ off' + n <= off \/ off + Z.of_nat (length bs) <= off' ->
  load m' (Ptr blk' off') n = load m (Ptr blk' off') n.
Proof.
  intros H Hdisj. destruct bs as [|x bs]; [injection H as <-; reflexivity|].
  apply store_Ok_inv in H as (blk0 & off0 & b & [= <- <-] & Hb & Ho & Hlen & ->);
    [|discriminate].
  unfold load. destruct (Z.eqb_spec n 0); [reflexivity|]. simpl.
  destruct (decide (blk' = blk)) as [->|Hne].
  - rewrite list_lookup_insert_eq by (eapply lookup_lt_Some; eauto). rewrite Hb.
    unfold in_block. rewrite splice_length by lia.
    destruct ((0 <=? off') && (0 <=? n) && (off' + n <=? Z.of_nat (length b))) eqn:Hin;
      [|reflexivity].
    rewrite !andb_true_iff, !Z.leb_le in Hin. f_equal.
    destruct Hdisj as [Hd|[Hd|Hd]]; [congruence| |].
    + apply splice_read_before; lia.
    + apply splice_read_after; lia.
  - rewrite list_lookup_insert_ne by congruence. reflexivity.
Qed.

(** Writing back what is there changes nothing. *)
Lemma store_same_id (m : Mem) (p : pointer) (n : Z) (bs : list byte) :
  load m p n = Ok bs -> store m p bs = Ok m.
Proof.
  intros H. destruct (Z.eq_dec n 0) as [->|Hn]; [injection H as <-; reflexivity|].
  apply load_Ok_inv in H as (blk & off & b & -> & Hb & Ho & Hn' & Hlen & ->); [|exact Hn].
  rewrite (store_Ok m blk off _ b); auto.
  - rewrite splice_same, list_insert_id by exact Hb. destruct m; reflexivity.
  - rewrite length_take, length_drop. lia.
Qed.

Lemma readable_block_size (m m' : Mem) (p : pointer) (n : Z) :
  (forall blk, block_size m' blk = block_size m blk) ->
  readable m p n -> readable m' p n.
Proof.
  intros Hbs. destruct p as [|blk off]; [auto|].
  intros (size & Hs & H). exists size. rewrite Hbs. auto.
Qed.

Lemma arena_wf_block_size (m m' : Mem) (arena : Arena) :
  (forall blk, block_size m' blk = block_size m blk) ->
  arena_wf m arena -> arena_wf m' arena.
Proof.
  intros Hbs (Hc & Hch & Hinj & Ho & Hcs).
  split; [exact Hc|]. split; [|auto].
  intros i ch Hi. rewrite Hbs. eauto.
Qed.

Lemma live_block_size (m m' : Mem) (arena : Arena) (p : pointer) (n : Z) :
  (forall blk, block_size m' blk = block_size m blk) ->
  live m arena p n -> live m' arena p n.
Proof.
  intros Hbs [Hr Hl]. split; [|exact Hl].
  eapply readable_block_size; eauto.
Qed.

Lemma memset_Ok (m : Mem) (p : pointer) (c : byte) (n : Z) :
  readable m p n ->
  exists m', memset m p c n = Ok m'
    /\ load m' p n = Ok (replicate (Z.to_nat n) c)
    /\ (forall blk, block_size m' blk = block_size m blk).
Proof.
  intros Hr. unfold memset. destruct p as [|blk off]; [destruct Hr|].
  pose proof Hr as (size & Hs & Ho & Hn & Hlen).
  destruct (readable_store m blk off (replicate (Z.to_nat n) c)) as [m' Hm'].
  { rewrite length_replicate, Z2Nat.id by lia. exact Hr. }
  exists m'. split; [exact Hm'|]. split.
  - apply load_store_same in Hm'.
    rewrite length_replicate, Z2Nat.id in Hm' by lia. exact Hm'.
  - intros blk'. eapply store_block_size; eauto.
Qed.

Lemma Malloc_Ok (m : Mem) (size : Z) :
  0 < size ->
  Malloc m size
  = Ok ({| blocks := blocks m ++ [replicate (Z.to_nat size) (garbage m)];
           garbage := garbage m |}, length (blocks m)).
Proof.
  intros H. unfold Malloc. destruct (Z.ltb_spec 0 size); [reflexivity|lia].
Qed.

(** After [Malloc] the old blocks are as they were and the new one has the
    size asked for. *)
Lemma block_size_Malloc (m : Mem) (size : Z) (blk : nat) :
  0 < size ->
  block_size {| blocks := blocks m ++ [replicate (Z.to_nat size) (garbage m)];
                garbage := garbage m |} blk
  = if decide (blk = length (blocks m)) then Some size else block_size m blk.
Proof.
  intros H. unfold block_size. simpl. destruct (decide _) as [->|Hne].
  - rewrite list_lookup_middle by reflexivity. simpl.
    rewrite length_replicate. f_equal. lia.
  - destruct (Nat.lt_ge_cases blk (length (blocks m))) as [Hlt|Hge].
    + rewrite lookup_app_l by exact Hlt. reflexivity.
    + rewrite !(proj2 (lookup_ge_None _ _)); [reflexivity|lia|].
      rewrite length_app. simpl. lia.
Qed.

Lemma block_size_lt (m : Mem) (blk : nat) (size : Z) :
  block_size m blk = Some size -> (blk < length (blocks m))%nat.
Proof.
  intros H. apply block_size_Some in H as (b & Hb & _).
  eapply lookup_lt_Some; eauto.
Qed.

Lemma load_Malloc (m : Mem) (size : Z) (blk : nat) (off n : Z) :
  (blk < length (blocks m))%nat ->
  load {| blocks := blocks m ++ [replicate (Z.to_nat size) (garbage m)];
          garbage := garbage m |} (Ptr blk off) n
  = load m (Ptr blk off) n.
Proof.
  intros H. unfold load. simpl. rewrite lookup_app_l by exact H. reflexivity.
Qed.

(** ** The arena *)

Lemma next_fit_Some (cs : list ArenaChunk) (i j : nat) (bytes : Z) :
  next_fit cs i bytes = Some j ->
  (i <= j)%nat /\ exists ch, cs !! (j - i)%nat = Some ch /\ cap ch > bytes.
Proof.
  revert i. induction cs as [|ch cs IH]; intros i; simpl; [discriminate|].
  destruct (Z.gtb_spec (cap ch) bytes) as [Hgt|Hle].
  - intros [= <-]. split; [lia|]. exists ch. rewrite Nat.sub_diag. split; [reflexivity|lia].
  - intros H. apply IH in H as (Hij & ch' & Hch' & Hcap). split; [lia|].
    exists ch'. split; [|exact Hcap].
    replace (j - i)%nat with (S (j - S i)) by lia. exact Hch'.
Qed.

Lemma current_chunk_at (arena : Arena) (c : nat) (off : Z) (ch : ArenaChunk) :
  chunks arena !! c = Some ch -> current_chunk (arena_at arena c off) = Ok ch.
Proof. intros H. unfold current_chunk. simpl. rewrite H. reflexivity. Qed.

Lemma current_chunk_grown (arena : Arena) (blk : nat) (bytes off : Z) :
  current_chunk (arena_grown arena blk bytes off) = Ok {| base := blk; cap := bytes |}.
Proof.
  unfold current_chunk. simpl. rewrite list_lookup_middle by reflexivity. reflexivity.
Qed.

(** [ArenaAllocChars] with the alignment arithmetic carried out: with
    [al = 1] the tail is 0 and the allocation starts at [offset]. *)
Lemma ArenaAllocChars_unfold (m : Mem) (arena : Arena) (size : Z) (c : nat)
    (ch : ArenaChunk) :
  current arena = Some c -> chunks arena !! c = Some ch ->
  0 <= offset arena -> 0 <= size -> offset arena + size < 2 ^ 63 ->
  ArenaAllocChars m arena size
  = ('(m, arena, result) ←
       (if offset arena + size >? cap ch then
          '(m, arena) ← __ArenaNextChunk m (arena_at arena c (offset arena + size))
                           (if size >? chunkSize arena then size else chunkSize arena);
          ch ← current_chunk arena;
          Ok (m, arena, buffer ch)
        else Ok (m, arena_at arena c (offset arena + size),
                 ptr_add (buffer ch) (offset arena)));
     m ← (if size =? 0 then Ok m else memset m result "000"%byte size);
     Ok (m, arena, result)).
Proof.
  intros Hc Hch Ho Hs Hsum. unfold ArenaAllocChars, ArenaAllocAligned.
  change (size_t (1 - 1)) with 0. rewrite Z.land_0_r.
  change (intptr_t 0) with 0. simpl (negb (0 =? 0)). cbv iota.
  rewrite intptr_t_small by lia. rewrite size_t_small by lia.
  destruct arena as [cs cur off rt csz]. simpl in Hc, Hch, Ho, Hsum. subst cur.
  cbn [chunks current offset chunkSize root].
  assert (E : current_chunk {| chunks := cs; current := Some c; offset := off + size;
                               root := rt; chunkSize := csz |} = Ok ch)
    by (unfold current_chunk; simpl; rewrite Hch; reflexivity).
  rewrite E. reflexivity.
Qed.

Lemma arena_wf_at (m : Mem) (arena : Arena) (c : nat) (off : Z) :
  arena_wf m arena -> (c < length (chunks arena))%nat -> 0 <= off ->
  arena_wf m (arena_at arena c off).
Proof.
  intros (Hc & Hch & Hinj & Ho & Hcs) Hlt Hoff.
  split; [exists c; auto|]. split; [exact Hch|]. split; [exact Hinj|]. auto.
Qed.

Lemma arena_wf_grown (m : Mem) (arena : Arena) (bytes off : Z) :
  arena_wf m arena -> 0 <= bytes < 2 ^ 62 -> 0 <= off ->
  arena_wf (mem_grown m (sizeof_ArenaChunk + bytes))
    (arena_grown arena (length (blocks m)) bytes off).
Proof.
  intros (Hc & Hch & Hinj & Ho & Hcs) Hb Hoff.
  assert (Hsz : 0 < sizeof_ArenaChunk + bytes) by (unfold sizeof_ArenaChunk; lia).
  assert (Hold : forall i ch, chunks arena !! i = Some ch ->
                   (base ch < length (blocks m))%nat).
  { intros i ch Hi. apply Hch in Hi as [Hi _]. eapply block_size_lt; eauto. }
  split; [|split; [|split; [|auto]]].
  - exists (length (chunks arena)). simpl. rewrite length_app. simpl. split; [reflexivity|lia].
  - intros i ch. simpl. unfold mem_grown. rewrite block_size_Malloc by exact Hsz.
    intros Hi. apply lookup_app_Some in Hi as [Hi|[Hlen Hi]].
    + pose proof (Hold _ _ Hi). destruct (decide _); [lia|]. eauto.
    + destruct (i - length (chunks arena))%nat; simpl in Hi; [|discriminate].
      injection Hi as <-. simpl. destruct (decide _); [|congruence]. auto.
  - intros i j ci cj. simpl. intros Hi Hj Heq.
    apply lookup_app_Some in Hi as [Hi|[Hleni Hi]];
      apply lookup_app_Some in Hj as [Hj|[Hlenj Hj]].
    + eauto.
    + destruct (j - length (chunks arena))%nat; simpl in Hj; [|discriminate].
      injection Hj as <-. simpl in Heq. apply Hold in Hi. lia.
    + destruct (i - length (chunks arena))%nat; simpl in Hi; [|discriminate].
      injection Hi as <-. simpl in Heq. apply Hold in Hj. lia.
    + destruct (i - length (chunks arena))%nat eqn:Ei; simpl in Hi; [|discriminate].
      destruct (j - length (chunks arena))%nat eqn:Ej; simpl in Hj; [|discriminate].
      lia.
Qed.

Lemma NextChunk_reuse (m : Mem) (arena : Arena) (c j : nat) (bytes : Z) :
  current arena = Some c ->
  next_fit (drop (S c) (chunks arena)) (S c) bytes = Some j ->
  __ArenaNextChunk m arena bytes = Ok (m, arena_at arena j (offset arena)).
Proof. intros Hc Hfit. unfold __ArenaNextChunk. rewrite Hc, Hfit. reflexivity. Qed.

Lemma NextChunk_new (m : Mem) (arena : Arena) (c : nat) (bytes : Z) :
  current arena = Some c ->
  next_fit (drop (S c) (chunks arena)) (S c) bytes = None ->
  0 <= bytes < 2 ^ 62 ->
  __ArenaNextChunk m arena bytes
  = Ok (mem_grown m (sizeof_ArenaChunk + bytes),
        arena_grown arena (length (blocks m)) bytes (offset arena)).
Proof.
  intros Hc Hfit Hb. unfold __ArenaNextChunk. rewrite Hc, Hfit.
  rewrite size_t_small by (unfold sizeof_ArenaChunk; lia).
  rewrite Malloc_Ok by (unfold sizeof_ArenaChunk; lia). reflexivity.
Qed.

Section AllocChars.
Variables (m : Mem) (arena : Arena) (size : Z) (c : nat) (ch : ArenaChunk).
Hypothesis Hwf : arena_wf m arena.
Hypothesis Hc : current arena = Some c.
Hypothesis Hch : chunks arena !! c = Some ch.
Hypothesis Hsize : 0 < size < 2 ^ 62.
Hypothesis Hsum : offset arena + size < 2 ^ 63.

Let bytes : Z := if size >? chunkSize arena then size else chunkSize arena.

(** The request fits in the current chunk: it is served at [offset]. *)
Lemma ArenaAllocChars_fits :
  offset arena + size <= cap ch ->
  exists m',
    memset m (Ptr (base ch) (sizeof_ArenaChunk + offset arena)) "000"%byte size = Ok m'
    /\ ArenaAllocChars m arena size
       = Ok (m', arena_at arena c (offset arena + size),
             Ptr (base ch) (sizeof_ArenaChunk + offset arena)).
Proof.
  intros Hfit. destruct Hwf as (_ & Hchunks & _ & Ho & _).
  destruct (Hchunks c ch Hch) as [Hbs Hcap].
  destruct (memset_Ok m (Ptr (base ch) (sizeof_ArenaChunk + offset arena)) "000"%byte size)
    as (m' & Hm' & _).
  { exists (sizeof_ArenaChunk + cap ch). unfold sizeof_ArenaChunk in *. repeat split; auto; lia. }
  exists m'. split; [exact Hm'|].
  rewrite (ArenaAllocChars_unfold m arena size c ch) by (auto; lia).
  destruct (Z.gtb_spec (offset arena + size) (cap ch)); [lia|].
  mstep. destruct (Z.eqb_spec size 0); [lia|].
  unfold buffer, ptr_add. rewrite Hm'. reflexivity.
Qed.

(** The request does not fit and a chunk linked after the current one is
    large enough: it is served at the start of that chunk. *)
Lemma ArenaAllocChars_reuse (j : nat) (chj : ArenaChunk) :
  cap ch < offset arena + size ->
  next_fit (drop (S c) (chunks arena)) (S c) bytes = Some j ->
  chunks arena !! j = Some chj ->
  exists m',
    memset m (Ptr (base chj) sizeof_ArenaChunk) "000"%byte size = Ok m'
    /\ ArenaAllocChars m arena size
       = Ok (m', arena_at arena j (offset arena + size),
             Ptr (base chj) sizeof_ArenaChunk).
Proof.
  intros Hover Hfit Hj. destruct Hwf as (_ & Hchunks & _ & Ho & Hcs).
  destruct (Hchunks j chj Hj) as [Hbs Hcap].
  pose proof (next_fit_Some _ _ _ _ Hfit) as (Hle & ch' & Hch' & Hcap').
  rewrite lookup_drop in Hch'.
  replace (S c + (j - S c))%nat with j in Hch' by lia.
  rewrite Hj in Hch'. injection Hch' as <-.
  assert (Hbytes : size <= bytes).
  { unfold bytes. destruct (Z.gtb_spec size (chunkSize arena)); lia. }
  destruct (memset_Ok m (Ptr (base chj) sizeof_ArenaChunk) "000"%byte size)
    as (m' & Hm' & _).
  { exists (sizeof_ArenaChunk + cap chj). unfold sizeof_ArenaChunk in *. repeat split; auto; lia. }
  exists m'. split; [exact Hm'|].
  rewrite (ArenaAllocChars_unfold m arena size c ch) by (auto; lia).
  destruct (Z.gtb_spec (offset arena + size) (cap ch)); [|lia].
  fold bytes.
  rewrite (NextChunk_reuse m (arena_at arena c (offset arena + size)) c j bytes)
    by (simpl; auto).
  mstep.
  change (current_chunk _) with (current_chunk (arena_at arena j (offset arena + size))).
  rewrite (current_chunk_at arena j (offset arena + size) chj Hj). do 2 mstep.
  destruct (Z.eqb_spec size 0); [lia|].
  unfold buffer. rewrite Hm'. reflexivity.
Qed.

(** The request does not fit and no linked chunk is large enough: one new
    chunk of [max(size, chunkSize)] bytes is linked at the tail and the
    request is served at its start. *)
Lemma ArenaAllocChars_new_chunk :
  cap ch < offset arena + size ->
  next_fit (drop (S c) (chunks arena)) (S c) bytes = None ->
  exists m',
    memset (mem_grown m (sizeof_ArenaChunk + bytes))
      (Ptr (length (blocks m)) sizeof_ArenaChunk) "000"%byte size = Ok m'
    /\ ArenaAllocChars m arena size
       = Ok (m', arena_grown arena (length (blocks m)) bytes (offset arena + size),
             Ptr (length (blocks m)) sizeof_ArenaChunk).
Proof.
  intros Hover Hfit. destruct Hwf as (_ & Hchunks & _ & Ho & Hcs).
  assert (Hbytes : size <= bytes < 2 ^ 62).
  { unfold bytes. destruct (Z.gtb_spec size (chunkSize arena)); lia. }
  destruct (memset_Ok (mem_grown m (sizeof_ArenaChunk + bytes))
              (Ptr (length (blocks m)) sizeof_ArenaChunk) "000"%byte size)
    as (m' & Hm' & _).
  { exists (sizeof_ArenaChunk + bytes). unfold mem_grown.
    rewrite block_size_Malloc by (unfold sizeof_ArenaChunk; lia).
    destruct (decide _); [|congruence].
    unfold sizeof_ArenaChunk in *. repeat split; auto; lia. }
  exists m'. split; [exact Hm'|].
  rewrite (ArenaAllocChars_unfold m arena size c ch) by (auto; lia).
  destruct (Z.gtb_spec (offset arena + size) (cap ch)); [|lia].
  fold bytes.
  rewrite (NextChunk_new m (arena_at arena c (offset arena + size)) c bytes)
    by (simpl; auto; lia).
  mstep.
  change (current_chunk _) with
    (current_chunk (arena_grown arena (length (blocks m)) bytes (offset arena + size))).
  rewrite current_chunk_grown. do 2 mstep.
  destruct (Z.eqb_spec size 0); [lia|].
  unfold buffer. cbn [base]. rewrite Hm'. reflexivity.
Qed.
End AllocChars.

Lemma memset_inv (m m' : Mem) (blk : nat) (off n : Z) (c : byte) :
  memset m (Ptr blk off) c n = Ok m' -> 0 <= n ->
  (forall blk', block_size m' blk' = block_size m blk')
  /\ load m' (Ptr blk off) n = Ok (replicate (Z.to_nat n) c)
  /\ (forall blk' off' k, disjoint blk' off' k blk off n ->
        load m' (Ptr blk' off') k = load m (Ptr blk' off') k).
Proof.
  unfold memset. intros H Hn. split; [|split].
  - intros blk'. eapply store_block_size; eauto.
  - apply load_store_same in H. rewrite length_replicate, Z2Nat.id in H by lia. exact H.
  - intros blk' off' k Hd. eapply load_store_other; [exact H|].
    rewrite length_replicate, Z2Nat.id by lia. unfold disjoint in Hd. tauto.
Qed.

Section AllocPost.
Variables (m : Mem) (arena : Arena) (size : Z) (c : nat) (ch : ArenaChunk).
Hypothesis Hwf : arena_wf m arena.
Hypothesis Hc : current arena = Some c.
Hypothesis Hch : chunks arena !! c = Some ch.
Hypothesis Hsize : 0 < size < 2 ^ 62.

Let bytes : Z := if size >? chunkSize arena then size else chunkSize arena.

Lemma alloc_post_fits (m' : Mem) :
  offset arena + size <= cap ch ->
  memset m (Ptr (base ch) (sizeof_ArenaChunk + offset arena)) "000"%byte size = Ok m' ->
  alloc_post m arena size m' (arena_at arena c (offset arena + size))
    (base ch) (sizeof_ArenaChunk + offset arena).
Proof.
  intros Hfit Hm'. pose proof Hwf as (_ & Hchunks & Hinj & Ho & Hcs).
  destruct (Hchunks c ch Hch) as [Hbs Hcap].
  apply memset_inv in Hm' as (Hsame & Hzero & Hother); [|lia].
  assert (Hlt : (c < length (chunks arena))%nat) by (eapply lookup_lt_Some; eauto).
  split; [|split; [reflexivity|split; [reflexivity|split; [|split; [exact Hzero|]]]]].
  - eapply arena_wf_block_size; [exact Hsame|]. apply arena_wf_at; auto; lia.
  - split.
    + exists (sizeof_ArenaChunk + cap ch). rewrite Hsame.
      unfold sizeof_ArenaChunk in *. repeat split; auto; lia.
    + intros i chi Hi Hbase. exists c. split; [reflexivity|].
      right. split; [eapply Hinj; eauto|]. simpl. lia.
  - intros blk' off' n [Hr Hl].
    assert (Hd : disjoint blk' off' n (base ch) (sizeof_ArenaChunk + offset arena) size).
    { destruct (decide (blk' = base ch)) as [->|Hne]; [|left; exact Hne].
      destruct (Hl c ch Hch eq_refl) as (c' & Hc' & [Hlt'|[_ Hle]]).
      - rewrite Hc in Hc'. injection Hc' as <-. lia.
      - right. left. exact Hle. }
    split; [|split; [apply Hother; exact Hd|exact Hd]].
    split; [eapply readable_block_size; eauto|].
    intros i chi Hi Hbase. destruct (Hl i chi Hi Hbase) as (c' & Hc' & Hcase).
    rewrite Hc in Hc'. injection Hc' as <-.
    exists c. split; [reflexivity|]. simpl. destruct Hcase as [?|[? ?]]; [left|right]; lia.
Qed.

Lemma alloc_post_reuse (m' : Mem) (j : nat) (chj : ArenaChunk) :
  (c < j)%nat ->
  chunks arena !! j = Some chj ->
  size <= cap chj ->
  memset m (Ptr (base chj) sizeof_ArenaChunk) "000"%byte size = Ok m' ->
  alloc_post m arena size m' (arena_at arena j (offset arena + size))
    (base chj) sizeof_ArenaChunk.
Proof.
  intros Hcj Hj Hfit Hm'. pose proof Hwf as (_ & Hchunks & Hinj & Ho & Hcs).
  destruct (Hchunks j chj Hj) as [Hbs Hcap].
  apply memset_inv in Hm' as (Hsame & Hzero & Hother); [|lia].
  assert (Hlt : (j < length (chunks arena))%nat) by (eapply lookup_lt_Some; eauto).
  split; [|split; [reflexivity|split; [reflexivity|split; [|split; [exact Hzero|]]]]].
  - eapply arena_wf_block_size; [exact Hsame|]. apply arena_wf_at; auto; lia.
  - split.
    + exists (sizeof_ArenaChunk + cap chj). rewrite Hsame.
      unfold sizeof_ArenaChunk in *. repeat split; auto; lia.
    + intros i chi Hi Hbase. exists j. split; [reflexivity|].
      right. split; [eapply Hinj; eauto|]. simpl. lia.
  - intros blk' off' n [Hr Hl].
    assert (Hd : disjoint blk' off' n (base chj) sizeof_ArenaChunk size).
    { destruct (decide (blk' = base chj)) as [->|Hne]; [|left; exact Hne].
      destruct (Hl j chj Hj eq_refl) as (c' & Hc' & Hcase).
      rewrite Hc in Hc'. injection Hc' as <-. lia. }
    split; [|split; [apply Hother; exact Hd|exact Hd]].
    split; [eapply readable_block_size; eauto|].
    intros i chi Hi Hbase. destruct (Hl i chi Hi Hbase) as (c' & Hc' & Hcase).
    rewrite Hc in Hc'. injection Hc' as <-.
    exists j. split; [reflexivity|]. left. lia.
Qed.

Lemma alloc_post_new_chunk (m' : Mem) :
  memset (mem_grown m (sizeof_ArenaChunk + bytes))
    (Ptr (length (blocks m)) sizeof_ArenaChunk) "000"%byte size = Ok m' ->
  alloc_post m arena size m'
    (arena_grown arena (length (blocks m)) bytes (offset arena + size))
    (length (blocks m)) sizeof_ArenaChunk.
Proof.
  intros Hm'. pose proof Hwf as (_ & Hchunks & Hinj & Ho & Hcs).
  assert (Hbytes : size <= bytes < 2 ^ 62).
  { unfold bytes. destruct (Z.gtb_spec size (chunkSize arena)); lia. }
  assert (Hsz : 0 < sizeof_ArenaChunk + bytes) by (unfold sizeof_ArenaChunk; lia).
  apply memset_inv in Hm' as (Hsame & Hzero & Hother); [|lia].
  assert (Hold : forall i chi, chunks arena !! i = Some chi ->
                   (base chi < length (blocks m))%nat).
  { intros i chi Hi. apply Hchunks in Hi as [Hi _]. eapply block_size_lt; eauto. }
  assert (Hnew : block_size m' (length (blocks m)) = Some (sizeof_ArenaChunk + bytes)).
  { rewrite Hsame. unfold mem_grown. rewrite block_size_Malloc by exact Hsz.
    destruct (decide _); [reflexivity|congruence]. }
  assert (Hkeep : forall blk size', block_size m blk = Some size' ->
                    block_size m' blk = Some size').
  { intros blk size' Hb. rewrite Hsame. unfold mem_grown.
    rewrite block_size_Malloc by exact Hsz. apply block_size_lt in Hb as Hlt.
    destruct (decide _); [lia|exact Hb]. }
  split; [|split; [reflexivity|split; [reflexivity|split; [|split; [exact Hzero|]]]]].
  - eapply arena_wf_block_size; [exact Hsame|]. apply arena_wf_grown; auto; lia.
  - split.
    + exists (sizeof_ArenaChunk + bytes). unfold sizeof_ArenaChunk in *.
      repeat split; auto; lia.
    + intros i chi Hi Hbase. exists (length (chunks arena)). split; [reflexivity|].
      simpl in Hi. apply lookup_app_Some in Hi as [Hi|[Hlen Hi]].
      * apply Hold in Hi. lia.
      * right. destruct (i - length (chunks arena))%nat eqn:E; simpl in Hi; [|discriminate].
        simpl. split; lia.
  - intros blk' off' n [Hr Hl].
    assert (Hblk' : (blk' < length (blocks m))%nat).
    { destruct Hr as (sz & Hs & _). eapply block_size_lt; eauto. }
    assert (Hd : disjoint blk' off' n (length (blocks m)) sizeof_ArenaChunk size)
      by (left; lia).
    split; [|split; [|exact Hd]].
    + split.
      * destruct Hr as (sz & Hs & Hrest). exists sz. split; [auto|exact Hrest].
      * intros i chi Hi Hbase. exists (length (chunks arena)). split; [reflexivity|].
        simpl in Hi. apply lookup_app_Some in Hi as [Hi|[Hlen Hi]].
        -- left. eapply lookup_lt_Some; eauto.
        -- destruct (i - length (chunks arena))%nat; simpl in Hi; [|discriminate].
           injection Hi as <-. simpl in Hbase. lia.
    + rewrite (Hother _ _ _ Hd). apply load_Malloc. exact Hblk'.
Qed.

(** Every [ArenaAllocChars] call on a well-formed arena returns, and
    establishes [alloc_post]. *)
Lemma ArenaAllocChars_spec :
  offset arena + size < 2 ^ 63 ->
  exists m' arena' blk off,
    ArenaAllocChars m arena size = Ok (m', arena', Ptr blk off)
    /\ alloc_post m arena size m' arena' blk off.
Proof.
  intros Hsum.
  destruct (Z.le_gt_cases (offset arena + size) (cap ch)) as [Hfit|Hover].
  - destruct (ArenaAllocChars_fits m arena size c ch Hwf Hc Hch Hsize Hsum Hfit)
      as (m' & Hm' & Hcall).
    do 4 eexists. split; [exact Hcall|]. now apply alloc_post_fits.
  - destruct (next_fit (drop (S c) (chunks arena)) (S c) bytes) as [j|] eqn:Hnext.
    + pose proof (next_fit_Some _ _ _ _ Hnext) as (Hle & chj & Hj & Hcap).
      rewrite lookup_drop in Hj. replace (S c + (j - S c))%nat with j in Hj by lia.
      destruct (ArenaAllocChars_reuse m arena size c ch Hwf Hc Hch Hsize Hsum j chj
                  Hover Hnext Hj) as (m' & Hm' & Hcall).
      do 4 eexists. split; [exact Hcall|].
      assert (size <= cap chj)
        by (unfold bytes in Hcap; destruct (Z.gtb_spec size (chunkSize arena)); lia).
      apply alloc_post_reuse; auto; lia.
    + destruct (ArenaAllocChars_new_chunk m arena size c ch Hwf Hc Hch Hsize Hsum
                  Hover Hnext) as (m' & Hm' & Hcall).
      do 4 eexists. split; [exact Hcall|]. now apply alloc_post_new_chunk.
Qed.
End AllocPost.

Lemma ArenaAllocChars_ok (m : Mem) (arena : Arena) (size : Z) :
  arena_wf m arena -> 0 < size < 2 ^ 62 -> offset arena + size < 2 ^ 63 ->
  exists m' arena' blk off,
    ArenaAllocChars m arena size = Ok (m', arena', Ptr blk off)
    /\ alloc_post m arena size m' arena' blk off.
Proof.
  intros Hwf Hsize Hsum. pose proof Hwf as ((c & Hc & Hlt) & _).
  destruct (lookup_lt_is_Some_2 (chunks arena) c Hlt) as [ch Hch].
  eapply ArenaAllocChars_spec; eauto.
Qed.

(** [ArenaCreate] returns an arena with one chunk of [chunkSize] bytes, in a
    new block, and leaves the blocks that existed as they were. *)
Lemma ArenaCreate_ok (m : Mem) (size : Z) :
  0 < size < 2 ^ 62 ->
  exists m',
    ArenaCreate m size
    = Ok (m', {| chunks := [{| base := S (length (blocks m)); cap := size |}];
                 current := Some 0%nat; offset := 0; root := Some 0%nat;
                 chunkSize := size |})
    /\ arena_wf m' {| chunks := [{| base := S (length (blocks m)); cap := size |}];
                      current := Some 0%nat; offset := 0; root := Some 0%nat;
                      chunkSize := size |}
    /\ length (blocks m') = S (S (length (blocks m)))
    /\ (forall blk off n, (blk < length (blocks m))%nat ->
          load m' (Ptr blk off) n = load m (Ptr blk off) n)
    /\ (forall blk, (blk < length (blocks m))%nat ->
          block_size m' blk = block_size m blk).
Proof.
  intros Hsize. unfold ArenaCreate.
  rewrite Malloc_Ok by (unfold sizeof_Arena; lia). mstep.
  fold (mem_grown m sizeof_Arena).
  assert (Hctl : block_size (mem_grown m sizeof_Arena) (length (blocks m)) = Some sizeof_Arena).
  { unfold mem_grown. rewrite block_size_Malloc by (unfold sizeof_Arena; lia).
    destruct (decide _); [reflexivity|congruence]. }
  destruct (memset_Ok (mem_grown m sizeof_Arena) (Ptr (length (blocks m)) 0) "000"%byte
              sizeof_Arena) as (m1 & Hm1 & _ & Hsame).
  { exists sizeof_Arena. unfold sizeof_Arena in *. repeat split; auto; lia. }
  rewrite Hm1. mstep.
  assert (Hlen1 : length (blocks m1) = S (length (blocks m))).
  { destruct (Nat.lt_trichotomy (length (blocks m1)) (S (length (blocks m)))) as [H|[H|H]];
      [exfalso|exact H|exfalso].
    - assert (block_size m1 (length (blocks m)) = None) as E.
      { unfold block_size. rewrite (proj2 (lookup_ge_None _ _)); [reflexivity|lia]. }
      rewrite Hsame, Hctl in E. discriminate.
    - destruct (lookup_lt_is_Some_2 (blocks m1) (S (length (blocks m))) H) as [b Hb].
      assert (block_size m1 (S (length (blocks m))) = Some (Z.of_nat (length b))) as E
        by (unfold block_size; rewrite Hb; reflexivity).
      rewrite Hsame in E. apply block_size_lt in E. unfold mem_grown in E. simpl in E.
      rewrite length_app in E. simpl in E. lia. }
  unfold __ArenaNextChunk. cbn [current chunks length drop next_fit].
  rewrite size_t_small by (unfold sizeof_ArenaChunk; lia).
  rewrite Malloc_Ok by (unfold sizeof_ArenaChunk; lia). do 2 mstep.
  cbn [chunks current offset app length]. rewrite Hlen1.
  fold (mem_grown m1 (sizeof_ArenaChunk + size)).
  exists (mem_grown m1 (sizeof_ArenaChunk + size)).
  split; [reflexivity|]. split; [|split; [|split]].
  - split; [exists 0%nat; simpl; split; [reflexivity|lia]|].
    split; [|split; [|simpl; lia]].
    + intros [|i] ch Hi; simpl in Hi; [|discriminate]. injection Hi as <-. simpl.
      unfold mem_grown. rewrite block_size_Malloc by (unfold sizeof_ArenaChunk; lia).
      rewrite Hlen1. destruct (decide _); [|congruence]. split; [reflexivity|lia].
    + intros [|i] [|j] ci cj Hi Hj; simpl in Hi, Hj; try discriminate. reflexivity.
  - unfold mem_grown. simpl. rewrite length_app, Hlen1. simpl. lia.
  - intros blk off n Hblk. unfold mem_grown at 1. rewrite load_Malloc by lia.
    apply memset_inv in Hm1 as (_ & _ & Hother); [|unfold sizeof_Arena; lia].
    rewrite Hother by (left; lia). apply load_Malloc. exact Hblk.
  - intros blk Hblk. unfold mem_grown at 1.
    rewrite block_size_Malloc by (unfold sizeof_ArenaChunk; lia).
    destruct (decide _); [lia|]. rewrite Hsame. unfold mem_grown.
    rewrite block_size_Malloc by (unfold sizeof_Arena; lia).
    destruct (decide _); [lia|reflexivity].
Qed.

Lemma store_blocks_length (m m' : Mem) (p : pointer) (bs : list byte) :
  store m p bs = Ok m' -> length (blocks m') = length (blocks m).
Proof.
  intros H. destruct bs as [|x bs]; [injection H as <-; reflexivity|].
  apply store_Ok_inv in H as (blk' & off & b & -> & Hb & Ho & Hlen & ->); [|discriminate].
  simpl. apply length_insert.
Qed.

Lemma memset_blocks_length (m m' : Mem) (p : pointer) (c : byte) (n : Z) :
  memset m p c n = Ok m' -> length (blocks m') = length (blocks m).
Proof. apply store_blocks_length. Qed.

Lemma find_chunk_here (ch : ArenaChunk) (rest : list ArenaChunk) (i : nat) :
  find_chunk (ch :: rest) i (base ch) = Some i.
Proof. simpl. rewrite decide_True by reflexivity. reflexivity. Qed.

Lemma find_chunk_next (ch : ArenaChunk) (rest : list ArenaChunk) (i blk : nat) :
  base ch <> blk -> find_chunk (ch :: rest) i blk = find_chunk rest (S i) blk.
Proof. intros H. simpl. rewrite decide_False by exact H. reflexivity. Qed.

(** C5 (amended). On an arena created with chunk size 64, four consecutive
    [ArenaAllocChars(16)] calls are all served from the first chunk, at
    positions 0, 16, 32 and 48: the fourth fills the chunk exactly
    ([offset == cap == 64]) and creates no chunk. The fifth call is the
    one that creates a second chunk. *)
Theorem AllocChars_16_chunk_64 (m : Mem) :
  fresh_alloc_run m 64 [(16, 1); (16, 1); (16, 1); (16, 1); (16, 1)]
  = Ok [ {| served_by := Some 0%nat; position := 0; chunk_count := 1; offset_after := 16 |};
         {| served_by := Some 0%nat; position := 16; chunk_count := 1; offset_after := 32 |};
         {| served_by := Some 0%nat; position := 32; chunk_count := 1; offset_after := 48 |};
         {| served_by := Some 0%nat; position := 48; chunk_count := 1; offset_after := 64 |};
         {| served_by := Some 1%nat; position := 0; chunk_count := 2; offset_after := 80 |} ].
Proof.
  unfold fresh_alloc_run.
  destruct (ArenaCreate_ok m 64) as (m0 & Hcreate & Hwf0 & Hlen0 & _); [lia|].
  rewrite Hcreate. mstep.
  set (ch0 := {| base := S (length (blocks m)); cap := 64 |}) in *.
  set (a0 := {| chunks := [ch0]; current := Some 0%nat; offset := 0;
                root := Some 0%nat; chunkSize := 64 |}) in *.
  assert (Hfit : forall m1 off,
             arena_wf m1 (arena_at a0 0 off) -> off + 16 <= 64 ->
             exists m2, ArenaAllocAligned m1 (arena_at a0 0 off) 16 1
                        = Ok (m2, arena_at a0 0 (off + 16),
                              Ptr (base ch0) (sizeof_ArenaChunk + off))
                        /\ arena_wf m2 (arena_at a0 0 (off + 16))
                        /\ length (blocks m2) = length (blocks m1)).
  { intros m1 off Hwf1 Hoff.
    assert (Hpos : 0 <= off) by (destruct Hwf1 as (_ & _ & _ & Ho & _); exact Ho).
    destruct (ArenaAllocChars_fits m1 (arena_at a0 0 off) 16 0%nat ch0 Hwf1 eq_refl eq_refl)
      as (m2 & Hset & Hcall); [lia|simpl; lia|simpl; lia|].
    exists m2. split; [exact Hcall|]. split.
    - eapply (alloc_post_fits m1 (arena_at a0 0 off) 16 0%nat ch0); eauto; simpl; lia.
    - eapply memset_blocks_length; eauto. }
  change a0 with (arena_at a0 0 0) in Hwf0 |- *.
  destruct (Hfit m0 0 Hwf0) as (m1 & Hc1 & Hwf1 & Hlen1); [lia|].
  change (0 + 16) with 16 in *.
  destruct (Hfit m1 16 Hwf1) as (m2 & Hc2 & Hwf2 & Hlen2); [lia|].
  change (16 + 16) with 32 in *.
  destruct (Hfit m2 32 Hwf2) as (m3 & Hc3 & Hwf3 & Hlen3); [lia|].
  change (32 + 16) with 48 in *.
  destruct (Hfit m3 48 Hwf3) as (m4 & Hc4 & Hwf4 & Hlen4); [lia|].
  change (48 + 16) with 64 in *.
  destruct (ArenaAllocChars_new_chunk m4 (arena_at a0 0 64) 16 0%nat ch0 Hwf4 eq_refl eq_refl)
    as (m5 & Hset5 & Hc5); [lia|simpl; lia|simpl; lia|reflexivity|].
  unfold ArenaAllocChars in Hc5.
  cbn [alloc_run]. rewrite Hc1. mstep. rewrite Hc2. mstep. rewrite Hc3. mstep.
  rewrite Hc4. mstep. rewrite Hc5. mstep. do 5 mstep.
  assert (Hblocks : length (blocks m4) = S (S (length (blocks m)))) by lia.
  rewrite Hblocks. unfold observe.
  cbn [chunks arena_at arena_grown a0 app offset length].
  rewrite !find_chunk_here.
  rewrite find_chunk_next by (simpl; lia).
  change (S (S (length (blocks m)))) with (base {| base := S (S (length (blocks m))); cap := 64 |}) at 1.
  rewrite find_chunk_here.
  unfold sizeof_ArenaChunk. simpl. reflexivity.
Qed.

(** Reading a part of a region that was read. *)
Lemma load_sub (m : Mem) (blk : nat) (off n i k : Z) (xs : list byte) :
  load m (Ptr blk off) n = Ok xs ->
  0 <= i -> 0 <= k -> i + k <= n ->
  load m (Ptr blk (off + i)) k = Ok (take (Z.to_nat k) (drop (Z.to_nat i) xs)).
Proof.
  intros H Hi Hk Hik.
  destruct (Z.eq_dec k 0) as [->|Hk0]; [reflexivity|].
  apply load_Ok_inv in H as (blk' & off' & b & [= <- <-] & Hb & Ho & Hn & Hlen & ->); [|lia].
  rewrite (load_Ok m blk (off + i) k b) by (auto; lia). f_equal.
  rewrite skipn_firstn_comm, take_take, drop_drop.
  f_equal; [lia|f_equal; lia].
Qed.

Lemma load_prefix (m : Mem) (blk : nat) (off n k : Z) (xs : list byte) :
  load m (Ptr blk off) n = Ok xs -> 0 <= k <= n ->
  load m (Ptr blk off) k = Ok (take (Z.to_nat k) xs).
Proof.
  intros H Hk. pose proof (load_sub m blk off n 0 k xs H) as Hs.
  rewrite Z.add_0_r in Hs. apply Hs; lia.
Qed.

Lemma live_sub (m : Mem) (arena : Arena) (blk : nat) (off n i k : Z) :
  live m arena (Ptr blk off) n -> 0 <= i -> 0 <= k -> i + k <= n ->
  live m arena (Ptr blk (off + i)) k.
Proof.
  intros [(size & Hs & Ho & Hn & Hlen) Hl] Hi Hk Hik. split.
  - exists size. repeat split; auto; lia.
  - intros j ch Hj Hbase. destruct (Hl j ch Hj Hbase) as (c & Hc & Hcase).
    exists c. split; [exact Hc|]. destruct Hcase as [?|[? ?]]; [left; auto|right; split; lia].
Qed.

Lemma live_readable (m : Mem) (arena : Arena) (p : pointer) (n : Z) :
  live m arena p n -> readable m p n.
Proof. intros [H _]. exact H. Qed.

(** Writing inside a live region keeps every region live. *)
Lemma live_store (m m' : Mem) (arena : Arena) (p q : pointer) (bs : list byte) (n : Z) :
  store m p bs = Ok m' -> live m arena q n -> live m' arena q n.
Proof.
  intros H. apply live_block_size. intros blk. eapply store_block_size; eauto.
Qed.

Lemma arena_wf_store (m m' : Mem) (arena : Arena) (p : pointer) (bs : list byte) :
  store m p bs = Ok m' -> arena_wf m arena -> arena_wf m' arena.
Proof.
  intros H. apply arena_wf_block_size. intros blk. eapply store_block_size; eauto.
Qed.

(** ** Strings *)

(** [StrNewSize] on a source whose [len + 1] bytes are live: it returns a
    string of length [len] with the [len] source bytes followed by a
    terminator, in a fresh live region of [len + 1] bytes, and every live
    region keeps its content. *)
Lemma StrNewSize_spec (m : Mem) (arena : Arena) (blk : nat) (off len : Z)
    (bs : list byte) :
  arena_wf m arena ->
  0 <= len < 2 ^ 62 - 1 ->
  offset arena + len + 1 < 2 ^ 63 ->
  live m arena (Ptr blk off) (len + 1) ->
  load m (Ptr blk off) len = Ok bs ->
  exists m' arena' b o,
    StrNewSize m arena (Ptr blk off) len
    = Ok (m', arena', {| str_length := len; str_data := Ptr b o |})
    /\ arena_wf m' arena'
    /\ offset arena' = offset arena + (len + 1)
    /\ live m' arena' (Ptr b o) (len + 1)
    /\ load m' (Ptr b o) (len + 1) = Ok (bs ++ ["000"%byte])
    /\ (forall blk' off' n, live m arena (Ptr blk' off') n ->
          live m' arena' (Ptr blk' off') n
          /\ load m' (Ptr blk' off') n = load m (Ptr blk' off') n).
Proof.
  intros Hwf Hlen Hsum Hlive Hbs. unfold StrNewSize.
  replace (size_t (1 * len + 1)) with (len + 1) by (rewrite size_t_small; lia).
  destruct (ArenaAllocChars_ok m arena (len + 1) Hwf) as (m1 & arena1 & b & o & Hcall & Hpost);
    [lia|lia|].
  destruct Hpost as (Hwf1 & Hoff1 & _ & Hlive1 & Hzero1 & Hframe1).
  rewrite Hcall. mstep.
  destruct (Hframe1 blk off (len + 1) Hlive) as (Hsrc1 & Hload1 & Hdisj).
  destruct (readable_load m (Ptr blk off) (len + 1) (live_readable _ _ _ _ Hlive)) as [cs Hcs].
  assert (Hcslen : Z.of_nat (length cs) = len + 1) by (eapply load_length; eauto; lia).
  assert (Hpre : take (Z.to_nat len) cs = bs).
  { pose proof (load_prefix m blk off (len + 1) len cs Hcs ltac:(lia)) as Hp.
    rewrite Hbs in Hp. injection Hp as ->. reflexivity. }
  unfold memcpy. rewrite Hload1, Hcs. mstep.
  destruct (readable_store m1 b o cs) as [m2 Hm2].
  { rewrite Hcslen. apply (live_readable _ _ _ _ Hlive1). }
  rewrite Hm2. mstep. unfold addNullTerminator, ptr_add.
  destruct (readable_store m2 b (o + len) ["000"%byte]) as [m3 Hm3].
  { apply (live_readable m2 arena1). eapply live_store; [exact Hm2|].
    apply (live_sub m1 arena1 b o (len + 1) len 1 Hlive1); lia. }
  rewrite Hm3. mstep.
  exists m3, arena1, b, o. split; [reflexivity|].
  split; [eauto using arena_wf_store|]. split; [exact Hoff1|].
  split; [eauto using live_store|]. split.
  - apply (load_app m3 b o len 1 bs ["000"%byte]); [lia|lia| |].
    + rewrite (load_store_other m2 m3 b b (o + len) o len ["000"%byte] Hm3)
        by (right; left; lia).
      pose proof (load_store_same _ _ _ _ Hm2) as Hsame. rewrite Hcslen in Hsame.
      rewrite (load_prefix m2 b o (len + 1) len cs Hsame) by lia. rewrite Hpre. reflexivity.
    + apply (load_store_same _ _ _ _ Hm3).
  - intros blk' off' n Hl. destruct (Hframe1 blk' off' n Hl) as (Hl1 & Hld1 & Hd).
    split; [eauto using live_store|].
    rewrite <- Hld1. unfold disjoint in Hd.
    rewrite (load_store_other m2 m3 b blk' (o + len) off' n ["000"%byte] Hm3)
      by (simpl; destruct Hd as [?|[?|?]]; [left; congruence|right; left; lia|right; right; lia]).
    apply (load_store_other m1 m2 b blk' o off' n cs Hm2).
    rewrite Hcslen. destruct Hd as [?|[?|?]]; [left; congruence|right; left; lia|right; right; lia].
Qed.

(** C10. [StrEqual] returns [true] for any two strings whose lengths are
    both zero, whatever their [data] pointers are (no byte is compared). *)
Theorem StrEqual_zero_length (m : Mem) (string1 string2 : String) :
  str_length string1 = 0 -> str_length string2 = 0 ->
  StrEqual m string1 string2 = Ok true.
Proof.
  intros H1 H2. unfold StrEqual, memcmp. rewrite H1, H2. reflexivity.
Qed.

(** The "no value" string (null [data], length 0) and an empty string with
    a buffer are different values, and [StrEqual] finds them equal. *)
Lemma StrEqual_zero_length_witness :
  (str_length {| str_length := 0; str_data := NULL |} = 0
   /\ str_length {| str_length := 0; str_data := Ptr 0 0 |} = 0)
  /\ StrIsNull {| str_length := 0; str_data := NULL |} = true
  /\ StrIsNull {| str_length := 0; str_data := Ptr 0 0 |} = false
  /\ StrEqual (static_mem [literal ""])
       {| str_length := 0; str_data := NULL |}
       {| str_length := 0; str_data := Ptr 0 0 |} = Ok true.
Proof.
  split; [split; reflexivity|]. split; [reflexivity|]. split; [reflexivity|].
  apply (StrEqual_zero_length (static_mem [literal ""])
           {| str_length := 0; str_data := NULL |}
           {| str_length := 0; str_data := Ptr 0 0 |}); reflexivity.
Defined.

(** C4 (what the code does). [end] is a [size_t], so the test [end < 0] is
    never true and a negative argument is not resolved against the length:
    it arrives as a value of at least 2^63 and, for a valid [start], the
    call fails the assertion [end <= str->length]. In particular
    [StrSlice(arena, "hello world", 0, -6)] aborts instead of returning
    ["hello"]. *)
Theorem StrSlice_negative_end_aborts (m : Mem) (arena : Arena) (str : String)
    (start end_ : Z) :
  0 <= str_length str < 2 ^ 63 ->
  0 <= start <= str_length str ->
  - 2 ^ 63 <= end_ < 0 ->
  StrSlice m arena str start end_
  = Err (AssertFailed "StrSlice: end index out of bounds").
Proof.
  intros Hlen Hstart Hend. unfold StrSlice.
  rewrite (size_t_small start) by lia.
  assert (Hconv : size_t end_ = end_ + 2 ^ 64).
  { unfold size_t. symmetry. apply (Z.mod_unique_pos _ _ (-1)); lia. }
  rewrite Hconv.
  destruct (Z.geb_spec start 0); [|lia].
  destruct (Z.leb_spec start (str_length str)); [|lia].
  destruct (Z.ltb_spec (end_ + 2 ^ 64) 0); [lia|].
  destruct (Z.geb_spec (end_ + 2 ^ 64) start); [|lia].
  destruct (Z.leb_spec (end_ + 2 ^ 64) (str_length str)); [lia|].
  reflexivity.
Qed.

(** [StrSlice(arena, &S("hello world"), 0, -6)] *)
Lemma StrSlice_negative_end_aborts_witness :
  (0 <= 11 < 2 ^ 63 /\ 0 <= 0 <= 11 /\ - 2 ^ 63 <= -6 < 0)
  /\ StrSlice (static_mem [literal "hello world"])
       {| chunks := []; current := None; offset := 0; root := None; chunkSize := 64 |}
       (StrLit 0 "hello world") 0 (-6)
     = Err (AssertFailed "StrSlice: end index out of bounds").
Proof.
  assert (H1 : 0 <= 11 < 2 ^ 63) by lia.
  assert (H2 : 0 <= 0 <= 11) by lia.
  assert (H3 : - 2 ^ 63 <= -6 < 0) by lia.
  split; [auto|].
  exact (StrSlice_negative_end_aborts _ _ (StrLit 0 "hello world") 0 (-6) H1 H2 H3).
Defined.

(** The resolution branch is dead for every argument. *)
Lemma size_t_never_negative (z : Z) : (size_t z <? 0) = false.
Proof. pose proof (size_t_range z). apply Z.ltb_ge. lia. Qed.

(** C1 (what the code does). When [offset] is not a multiple of [al] the
    code computes [offset + al - offset], that is [al], instead of rounding
    [offset] up. After a 17-byte allocation in a fresh arena,
    [ArenaAllocAligned(arena, 8, 16)] returns position 16 of the chunk:
    below the current offset 17, inside the first allocation, where the
    next multiple of 16 is 32. (The position is a multiple of [al] and the
    region is zeroed all the same: [ArenaAllocAligned_aligned_zeroed].) *)
Theorem AllocAligned_does_not_round_up :
  fresh_alloc_run (static_mem []) 64 [(17, 1); (8, 16)]
  = Ok [ {| served_by := Some 0%nat; position := 0; chunk_count := 1; offset_after := 17 |};
         {| served_by := Some 0%nat; position := 16; chunk_count := 1; offset_after := 24 |} ].
Proof. vm_compute. reflexivity. Qed.

(** C2 (what the code does). When [ArenaAllocAligned] moves to a new chunk
    it serves the request at the start of that chunk and leaves [offset] at
    the value computed for the old chunk. With chunk size 64, after
    allocations of 48 and 32 bytes the arena is on its second chunk with
    [offset == 80], although 32 bytes of that chunk are in use; the next
    allocation, of 8 bytes, is not placed at position 32 of the second
    chunk: it makes a third chunk. ([ArenaAllocChars_new_chunk] is the
    general form: the arena after the call has [offset + size].) *)
Theorem AllocAligned_new_chunk_keeps_offset :
  fresh_alloc_run (static_mem []) 64 [(48, 1); (32, 1); (8, 1)]
  = Ok [ {| served_by := Some 0%nat; position := 0; chunk_count := 1; offset_after := 48 |};
         {| served_by := Some 1%nat; position := 0; chunk_count := 2; offset_after := 80 |};
         {| served_by := Some 2%nat; position := 0; chunk_count := 3; offset_after := 88 |} ].
Proof. vm_compute. reflexivity. Qed.

(** C5 as stated fails: the fourth [ArenaAllocChars(16)] call does not
    leave the arena with a second chunk. *)
Lemma AllocChars_fourth_call_no_new_chunk :
  ~ (exists events,
        fresh_alloc_run (static_mem []) 64 [(16, 1); (16, 1); (16, 1); (16, 1)]
        = Ok events
        /\ map chunk_count events = [1; 1; 1; 2]%nat).
Proof.
  intros (events & Hrun & Hcount). vm_compute in Hrun.
  injection Hrun as <-. discriminate Hcount.
Qed.

(** A read that ends past the end of its block fails. *)
Lemma load_past_end (m : Mem) (blk : nat) (off n size : Z) :
  block_size m blk = Some size -> size < off + n -> n <> 0 ->
  load m (Ptr blk off) n = Err OutOfBounds.
Proof.
  intros Hs Hover Hn. apply block_size_Some in Hs as (b & Hb & <-).
  unfold load. destruct (Z.eqb_spec n 0); [lia|]. rewrite Hb.
  destruct (in_block b off n) eqn:Hin; [|reflexivity].
  apply in_block_true in Hin. lia.
Qed.

(** An allocation leaves the blocks that exist at their size. *)
Lemma ArenaAllocChars_block_size (m m' : Mem) (arena arena' : Arena) (size : Z)
    (p : pointer) (blk : nat) (sz : Z) :
  arena_wf m arena -> 0 < size < 2 ^ 62 -> offset arena + size < 2 ^ 63 ->
  ArenaAllocChars m arena size = Ok (m', arena', p) ->
  block_size m blk = Some sz -> block_size m' blk = Some sz.
Proof.
  intros Hwf Hsize Hsum Hcall Hblk. pose proof Hwf as ((c & Hc & Hlt) & _).
  destruct (lookup_lt_is_Some_2 (chunks arena) c Hlt) as [ch Hch].
  destruct (Z.le_gt_cases (offset arena + size) (cap ch)) as [Hfit|Hover].
  - destruct (ArenaAllocChars_fits m arena size c ch Hwf Hc Hch Hsize Hsum Hfit)
      as (m1 & Hm1 & Hcall1).
    rewrite Hcall1 in Hcall. injection Hcall as <- _ _.
    apply memset_inv in Hm1 as (Hsame & _); [|lia]. rewrite Hsame. exact Hblk.
  - destruct (next_fit (drop (S c) (chunks arena)) (S c)
                (if size >? chunkSize arena then size else chunkSize arena))
      as [j|] eqn:Hnext.
    + pose proof (next_fit_Some _ _ _ _ Hnext) as (Hle & chj & Hj & Hcap).
      rewrite lookup_drop in Hj. replace (S c + (j - S c))%nat with j in Hj by lia.
      destruct (ArenaAllocChars_reuse m arena size c ch Hwf Hc Hch Hsize Hsum j chj
                  Hover Hnext Hj) as (m1 & Hm1 & Hcall1).
      rewrite Hcall1 in Hcall. injection Hcall as <- _ _.
      apply memset_inv in Hm1 as (Hsame & _); [|lia]. rewrite Hsame. exact Hblk.
    + destruct (ArenaAllocChars_new_chunk m arena size c ch Hwf Hc Hch Hsize Hsum
                  Hover Hnext) as (m1 & Hm1 & Hcall1).
      rewrite Hcall1 in Hcall. injection Hcall as <- _ _.
      apply memset_inv in Hm1 as (Hsame & _); [|lia]. rewrite Hsame.
      unfold mem_grown. rewrite block_size_Malloc.
      * apply block_size_lt in Hblk as Hlt'. destruct (decide _); [lia|exact Hblk].
      * destruct Hwf as (_ & _ & _ & _ & Hcs). unfold sizeof_ArenaChunk.
        destruct (_ >? _); lia.
Qed.

(** C8 (what the code does). [StrNewSize] copies [len + 1] bytes from the
    source, not [len]: when exactly [len] bytes are readable at [str] (the
    block ends there) the copy reads one byte past the end of the source
    and the call faults, for every [len]. *)
Theorem StrNewSize_reads_past_len (m : Mem) (arena : Arena) (blk : nat)
    (off len : Z) :
  arena_wf m arena ->
  0 <= len < 2 ^ 62 - 1 ->
  offset arena + len + 1 < 2 ^ 63 ->
  0 <= off ->
  block_size m blk = Some (off + len) ->
  StrNewSize m arena (Ptr blk off) len = Err OutOfBounds.
Proof.
  intros Hwf Hlen Hsum Hoff Hblk. unfold StrNewSize.
  replace (size_t (1 * len + 1)) with (len + 1) by (rewrite size_t_small; lia).
  destruct (ArenaAllocChars_ok m arena (len + 1) Hwf) as (m1 & arena1 & b & o & Hcall & _);
    [lia|lia|].
  rewrite Hcall. mstep. unfold memcpy.
  rewrite (load_past_end m1 blk off (len + 1) (off + len)); [reflexivity| |lia|lia].
  eapply ArenaAllocChars_block_size; eauto; lia.
Qed.

(** [StrNewSize(arena, buf, 3)] on a fresh arena, where [buf] is a block of
    the three bytes ["abc"]. *)
Lemma StrNewSize_reads_past_len_witness :
  match ArenaCreate (static_mem [list_byte_of_string "abc"]) 64 with
  | Ok (m, arena) =>
      (arena_wf m arena /\ 0 <= 3 < 2 ^ 62 - 1 /\ offset arena + 3 + 1 < 2 ^ 63
       /\ 0 <= 0 /\ block_size m 0 = Some (0 + 3))
      /\ StrNewSize m arena (Ptr 0 0) 3 = Err OutOfBounds
  | Err _ => False
  end.
Proof.
  destruct (ArenaCreate_ok (static_mem [list_byte_of_string "abc"]) 64)
    as (m & Hc & Hwf & _ & _ & Hsize); [lia|].
  rewrite Hc.
  assert (H1 : 0 <= 3 < 2 ^ 62 - 1) by lia.
  assert (H2 : 0 + 3 + 1 < 2 ^ 63) by lia.
  assert (H3 : 0 <= 0) by lia.
  assert (H4 : block_size m 0 = Some (0 + 3)).
  { rewrite Hsize by (simpl; lia). reflexivity. }
  split; [exact (conj Hwf (conj H1 (conj H2 (conj H3 H4))))|].
  exact (StrNewSize_reads_past_len m _ 0%nat 0 3 Hwf H1 H2 H3 H4).
Defined.

(** [memcpy_s] with valid pointers and a large enough destination copies
    [count] bytes and returns 0. *)
Lemma memcpy_s_copy (m : Mem) (b b' : nat) (o o' destSize count : Z)
    (bs : list byte) :
  count <= destSize ->
  load m (Ptr b' o') count = Ok bs ->
  readable m (Ptr b o) count ->
  exists m',
    memcpy_s m (Ptr b o) destSize (Ptr b' o') count = Ok (m', 0)
    /\ store m (Ptr b o) bs = Ok m'.
Proof.
  intros Hle Hbs Hr. unfold memcpy_s, memcpy.
  rewrite !bool_decide_eq_false_2 by discriminate.
  destruct (Z.ltb_spec destSize count); [lia|]. simpl orb. cbv iota.
  rewrite Hbs. mstep.
  assert (Hlen : Z.of_nat (length bs) = count).
  { apply (load_length m (Ptr b' o') count bs Hbs). destruct Hr as (? & _ & _ & ? & _). lia. }
  destruct (readable_store m b o bs) as [m' Hm']; [rewrite Hlen; exact Hr|].
  exists m'. rewrite Hm'. split; reflexivity.
Qed.

Lemma load_after_store (m m' : Mem) (b b' : nat) (o o' n : Z) (bs : list byte) :
  store m (Ptr b o) bs = Ok m' ->
  disjoint b' o' n b o (Z.of_nat (length bs)) ->
  load m' (Ptr b' o') n = load m (Ptr b' o') n.
Proof.
  intros H Hd. eapply load_store_other; [exact H|].
  unfold disjoint in Hd. tauto.
Qed.

(** C6. For strings [string1] and [string2] with non-null [data] whose
    bytes are live, [StrConcat] returns a string whose length is the sum of
    the two lengths and whose bytes are the bytes of [string1] followed by
    the bytes of [string2] (and then a terminator). *)
Theorem StrConcat_bytes (m : Mem) (arena : Arena) (string1 string2 : String) :
  arena_wf m arena ->
  StrIsNull string1 = false -> StrIsNull string2 = false ->
  live m arena (str_data string1) (str_length string1) ->
  live m arena (str_data string2) (str_length string2) ->
  str_length string1 + str_length string2 < 2 ^ 62 - 1 ->
  offset arena + str_length string1 + str_length string2 + 1 < 2 ^ 63 ->
  exists m' arena' result bytes1 bytes2,
    StrConcat m arena string1 string2 = Ok (m', arena', result)
    /\ str_bytes m string1 = Ok bytes1
    /\ str_bytes m string2 = Ok bytes2
    /\ str_length result = str_length string1 + str_length string2
    /\ str_bytes m' result = Ok (bytes1 ++ bytes2)
    /\ load m' (ptr_add (str_data result) (str_length result)) 1 = Ok ["000"%byte].
Proof.
  intros Hwf Hn1 Hn2 Hl1 Hl2 Hlen Hsum.
  destruct string1 as [l1 [|b1 o1]]; [discriminate|].
  destruct string2 as [l2 [|b2 o2]]; [discriminate|].
  cbn [str_length str_data] in *.
  assert (H1pos : 0 <= l1) by (destruct Hl1 as [(? & _ & _ & ? & _) _]; lia).
  assert (H2pos : 0 <= l2) by (destruct Hl2 as [(? & _ & _ & ? & _) _]; lia).
  destruct (readable_load m _ _ (live_readable _ _ _ _ Hl1)) as [bytes1 Hb1].
  destruct (readable_load m _ _ (live_readable _ _ _ _ Hl2)) as [bytes2 Hb2].
  pose proof (load_length _ _ _ _ Hb1 H1pos) as Hlen1.
  pose proof (load_length _ _ _ _ Hb2 H2pos) as Hlen2.
  unfold StrConcat. rewrite Hn1, Hn2. cbn [str_length str_data].
  rewrite (size_t_small (l1 + l2)) by lia.
  replace (size_t (1 * (l1 + l2) + 1)) with (l1 + l2 + 1) by (rewrite size_t_small; lia).
  destruct (ArenaAllocChars_ok m arena (l1 + l2 + 1) Hwf) as (m1 & arena1 & b & o & Hcall & Hpost);
    [lia|lia|].
  destruct Hpost as (Hwf1 & Hoff1 & _ & Hlive1 & _ & Hframe1).
  rewrite Hcall. mstep.
  destruct (Hframe1 _ _ _ Hl1) as (_ & Hld1 & Hd1).
  destruct (Hframe1 _ _ _ Hl2) as (_ & Hld2 & Hd2).
  (* first copy *)
  destruct (memcpy_s_copy m1 b b1 o o1 (l1 + l2 + 1) l1 bytes1) as (m2 & Hcpy1 & Hst1);
    [lia|congruence| |].
  { apply (live_readable m1 arena1).
    pose proof (live_sub m1 arena1 b o (l1 + l2 + 1) 0 l1 Hlive1) as Hs.
    rewrite Z.add_0_r in Hs. apply Hs; lia. }
  rewrite Hcpy1. mstep.
  (* second copy *)
  assert (Hb2' : load m2 (Ptr b2 o2) l2 = Ok bytes2).
  { rewrite (load_after_store m1 m2 b b2 o o2 l2 bytes1 Hst1); [congruence|].
    rewrite Hlen1. unfold disjoint in *. lia. }
  unfold ptr_add at 1.
  destruct (memcpy_s_copy m2 b b2 (o + l1) o2 (l1 + l2 + 1) l2 bytes2) as (m3 & Hcpy2 & Hst2);
    [lia|exact Hb2'| |].
  { apply (live_readable m2 arena1). eapply live_store; [exact Hst1|].
    apply (live_sub m1 arena1 b o (l1 + l2 + 1) l1 l2 Hlive1); lia. }
  rewrite Hcpy2. mstep.
  (* terminator *)
  unfold addNullTerminator, ptr_add.
  destruct (readable_store m3 b (o + (l1 + l2)) ["000"%byte]) as [m4 Hst3].
  { apply (live_readable m3 arena1). eapply live_store; [exact Hst2|].
    eapply live_store; [exact Hst1|].
    apply (live_sub m1 arena1 b o (l1 + l2 + 1) (l1 + l2) 1 Hlive1); lia. }
  rewrite Hst3. mstep.
  exists m4, arena1, {| str_length := l1 + l2; str_data := Ptr b o |}, bytes1, bytes2.
  split; [reflexivity|]. split; [exact Hb1|]. split; [exact Hb2|]. split; [reflexivity|].
  unfold str_bytes. cbn [str_length str_data ptr_add]. split.
  - apply load_app; [lia|lia| |].
    + rewrite (load_after_store m3 m4 b b (o + (l1 + l2)) o l1 _ Hst3)
        by (unfold disjoint; simpl; lia).
      rewrite (load_after_store m2 m3 b b (o + l1) o l1 _ Hst2)
        by (unfold disjoint; lia).
      rewrite <- Hlen1. apply (load_store_same _ _ _ _ Hst1).
    + rewrite (load_after_store m3 m4 b b (o + (l1 + l2)) (o + l1) l2 _ Hst3)
        by (unfold disjoint; simpl; lia).
      rewrite <- Hlen2. apply (load_store_same _ _ _ _ Hst2).
  - apply (load_store_same _ _ _ _ Hst3).
Qed.

(** Once a first non-space byte is recorded the scan keeps it and only
    moves [lastChar]. *)
Lemma trim_scan_started (bytes : list byte) (i f0 l0 : Z) :
  exists l', trim_scan bytes i (Some f0) (Some l0) = (Some f0, Some l')
    /\ (l' = l0
        \/ (i <= l' < i + Z.of_nat (length bytes)
            /\ exists c, bytes !! Z.to_nat (l' - i) = Some c /\ isSpace c = false)).
Proof.
  revert i l0. induction bytes as [|c bytes IH]; intros i l0; simpl.
  - exists l0. split; [reflexivity|left; reflexivity].
  - destruct (isSpace c) eqn:Hc.
    + destruct (IH (i + 1) l0) as (l' & Hs & Hcase). exists l'. split; [exact Hs|].
      destruct Hcase as [->|(Hr & c' & Hl & Hsp)]; [left; reflexivity|right].
      split; [lia|]. exists c'. split; [|exact Hsp].
      replace (Z.to_nat (l' - i)) with (S (Z.to_nat (l' - (i + 1)))) by lia. exact Hl.
    + destruct (IH (i + 1) i) as (l' & Hs & Hcase). exists l'. split; [exact Hs|]. right.
      destruct Hcase as [->|(Hr & c' & Hl & Hsp)].
      * split; [lia|]. exists c. rewrite Z.sub_diag. split; [reflexivity|exact Hc].
      * split; [lia|]. exists c'. split; [|exact Hsp].
        replace (Z.to_nat (l' - i)) with (S (Z.to_nat (l' - (i + 1)))) by lia. exact Hl.
Qed.

(** The scan from scratch finds nothing (every byte is a space) or both
    the first and the last non-space byte. *)
Lemma trim_scan_fresh (bytes : list byte) (i : Z) :
  (trim_scan bytes i None None = (None, None) /\ forallb isSpace bytes = true)
  \/ exists f l cf cl,
       trim_scan bytes i None None = (Some f, Some l)
       /\ i <= f <= l /\ l < i + Z.of_nat (length bytes)
       /\ bytes !! Z.to_nat (f - i) = Some cf /\ isSpace cf = false
       /\ bytes !! Z.to_nat (l - i) = Some cl /\ isSpace cl = false.
Proof.
  revert i. induction bytes as [|c bytes IH]; intros i; simpl.
  - left. split; reflexivity.
  - destruct (isSpace c) eqn:Hc.
    + destruct (IH (i + 1)) as [[Hs Hall]|(f & l & cf & cl & Hs & Hf & Hl & Hcf & Hspf & Hcl & Hspl)].
      * left. split; [exact Hs|exact Hall].
      * right. exists f, l, cf, cl. split; [exact Hs|]. split; [lia|]. split; [lia|].
        replace (Z.to_nat (f - i)) with (S (Z.to_nat (f - (i + 1)))) by lia.
        replace (Z.to_nat (l - i)) with (S (Z.to_nat (l - (i + 1)))) by lia.
        auto.
    + right. destruct (trim_scan_started bytes (i + 1) i i) as (l' & Hs & Hcase).
      destruct Hcase as [->|(Hr & c' & Hl & Hsp)].
      * exists i, i, c, c. rewrite Z.sub_diag. split; [exact Hs|].
        repeat split; auto; lia.
      * exists i, l', c, c'. rewrite Z.sub_diag. split; [exact Hs|].
        split; [lia|]. split; [lia|]. split; [reflexivity|]. split; [exact Hc|].
        split; [|exact Hsp].
        replace (Z.to_nat (l' - i)) with (S (Z.to_nat (l' - (i + 1)))) by lia. exact Hl.
Qed.

Lemma trim_scan_last (bytes : list byte) (c : byte) (i f0 l0 : Z) :
  isSpace c = false ->
  trim_scan (bytes ++ [c]) i (Some f0) (Some l0)
  = (Some f0, Some (i + Z.of_nat (length bytes))).
Proof.
  intros Hc. revert i l0. induction bytes as [|x bytes IH]; intros i l0; simpl.
  - rewrite Hc. f_equal. f_equal. lia.
  - destruct (isSpace x); rewrite IH; f_equal; f_equal; lia.
Qed.

(** On bytes that start and end with a non-space byte the scan returns
    the two ends. *)
Lemma trim_scan_trimmed (bytes : list byte) (cf cl : byte) :
  (2 <= length bytes)%nat ->
  bytes !! 0%nat = Some cf -> isSpace cf = false ->
  bytes !! (length bytes - 1)%nat = Some cl -> isSpace cl = false ->
  trim_scan bytes 0 None None = (Some 0, Some (Z.of_nat (length bytes) - 1)).
Proof.
  intros Hlen Hf Hcf Hl Hcl.
  destruct bytes as [|c0 rest]; [discriminate|]. injection Hf as ->.
  destruct rest as [|x rest _] using rev_ind; [simpl in Hlen; lia|].
  simpl in Hl. rewrite length_app in Hl. simpl in Hl.
  replace (length rest + 1 - 0)%nat with (S (length rest)) in Hl by lia.
  change (S (length rest)) with (length (cf :: rest)) in Hl.
  rewrite (list_lookup_middle (cf :: rest) [] x) in Hl by reflexivity.
  injection Hl as ->.
  simpl. rewrite Hcf. rewrite trim_scan_last by exact Hcl.
  f_equal. f_equal. rewrite length_app. simpl. lia.
Qed.

(** C9. [StrTrim] is idempotent. On a string whose buffer holds its bytes
    and the terminator, [StrTrim] returns, and a second [StrTrim] on the
    result returns the same string (same [length], same [data]) and leaves
    the memory, hence the bytes, as the first call left it. *)
Theorem StrTrim_idempotent (m : Mem) (str : String) :
  0 <= str_length str < 2 ^ 62 ->
  str_length str = 0 \/ readable m (str_data str) (str_length str + 1) ->
  exists m' str',
    StrTrim m str = Ok (m', str')
    /\ StrTrim m' str' = Ok (m', str').
Proof.
  intros Hlen Hvalid. destruct str as [n data]. cbn [str_length str_data] in *.
  destruct (Z.eq_dec n 0) as [->|Hn0].
  { exists m, {| str_length := 0; str_data := data |}. split; reflexivity. }
  destruct Hvalid as [?|Hr]; [lia|].
  destruct data as [|b o]; [destruct Hr|].
  pose proof Hr as (size & Hsize & Ho & _ & Hfit).
  destruct (readable_load m (Ptr b o) (n + 1) Hr) as [all Hall].
  pose proof (load_prefix m b o (n + 1) n all Hall ltac:(lia)) as Hbytes.
  set (bytes := take (Z.to_nat n) all) in *.
  assert (Hblen : Z.of_nat (length bytes) = n) by (eapply load_length; eauto; lia).
  assert (Hwrite : forall m1 i k, (forall blk, block_size m1 blk = block_size m blk) ->
                     0 <= i -> 0 <= k -> i + k <= n + 1 -> readable m1 (Ptr b (o + i)) k).
  { intros m1 i k Hsame Hi Hk Hik. exists size. rewrite Hsame. repeat split; auto; lia. }
  destruct (Z.eq_dec n 1) as [->|Hn1].
  - (* one byte *)
    unfold StrTrim at 1. cbn [str_length str_data]. simpl (1 =? 0). simpl (1 =? 1). cbv iota.
    unfold load_byte. rewrite Hbytes. mstep.
    destruct bytes as [|c [|? ?]] eqn:Eb; try (simpl in Hblen; lia).
    mstep. destruct (isSpace c) eqn:Hc.
    + destruct (readable_store m b o ["000"%byte]) as [m1 Hm1].
      { pose proof (Hwrite m 0 1 ltac:(reflexivity)) as Hw. rewrite Z.add_0_r in Hw.
        apply Hw; lia. }
      rewrite Hm1. mstep. exists m1, {| str_length := 0; str_data := Ptr b o |}.
      split; reflexivity.
    + exists m, {| str_length := 1; str_data := Ptr b o |}. split; [reflexivity|].
      unfold StrTrim. cbn [str_length str_data]. simpl (1 =? 0). simpl (1 =? 1). cbv iota.
      unfold load_byte. rewrite Hbytes. do 2 mstep. rewrite Hc. reflexivity.
  - (* two bytes or more *)
    unfold StrTrim at 1. cbn [str_length str_data].
    destruct (Z.eqb_spec n 0); [lia|]. destruct (Z.eqb_spec n 1); [lia|].
    rewrite Hbytes. mstep.
    destruct (trim_scan_fresh bytes 0)
      as [[Hscan _]|(f & l & cf & cl & Hscan & Hf & Hl & Hcf & Hspf & Hcl & Hspl)];
      rewrite Hscan.
    + (* nothing but spaces *)
      destruct (readable_store m b o ["000"%byte]) as [m1 Hm1].
      { pose proof (Hwrite m 0 1 ltac:(reflexivity)) as Hw. rewrite Z.add_0_r in Hw.
        apply Hw; lia. }
      rewrite Hm1. mstep. unfold addNullTerminator, ptr_add.
      destruct (readable_store m1 b (o + 0) ["000"%byte]) as [m2 Hm2].
      { apply (Hwrite m1 0 1); [|lia..]. intros blk. eapply store_block_size; eauto. }
      rewrite Hm2. mstep. exists m2, {| str_length := 0; str_data := Ptr b o |}.
      split; reflexivity.
    + (* the range [f, l] is kept *)
      rewrite Z.sub_0_r in Hcf, Hcl. rewrite Z.add_0_l in Hl.
      set (len := l - f + 1) in *.
      assert (Hlenr : 1 <= len <= n) by (unfold len; lia).
      rewrite (size_t_small len) by lia.
      pose proof (load_sub m b o n f len bytes Hbytes ltac:(lia) ltac:(lia) ltac:(lia)) as Hmid.
      set (mid := take (Z.to_nat len) (drop (Z.to_nat f) bytes)) in *.
      assert (Hmlen : Z.of_nat (length mid) = len) by (eapply load_length; eauto; lia).
      unfold ptr_add at 1.
      destruct (memcpy_s_copy m b b o (o + f) n len mid) as (m1 & Hcpy & Hst1);
        [lia|exact Hmid| |].
      { pose proof (Hwrite m 0 len ltac:(reflexivity)) as Hw. rewrite Z.add_0_r in Hw.
        apply Hw; lia. }
      rewrite Hcpy. mstep. unfold addNullTerminator, ptr_add.
      destruct (readable_store m1 b (o + len) ["000"%byte]) as [m2 Hst2].
      { apply (Hwrite m1 len 1); [|lia..]. intros blk. eapply store_block_size; eauto. }
      rewrite Hst2. mstep.
      exists m2, {| str_length := len; str_data := Ptr b o |}. split; [reflexivity|].
      (* the second call *)
      assert (Hmid2 : load m2 (Ptr b o) len = Ok mid).
      { rewrite (load_after_store m1 m2 b b (o + len) o len _ Hst2)
          by (unfold disjoint; simpl; lia).
        rewrite <- Hmlen. apply (load_store_same _ _ _ _ Hst1). }
      assert (Hterm2 : load m2 (Ptr b (o + len)) 1 = Ok ["000"%byte])
        by apply (load_store_same _ _ _ _ Hst2).
      assert (Hfirst : mid !! 0%nat = Some cf).
      { unfold mid. rewrite lookup_take, lookup_drop, Nat.add_0_r.
        destruct (decide _); [exact Hcf|lia]. }
      assert (Hlast : mid !! (length mid - 1)%nat = Some cl).
      { replace (length mid - 1)%nat with (Z.to_nat (len - 1)) by lia.
        unfold mid. rewrite lookup_take, lookup_drop.
        destruct (decide _); [|lia].
        replace (Z.to_nat f + Z.to_nat (len - 1))%nat with (Z.to_nat l) by (unfold len; lia).
        exact Hcl. }
      unfold StrTrim. cbn [str_length str_data].
      destruct (Z.eqb_spec len 0); [lia|].
      destruct (Z.eqb_spec len 1) as [Hone|Hmore].
      * rewrite Hone in Hmid2. unfold load_byte. rewrite Hmid2. mstep.
        destruct mid as [|c [|? ?]]; try (simpl in Hmlen; lia).
        injection Hfirst as ->. mstep. rewrite Hspf. reflexivity.
      * rewrite Hmid2. mstep.
        rewrite (trim_scan_trimmed mid cf cl) by (auto; lia).
        rewrite Hmlen. replace (len - 1 - 0 + 1) with len by lia.
        rewrite (size_t_small len) by lia. unfold ptr_add at 1.
        unfold memcpy_s, memcpy. rewrite !bool_decide_eq_false_2 by discriminate.
        destruct (Z.ltb_spec len len); [lia|]. simpl orb. cbv iota.
        rewrite Z.add_0_r, Hmid2. mstep.
        rewrite (store_same_id m2 (Ptr b o) len mid Hmid2). do 2 mstep.
        unfold addNullTerminator, ptr_add.
        rewrite (store_same_id m2 (Ptr b (o + len)) 1 _ Hterm2). mstep. reflexivity.
Qed.

(** ** Splitting *)

Lemma join_snoc (d : list byte) (init : list (list byte)) (last : list byte) :
  join d (init ++ [last]) = glue d init ++ last.
Proof.
  unfold glue. induction init as [|t init IH]; [reflexivity|].
  change ((t :: init) ++ [last]) with (t :: (init ++ [last])).
  change (join d (t :: init ++ [last])) with
    (match init ++ [last] with [] => t | _ :: _ => t ++ d ++ join d (init ++ [last]) end).
  destruct (init ++ [last]) eqn:E; [destruct init; discriminate|].
  rewrite IH. simpl. rewrite <- !app_assoc. reflexivity.
Qed.

Lemma glue_join (d : list byte) (tokens : list (list byte)) :
  tokens <> [] -> glue d tokens = join d tokens ++ d.
Proof.
  intros Hne. destruct tokens as [|t tokens _] using rev_ind; [congruence|].
  rewrite join_snoc. unfold glue. rewrite map_app, concat_app. simpl.
  rewrite app_nil_r, app_assoc. reflexivity.
Qed.

Lemma glue_snoc (d : list byte) (tokens : list (list byte)) (t : list byte) :
  glue d (tokens ++ [t]) = glue d tokens ++ t ++ d.
Proof. unfold glue. rewrite map_app, concat_app. simpl. rewrite app_nil_r. reflexivity. Qed.

Lemma bytes_cmp_eq (xs ys : list byte) :
  length xs = length ys -> bytes_cmp xs ys = 0 <-> xs = ys.
Proof.
  revert ys. induction xs as [|x xs IH]; intros [|y ys] Hlen; try discriminate; simpl.
  - split; reflexivity.
  - destruct (decide (x = y)) as [->|Hne].
    + rewrite IH by (simpl in Hlen; lia). split; [intros ->; reflexivity|].
      intros [= ->]. reflexivity.
    + split; [destruct (_ <? _)%nat; discriminate|]. intros [= -> _]. congruence.
Qed.

Lemma holds_frame (m m' : Mem) (arena arena' : Arena) (str : String) (bs : list byte) :
  (forall blk off k, live m arena (Ptr blk off) k ->
     live m' arena' (Ptr blk off) k
     /\ load m' (Ptr blk off) k = load m (Ptr blk off) k) ->
  holds m arena str bs -> holds m' arena' str bs.
Proof.
  intros Hframe (Hlen & b & o & Hp & Hlive & Hload). split; [exact Hlen|].
  exists b, o. split; [exact Hp|].
  destruct (Hframe b o _ Hlive) as [Hlive' _]. split; [exact Hlive'|].
  pose proof (live_sub m arena b o (str_length str + 1) 0 (str_length str) Hlive) as Hsub.
  rewrite Z.add_0_r in Hsub.
  destruct (Hframe b o (str_length str)) as [_ Hl]; [apply Hsub; lia|]. congruence.
Qed.

Lemma strs_bytes_holds (m : Mem) (arena : Arena) (strs : list String)
    (bss : list (list byte)) :
  Forall2 (holds m arena) strs bss -> strs_bytes m strs = Ok bss.
Proof.
  induction 1 as [|str bs strs bss (Hlen & b & o & Hp & Hlive & Hload) _ IH];
    [reflexivity|].
  simpl. unfold str_bytes. rewrite Hp, Hload. mstep. rewrite IH. reflexivity.
Qed.

Section Split.
Variables (bs : nat) (os n : Z) (bd : nat) (od dn : Z).
Variables (sbytes dbytes : list byte).

Let str : String := {| str_length := n; str_data := Ptr bs os |}.
Let delimiter : String := {| str_length := dn; str_data := Ptr bd od |}.

Hypothesis Hn : 0 <= n < 2 ^ 30.
Hypothesis Hdn : 0 < dn.

(** The source string and the delimiter are live and hold their bytes. *)
Let source_ok (m : Mem) (arena : Arena) : Prop :=
  live m arena (Ptr bs os) (n + 1) /\ load m (Ptr bs os) n = Ok sbytes
  /\ live m arena (Ptr bd od) dn /\ load m (Ptr bd od) dn = Ok dbytes.

(** A position reported by the search holds the delimiter. *)
Lemma find_match_spec (m : Mem) (arena : Arena) (search : Z) (k : nat) :
  source_ok m arena ->
  0 <= search ->
  k = 0%nat \/ search + Z.of_nat k + dn <= n + 1 ->
  find_match m str delimiter search k = Ok None
  \/ exists match_,
       find_match m str delimiter search k = Ok (Some match_)
       /\ search <= match_ /\ match_ + dn <= n
       /\ take (Z.to_nat dn) (drop (Z.to_nat match_) sbytes) = dbytes.
Proof.
  intros (Hls & Hs & Hld & Hd). revert search.
  induction k as [|k IH]; intros search Hpos Hk; [left; reflexivity|].
  destruct Hk as [|Hk]; [discriminate|].
  simpl. unfold memcmp. cbn [str_data str_length str delimiter ptr_add].
  rewrite (load_sub m bs os n search dn sbytes Hs) by lia. mstep.
  rewrite Hd. do 2 mstep.
  assert (Hds : Z.of_nat (length dbytes) = dn) by (eapply load_length; eauto; lia).
  assert (Hss : Z.of_nat (length sbytes) = n) by (eapply load_length; eauto; lia).
  destruct (Z.eqb_spec (bytes_cmp (take (Z.to_nat dn) (drop (Z.to_nat search) sbytes)) dbytes) 0)
    as [Heq|Hne].
  - right. exists search. split; [reflexivity|]. split; [lia|]. split; [lia|].
    apply bytes_cmp_eq; [|exact Heq]. rewrite length_take, length_drop. lia.
  - destruct (IH (search + 1)) as [Hnone|(mt & Hf & Hle & Hfit & Hmatch)]; [lia|right; lia| |].
    + left. exact Hnone.
    + right. exists mt. split; [exact Hf|]. split; [lia|]. split; [lia|exact Hmatch].
Qed.

(** The main loop, from any state it can be in: it returns, the tokens it
    adds are live and hold pieces of the source, and all the tokens, each
    followed by the delimiter, rebuild the source, up to the delimiter
    after the last one when the last token is the rest of the source. *)
Lemma split_loop_spec (fuel : nat) :
  forall (m : Mem) (arena : Arena) (result : StringVector) (curr : Z)
         (toks : list String) (acc : list (list byte)),
    arena_wf m arena ->
    source_ok m arena ->
    vec_wf result -> vec_elems result = Some toks ->
    vec_capacity result <= INT32_MAX -> vec_length result <= curr ->
    Forall2 (holds m arena) toks acc ->
    0 <= curr <= n ->
    offset arena + (n - curr) + 1 < 2 ^ 63 ->
    (Z.to_nat (n - curr) <= fuel)%nat ->
    glue dbytes acc = take (Z.to_nat curr) sbytes ->
    exists m' arena' result' toks' acc',
      split_loop fuel m arena str delimiter result curr = Ok (m', arena', result')
      /\ vec_elems result' = Some toks'
      /\ Forall2 (holds m' arena') toks' acc'
      /\ (glue dbytes acc' = sbytes
          \/ exists init last, acc' = init ++ [last] /\ glue dbytes init ++ last = sbytes).
Proof.
  induction fuel as [|fuel IH];
    intros m arena result curr toks acc Hwf Hsrc Hvwf Hve Hvcap Hvlen Htoks Hcurr Hoff Hfuel Hglue.
  - (* no fuel is needed when [curr] has reached the end *)
    assert (curr = n) as -> by lia. simpl. cbn [str_length str].
    rewrite Z.ltb_irrefl.
    exists m, arena, result, toks, acc. split; [reflexivity|]. split; [exact Hve|].
    split; [exact Htoks|]. left. rewrite Hglue. apply take_ge.
    destruct Hsrc as (_ & Hs & _). apply load_length in Hs; lia.
  - pose proof Hsrc as (Hls & Hs & Hld & Hd).
    assert (Hss : Z.of_nat (length sbytes) = n) by (eapply load_length; eauto; lia).
    assert (Hds : Z.of_nat (length dbytes) = dn) by (eapply load_length; eauto; lia).
    simpl. cbn [str_length str_data str delimiter ptr_add].
    destruct (Z.ltb_spec curr n) as [Hlt|Hge].
    2:{ assert (curr = n) as -> by lia.
        exists m, arena, result, toks, acc. split; [reflexivity|]. split; [exact Hve|].
        split; [exact Htoks|]. left. rewrite Hglue. apply take_ge. lia. }
    assert (Hpush : forall (v : StringVector) (x : String) (l : list String),
              vec_wf v -> vec_elems v = Some l ->
              vec_capacity v <= INT32_MAX -> vec_length v <= curr ->
              exists v' r, VecPush sizeof_String v x = Ok (v', r)
                /\ vec_wf v' /\ vec_elems v' = Some (l ++ [x])
                /\ vec_length v' = vec_length v + 1
                /\ vec_capacity v' <= INT32_MAX).
    { intros v x l Hv1 Hv2 Hv3 Hv4.
      assert (Hg : vec_length v = vec_capacity v -> grown (vec_capacity v) <= INT32_MAX).
      { intros E. unfold grown, INT32_MAX. destruct (Z.eqb_spec (vec_capacity v) 0); lia. }
      destruct (VecPush_spec sizeof_String ltac:(reflexivity) ltac:(discriminate) v x l
                  Hv1 Hv2 Hv3 Hg) as (v' & Hp & Hw' & He' & Hl' & Hc').
      exists v'. eexists. split; [exact Hp|]. repeat split; auto; try apply Hw'.
      rewrite Hc'. destruct (Z.ltb_spec (vec_length v) (vec_capacity v)); [exact Hv3|].
      apply Hg. destruct Hv1. lia. }
    destruct (find_match_spec m arena curr (Z.to_nat (n - dn - curr + 1)) Hsrc)
      as [Hfind|(mt & Hfind & Hle & Hfit & Hmatch)]; [lia|lia| |]; rewrite Hfind; mstep.
    + (* no match: the rest of the source is the last token *)
      set (rest := take (Z.to_nat (n - curr)) (drop (Z.to_nat curr) sbytes)).
      destruct (StrNewSize_spec m arena bs (os + curr) (n - curr) rest Hwf)
        as (m1 & arena1 & b & o & Hnew & Hwf1 & Hoff1 & Hlive1 & Hload1 & Hframe);
        [lia|lia| | |].
      { replace (n - curr + 1) with (n + 1 - curr) by lia.
        apply (live_sub m arena bs os (n + 1) curr (n + 1 - curr) Hls); lia. }
      { apply (load_sub m bs os n curr (n - curr) sbytes Hs); lia. }
      rewrite Hnew. mstep.
      destruct (Hpush result {| str_length := n - curr; str_data := Ptr b o |} toks)
        as (v' & r & Hp & Hw' & He' & Hl' & Hc'); auto.
      rewrite Hp. mstep.
      assert (Hrest : Z.of_nat (length rest) = n - curr)
        by (unfold rest; rewrite length_take, length_drop; lia).
      exists m1, arena1, v', (toks ++ [{| str_length := n - curr; str_data := Ptr b o |}]),
        (acc ++ [rest]).
      split; [reflexivity|]. split; [exact He'|]. split.
      * apply Forall2_app.
        -- eapply Forall2_impl; [|exact Htoks]. intros s t Hst. eapply holds_frame; eauto.
        -- constructor; [|constructor]. split; [simpl; lia|].
           exists b, o. cbn [str_length str_data]. split; [reflexivity|]. split; [exact Hlive1|].
           rewrite (load_prefix m1 b o (n - curr + 1) (n - curr) _ Hload1) by lia.
           rewrite take_app_length' by lia. reflexivity.
      * right. exists acc, rest. split; [reflexivity|]. rewrite Hglue. unfold rest.
        rewrite (take_ge (drop _ _)) by (rewrite length_drop; lia). apply take_drop.
    + (* a match at [mt]: the token is the bytes before it *)
      set (tok := take (Z.to_nat (mt - curr)) (drop (Z.to_nat curr) sbytes)).
      destruct (StrNewSize_spec m arena bs (os + curr) (mt - curr) tok Hwf)
        as (m1 & arena1 & b & o & Hnew & Hwf1 & Hoff1 & Hlive1 & Hload1 & Hframe);
        [lia|lia| | |].
      { apply (live_sub m arena bs os (n + 1) curr (mt - curr + 1) Hls); lia. }
      { apply (load_sub m bs os n curr (mt - curr) sbytes Hs); lia. }
      rewrite Hnew. mstep.
      destruct (Hpush result {| str_length := mt - curr; str_data := Ptr b o |} toks)
        as (v' & r & Hp & Hw' & He' & Hl' & Hc'); auto.
      rewrite Hp. mstep.
      assert (Htok : Z.of_nat (length tok) = mt - curr)
        by (unfold tok; rewrite length_take, length_drop; lia).
      apply (IH m1 arena1 v' (mt + dn)
               (toks ++ [{| str_length := mt - curr; str_data := Ptr b o |}]) (acc ++ [tok]));
        auto; try lia.
      * destruct (Hframe _ _ _ Hls) as [Hls1 _]. destruct (Hframe _ _ _ Hld) as [Hld1 Hd1].
        pose proof (live_sub m arena bs os (n + 1) 0 n Hls) as Hsub.
        rewrite Z.add_0_r in Hsub.
        destruct (Hframe bs os n) as [_ Hs1]; [apply Hsub; lia|].
        split; [exact Hls1|]. split; [congruence|]. split; [exact Hld1|congruence].
      * apply Forall2_app.
        -- eapply Forall2_impl; [|exact Htoks]. intros s t Hst. eapply holds_frame; eauto.
        -- constructor; [|constructor]. split; [simpl; lia|].
           exists b, o. cbn [str_length str_data]. split; [reflexivity|]. split; [exact Hlive1|].
           rewrite (load_prefix m1 b o (mt - curr + 1) (mt - curr) _ Hload1) by lia.
           rewrite take_app_length' by lia. reflexivity.
      * rewrite glue_snoc, Hglue. unfold tok. rewrite <- Hmatch.
        rewrite app_assoc, take_take_drop.
        replace (Z.to_nat curr + Z.to_nat (mt - curr))%nat with (Z.to_nat mt) by lia.
        rewrite take_take_drop. f_equal. lia.
Qed.
End Split.

(** C3 (amended). For a live string and a live, non-empty delimiter,
    [StrSplit] returns, and joining its tokens with the delimiter gives the
    string, or the string without a delimiter at its end: when the last
    match ends at the end of the string the loop stops there, and no final
    empty token is produced. If the string does not end with the
    delimiter the join is the string. *)
Theorem StrSplit_join (m : Mem) (arena : Arena) (str delimiter : String)
    (sbytes dbytes : list byte) :
  arena_wf m arena ->
  live m arena (str_data str) (str_length str + 1) ->
  live m arena (str_data delimiter) (str_length delimiter) ->
  str_bytes m str = Ok sbytes ->
  str_bytes m delimiter = Ok dbytes ->
  0 < str_length delimiter ->
  0 <= str_length str < 2 ^ 30 ->
  offset arena + str_length str + 1 < 2 ^ 63 ->
  exists tokens,
    split_tokens m arena str delimiter = Ok tokens
    /\ (join dbytes tokens = sbytes \/ join dbytes tokens ++ dbytes = sbytes)
    /\ (~ dbytes `suffix_of` sbytes -> join dbytes tokens = sbytes).
Proof.
  intros Hwf Hls Hld Hs Hd Hdn Hn Hoff.
  destruct str as [n [|bs os]]; [destruct Hls as [[] _]|].
  destruct delimiter as [dn [|bd od]]; [destruct Hld as [[] _]|].
  unfold str_bytes in Hs, Hd. cbn [str_length str_data] in *.
  assert (Hsub : live m arena (Ptr bs os) n).
  { pose proof (live_sub m arena bs os (n + 1) 0 n Hls) as H.
    rewrite Z.add_0_r in H. apply H; lia. }
  assert (Hcap : vec_capacity (@VecZero String) <= INT32_MAX) by discriminate.
  assert (Hfuel : (Z.to_nat (n - 0) <= Z.to_nat n)%nat) by lia.
  destruct (split_loop_spec bs os n bd od dn sbytes dbytes Hn Hdn (Z.to_nat n)
              m arena VecZero 0 [] [] Hwf (conj Hls (conj Hs (conj Hld Hd)))
              VecZero_wf eq_refl Hcap (Z.le_refl 0) (Forall2_nil _)
              ltac:(lia) ltac:(lia) Hfuel eq_refl)
    as (m' & arena' & result' & toks' & acc' & Hloop & Hve & Hholds & Hglue).
  assert (Hjoin : join dbytes acc' = sbytes \/ join dbytes acc' ++ dbytes = sbytes).
  { destruct Hglue as [Hg|(init & last & -> & Hg)].
    - destruct acc' as [|t acc']; [left; exact Hg|].
      right. rewrite <- glue_join by discriminate. exact Hg.
    - left. rewrite join_snoc. exact Hg. }
  exists acc'. split; [|split; [exact Hjoin|]].
  - unfold split_tokens, StrSplit. cbn [str_length str_data].
    change (StrIsNull _) with false. simpl negb. rewrite !assert_true.
    destruct (Z.eqb_spec dn 0); [lia|].
    repeat mstep. unfold StringVector in *. rewrite Hloop. repeat mstep. rewrite Hve.
    eapply strs_bytes_holds; eauto.
  - intros Hns. destruct Hjoin as [Hj|Hj]; [exact Hj|].
    exfalso. apply Hns. exists (join dbytes acc'). symmetry. exact Hj.
Qed.

(** C3 as stated fails: the tokens of ["a,"] split by [","] are [["a"]]
    alone, with no final empty token, and joined they give ["a"]. *)
Lemma StrSplit_drops_final_empty_token :
  split_literals "a," "," = Ok [list_byte_of_string "a"]
  /\ ~ (exists tokens,
          split_literals "a," "," = Ok tokens
          /\ join (list_byte_of_string ",") tokens = list_byte_of_string "a,").
Proof.
  assert (H : split_literals "a," "," = Ok [list_byte_of_string "a"])
    by (vm_compute; reflexivity).
  split; [exact H|].
  intros (tokens & Hrun & Hjoin). rewrite H in Hrun. injection Hrun as <-.
  vm_compute in Hjoin. discriminate Hjoin.
Qed.

(** ** [ArenaAllocAligned] with any power of two *)

Section AllocAligned.
Variables (m : Mem) (arena : Arena) (size al k : Z) (c : nat) (ch : ArenaChunk).
Hypothesis Hwf : arena_wf m arena.
Hypothesis Hc : current arena = Some c.
Hypothesis Hch : chunks arena !! c = Some ch.
Hypothesis Hsize : 0 < size < 2 ^ 62.
Hypothesis Hal : al = 2 ^ k.
Hypothesis Hk : 0 <= k < 62.
Hypothesis Hoff : offset arena < 2 ^ 62.

Let bytes : Z := if size >? chunkSize arena then size else chunkSize arena.
Let aligned : Z := aligned_position (offset arena) al.

Lemma al_range : 0 < al < 2 ^ 62.
Proof.
  rewrite Hal. split; [apply Z.pow_pos_nonneg; lia|].
  apply Z.pow_lt_mono_r; lia.
Qed.

Lemma tail_value : Z.land (offset arena) (al - 1) = offset arena mod al.
Proof.
  rewrite Hal. replace (2 ^ k - 1) with (Z.ones k) by (rewrite Z.ones_equiv; lia).
  apply Z.land_ones. lia.
Qed.

(** The position is a multiple of [al], but it is below [offset] when
    [offset] is misaligned and larger than [al]. *)
Lemma aligned_multiple : 0 <= aligned < 2 ^ 62 /\ aligned mod al = 0.
Proof.
  pose proof al_range as Hr. destruct Hwf as (_ & _ & _ & Ho & _).
  unfold aligned, aligned_position. rewrite tail_value.
  destruct (Z.eqb_spec (offset arena mod al) 0) as [E|E].
  - split; [lia|exact E].
  - split; [lia|]. apply Z.mod_same. lia.
Qed.

(** The alignment arithmetic of [ArenaAllocAligned], carried out. *)
Lemma ArenaAllocAligned_unfold :
  ArenaAllocAligned m arena size al
  = ('(m, arena, result) ←
       (if aligned + size >? cap ch then
          '(m, arena) ← __ArenaNextChunk m (arena_at arena c (aligned + size)) bytes;
          ch ← current_chunk arena;
          Ok (m, arena, buffer ch)
        else Ok (m, arena_at arena c (aligned + size), ptr_add (buffer ch) aligned));
     m ← (if size =? 0 then Ok m else memset m result "000"%byte size);
     Ok (m, arena, result)).
Proof.
  pose proof al_range as Hr. pose proof aligned_multiple as [Ha _].
  pose proof Hwf as (_ & _ & _ & Ho & _).
  unfold ArenaAllocAligned. rewrite (size_t_small (al - 1)) by lia.
  rewrite tail_value.
  assert (Hmod : 0 <= offset arena mod al < al) by (apply Z.mod_pos_bound; lia).
  rewrite (intptr_t_small (offset arena mod al)) by lia.
  assert (Hcalc : intptr_t (if negb (offset arena mod al =? 0)
                           then size_t (size_t (offset arena + al) - offset arena)
                           else offset arena) = aligned).
  { unfold aligned, aligned_position. rewrite tail_value.
    destruct (Z.eqb_spec (offset arena mod al) 0); simpl negb; cbv iota.
    - apply intptr_t_small. lia.
    - rewrite (size_t_small (offset arena + al)) by lia.
      replace (offset arena + al - offset arena) with al by lia.
      rewrite size_t_small by lia. apply intptr_t_small. lia. }
  rewrite Hcalc. rewrite (size_t_small (aligned + size)) by lia.
  destruct arena as [cs cur off rt csz]. simpl in Hc, Hch. subst cur.
  cbn [chunks current offset chunkSize root].
  assert (E : current_chunk {| chunks := cs; current := Some c; offset := aligned + size;
                               root := rt; chunkSize := csz |} = Ok ch)
    by (unfold current_chunk; simpl; rewrite Hch; reflexivity).
  rewrite E. reflexivity.
Qed.

(** For every request with [size > 0] and [al] a power of two the call
    returns a region of a chunk whose position is a multiple of [al] and
    whose [size] bytes are zero. The position is [aligned], not [offset]
    rounded up, when the request is served in the current chunk, and
    [offset] ends at [aligned + size] whichever chunk serves it. *)
Lemma ArenaAllocAligned_aligned_zeroed :
  exists m' arena' blk off,
    ArenaAllocAligned m arena size al = Ok (m', arena', Ptr blk off)
    /\ (off - sizeof_ArenaChunk) mod al = 0
    /\ load m' (Ptr blk off) size = Ok (replicate (Z.to_nat size) "000"%byte)
    /\ offset arena' = aligned + size
    /\ (aligned + size <= cap ch ->
        arena' = arena_at arena c (aligned + size)
        /\ blk = base ch /\ off = sizeof_ArenaChunk + aligned)
    /\ (cap ch < aligned + size -> off = sizeof_ArenaChunk).
Proof.
  pose proof al_range as Hr. pose proof aligned_multiple as [Ha Hmult].
  pose proof Hwf as (_ & Hchunks & _ & Hoffset & Hcs).
  assert (Hbytes : size <= bytes < 2 ^ 62).
  { unfold bytes. destruct (Z.gtb_spec size (chunkSize arena)); lia. }
  rewrite ArenaAllocAligned_unfold.
  destruct (Z.gtb_spec (aligned + size) (cap ch)) as [Hover|Hfit].
  - destruct (next_fit (drop (S c) (chunks arena)) (S c) bytes) as [j|] eqn:Hnext.
    + pose proof (next_fit_Some _ _ _ _ Hnext) as (Hle & chj & Hj & Hcap).
      rewrite lookup_drop in Hj. replace (S c + (j - S c))%nat with j in Hj by lia.
      destruct (Hchunks j chj Hj) as [Hbs Hcapj].
      rewrite (NextChunk_reuse m (arena_at arena c (aligned + size)) c j bytes)
        by (simpl; auto).
      mstep.
      change (current_chunk _) with (current_chunk (arena_at arena j (aligned + size))).
      rewrite (current_chunk_at arena j (aligned + size) chj Hj). do 2 mstep.
      destruct (Z.eqb_spec size 0); [lia|]. unfold buffer.
      destruct (memset_Ok m (Ptr (base chj) sizeof_ArenaChunk) "000"%byte size)
        as (m' & Hm' & Hzero & _).
      { exists (sizeof_ArenaChunk + cap chj). unfold sizeof_ArenaChunk in *.
        repeat split; auto; lia. }
      rewrite Hm'. mstep. do 4 eexists. split; [reflexivity|].
      rewrite Z.sub_diag. split; [apply Z.mod_0_l; lia|]. split; [exact Hzero|].
      split; [reflexivity|]. split; [lia|reflexivity].
    + rewrite (NextChunk_new m (arena_at arena c (aligned + size)) c bytes)
        by (simpl; auto; lia).
      mstep.
      change (current_chunk _) with
        (current_chunk (arena_grown arena (length (blocks m)) bytes (aligned + size))).
      rewrite current_chunk_grown. do 2 mstep.
      destruct (Z.eqb_spec size 0); [lia|]. unfold buffer. cbn [base].
      destruct (memset_Ok (mem_grown m (sizeof_ArenaChunk + bytes))
                  (Ptr (length (blocks m)) sizeof_ArenaChunk) "000"%byte size)
        as (m' & Hm' & Hzero & _).
      { exists (sizeof_ArenaChunk + bytes). unfold mem_grown.
        rewrite block_size_Malloc by (unfold sizeof_ArenaChunk; lia).
        destruct (decide _); [|congruence].
        unfold sizeof_ArenaChunk in *. repeat split; auto; lia. }
      rewrite Hm'. mstep. do 4 eexists. split; [reflexivity|].
      rewrite Z.sub_diag. split; [apply Z.mod_0_l; lia|]. split; [exact Hzero|].
      split; [reflexivity|]. split; [lia|reflexivity].
  - mstep. destruct (Z.eqb_spec size 0); [lia|]. unfold buffer, ptr_add.
    destruct (Hchunks c ch Hch) as [Hbs Hcap].
    destruct (memset_Ok m (Ptr (base ch) (sizeof_ArenaChunk + aligned)) "000"%byte size)
      as (m' & Hm' & Hzero & _).
    { exists (sizeof_ArenaChunk + cap ch). unfold sizeof_ArenaChunk in *.
      repeat split; auto; lia. }
    rewrite Hm'. mstep. do 4 eexists. split; [reflexivity|].
    replace (sizeof_ArenaChunk + aligned - sizeof_ArenaChunk) with aligned by lia.
    split; [exact Hmult|]. split; [exact Hzero|]. split; [reflexivity|].
    split; [auto|lia].
Qed.
End AllocAligned.

(** ** The statements at concrete inputs *)

(** Every region that is readable when an arena is created is live for
    that arena, and keeps its content. *)
Lemma ArenaCreate_live (m : Mem) (size : Z) :
  0 < size < 2 ^ 62 ->
  exists m' arena,
    ArenaCreate m size = Ok (m', arena)
    /\ arena_wf m' arena
    /\ offset arena = 0
    /\ (forall blk off n, readable m (Ptr blk off) n ->
          live m' arena (Ptr blk off) n
          /\ load m' (Ptr blk off) n = load m (Ptr blk off) n).
Proof.
  intros Hsize.
  destruct (ArenaCreate_ok m size Hsize) as (m' & Hc & Hwf & _ & Hload & Hbs).
  eexists m', _. split; [exact Hc|]. split; [exact Hwf|]. split; [reflexivity|].
  intros blk off n (sz & Hsz & Hr).
  pose proof (block_size_lt _ _ _ Hsz) as Hlt.
  split; [|apply Hload; exact Hlt]. split.
  - exists sz. rewrite Hbs by exact Hlt. auto.
  - intros [|i] ch Hi Hbase; simpl in Hi; [|discriminate].
    injection Hi as <-. simpl in Hbase. lia.
Qed.

(** [StrTrim] on the literal ["  a  "]. *)
Lemma StrTrim_idempotent_witness :
  (0 <= 5 < 2 ^ 62
   /\ (5 = 0 \/ readable (static_mem [literal "  a  "]) (Ptr 0 0) (5 + 1)))
  /\ exists m' str',
       StrTrim (static_mem [literal "  a  "]) (StrLit 0 "  a  ") = Ok (m', str')
       /\ StrTrim m' str' = Ok (m', str').
Proof.
  assert (H1 : 0 <= 5 < 2 ^ 62) by lia.
  assert (H2 : 5 = 0 \/ readable (static_mem [literal "  a  "]) (Ptr 0 0) (5 + 1)).
  { right. exists 6. split; [reflexivity|]. lia. }
  split; [split; assumption|].
  exact (StrTrim_idempotent (static_mem [literal "  a  "]) (StrLit 0 "  a  ") H1 H2).
Defined.

(** [StrConcat] of the literals ["foo"] and ["bar"] on a fresh arena. *)
Lemma StrConcat_bytes_witness :
  match ArenaCreate (static_mem [literal "foo"; literal "bar"]) 64 with
  | Ok (m, arena) =>
      (arena_wf m arena
       /\ StrIsNull (StrLit 0 "foo") = false /\ StrIsNull (StrLit 1 "bar") = false
       /\ live m arena (Ptr 0 0) 3 /\ live m arena (Ptr 1 0) 3
       /\ 3 + 3 < 2 ^ 62 - 1
       /\ offset arena + 3 + 3 + 1 < 2 ^ 63)
      /\ exists m' arena' result bytes1 bytes2,
           StrConcat m arena (StrLit 0 "foo") (StrLit 1 "bar") = Ok (m', arena', result)
           /\ str_bytes m (StrLit 0 "foo") = Ok bytes1
           /\ str_bytes m (StrLit 1 "bar") = Ok bytes2
           /\ str_length result = 3 + 3
           /\ str_bytes m' result = Ok (bytes1 ++ bytes2)
           /\ load m' (ptr_add (str_data result) (str_length result)) 1 = Ok ["000"%byte]
  | Err _ => False
  end.
Proof.
  destruct (ArenaCreate_live (static_mem [literal "foo"; literal "bar"]) 64)
    as (m & arena & Hc & Hwf & Ho & Hlive); [lia|].
  rewrite Hc.
  assert (Hl1 : live m arena (Ptr 0 0) 3).
  { apply Hlive. exists 4. split; [reflexivity|]. lia. }
  assert (Hl2 : live m arena (Ptr 1 0) 3).
  { apply Hlive. exists 4. split; [reflexivity|]. lia. }
  assert (Hlen : 3 + 3 < 2 ^ 62 - 1) by lia.
  assert (Hoff : offset arena + 3 + 3 + 1 < 2 ^ 63) by (rewrite Ho; lia).
  split; [exact (conj Hwf (conj eq_refl (conj eq_refl (conj Hl1 (conj Hl2 (conj Hlen Hoff))))))|].
  exact (StrConcat_bytes m arena (StrLit 0 "foo") (StrLit 1 "bar") Hwf eq_refl eq_refl
           Hl1 Hl2 Hlen Hoff).
Defined.

(** [StrSplit] of the literal ["a,b,,c"] by [","] on a fresh arena. *)
Lemma StrSplit_join_witness :
  match ArenaCreate (static_mem [literal "a,b,,c"; literal ","]) 64 with
  | Ok (m, arena) =>
      (arena_wf m arena
       /\ live m arena (Ptr 0 0) (6 + 1) /\ live m arena (Ptr 1 0) 1
       /\ str_bytes m (StrLit 0 "a,b,,c") = Ok (list_byte_of_string "a,b,,c")
       /\ str_bytes m (StrLit 1 ",") = Ok (list_byte_of_string ",")
       /\ 0 < 1 /\ 0 <= 6 < 2 ^ 30
       /\ offset arena + 6 + 1 < 2 ^ 63)
      /\ exists tokens,
           split_tokens m arena (StrLit 0 "a,b,,c") (StrLit 1 ",") = Ok tokens
           /\ (join (list_byte_of_string ",") tokens = list_byte_of_string "a,b,,c"
               \/ join (list_byte_of_string ",") tokens ++ list_byte_of_string ","
                  = list_byte_of_string "a,b,,c")
           /\ (~ list_byte_of_string "," `suffix_of` list_byte_of_string "a,b,,c" ->
               join (list_byte_of_string ",") tokens = list_byte_of_string "a,b,,c")
  | Err _ => False
  end.
Proof.
  destruct (ArenaCreate_live (static_mem [literal "a,b,,c"; literal ","]) 64)
    as (m & arena & Hc & Hwf & Ho & Hlive); [lia|].
  rewrite Hc.
  destruct (Hlive 0%nat 0 (6 + 1)) as [Hl1 _]; [exists 7; split; [reflexivity|lia]|].
  destruct (Hlive 1%nat 0 1) as [Hl2 Hd]; [exists 2; split; [reflexivity|lia]|].
  destruct (Hlive 0%nat 0 6) as [_ Hs]; [exists 7; split; [reflexivity|lia]|].
  assert (Hs' : str_bytes m (StrLit 0 "a,b,,c") = Ok (list_byte_of_string "a,b,,c"))
    by exact Hs.
  assert (Hd' : str_bytes m (StrLit 1 ",") = Ok (list_byte_of_string ","))
    by exact Hd.
  assert (Hdn : 0 < 1) by lia.
  assert (Hn : 0 <= 6 < 2 ^ 30) by lia.
  assert (Hoff : offset arena + 6 + 1 < 2 ^ 63) by (rewrite Ho; lia).
  split; [exact (conj Hwf (conj Hl1 (conj Hl2 (conj Hs' (conj Hd' (conj Hdn (conj Hn Hoff)))))))|].
  exact (StrSplit_join m arena (StrLit 0 "a,b,,c") (StrLit 1 ",") _ _
           Hwf Hl1 Hl2 Hs' Hd' Hdn Hn Hoff).
Defined.

(** ** The other vector macros *)

Section VectorOpsFacts.
Context {T : Type}.
Variable elem_size : Z.
Hypothesis elem_size_pos : 0 < elem_size.
Hypothesis elem_size_small : elem_size <= 2 ^ 32.

Implicit Types (v : Vec T) (x : T) (l : list T).

Lemma vec_elems_length v l :
  vec_wf v -> vec_elems v = Some l -> Z.of_nat (length l) = vec_length v.
Proof.
  intros Hwf He. pose proof Hwf as [Hs Hl].
  apply vec_elems_spec in He; [|exact Hwf].
  apply (f_equal length) in He. rewrite length_take, length_map in He. lia.
Qed.

Lemma vec_elems_lookup v l (i : nat) x :
  vec_wf v -> vec_elems v = Some l -> l !! i = Some x ->
  default [] (vec_data v) !! i = Some (Some x).
Proof.
  intros Hwf He Hi. apply vec_elems_spec in He; [|exact Hwf].
  assert (H : take (Z.to_nat (vec_length v)) (default [] (vec_data v)) !! i
              = Some (Some x)).
  { rewrite He, list_lookup_fmap, Hi. reflexivity. }
  apply lookup_take_Some in H. tauto.
Qed.

Lemma slot_read_elem v l (i : Z) x :
  vec_wf v -> vec_elems v = Some l -> 0 <= i -> l !! Z.to_nat i = Some x ->
  slot_read (vec_data v) i = Ok (Some x).
Proof.
  intros Hwf He Hi Hx.
  pose proof (vec_elems_lookup v l _ x Hwf He Hx) as Hs.
  destruct (vec_data v) as [slots|]; simpl in *; [|discriminate].
  unfold slot_read. apply lookup_lt_Some in Hs as Hlt.
  destruct (Z.leb_spec 0 i); [|lia].
  destruct (Z.ltb_spec i (Z.of_nat (length slots))); [|lia].
  simpl. rewrite Hs. reflexivity.
Qed.


(** The growth step leaves a buffer with a free slot after the elements. *)
Lemma vec_make_room_spec v l :
  vec_wf v -> vec_elems v = Some l -> vec_capacity v <= INT32_MAX ->
  (vec_length v = vec_capacity v -> vec_capacity v * 2 <= INT32_MAX) ->
  exists slots reallocs,
    vec_make_room elem_size v
    = Ok ({| vec_data := Some slots; vec_length := vec_length v;
             vec_capacity := Z.of_nat (length slots) |}, reallocs)
    /\ vec_length v < Z.of_nat (length slots) <= INT32_MAX
    /\ take (Z.to_nat (vec_length v)) slots = map Some l
    /\ Z.of_nat (length slots)
       = (if vec_length v <? vec_capacity v then vec_capacity v
          else if vec_capacity v =? 0 then 2 else vec_capacity v * 2).
Proof.
  intros Hwf He Hc Hg. pose proof Hwf as [Hs Hl].
  apply vec_elems_spec in He; [|exact Hwf].
  unfold vec_make_room.
  destruct (Z.ltb_spec (vec_length v) (vec_capacity v)) as [Hlt|Hge].
  - destruct (Z.geb_spec (vec_length v) (vec_capacity v)); [lia|].
    destruct (vec_data v) as [slots|] eqn:Hd; simpl in *; [|lia].
    exists slots, []. rewrite Hs. split; [|split; [lia|split; [exact He|reflexivity]]].
    destruct v; simpl in *; subst; reflexivity.
  - destruct (Z.geb_spec (vec_length v) (vec_capacity v)); [|lia].
    set (c := if vec_capacity v =? 0 then 2 else vec_capacity v * 2).
    assert (Hcbig : vec_capacity v < c <= INT32_MAX).
    { unfold c, INT32_MAX in *. destruct (Z.eqb_spec (vec_capacity v) 0); lia. }
    assert (Hcap : (if vec_capacity v =? 0 then Ok 2 else i32 (vec_capacity v * 2))
                   = Ok c).
    { unfold c in *. destruct (Z.eqb_spec (vec_capacity v) 0); [reflexivity|].
      apply i32_in_range. unfold INT32_MIN, INT32_MAX in *. lia. }
    rewrite Hcap. mstep.
    rewrite (Realloc_grow elem_size elem_size_pos elem_size_small) by lia. mstep.
    eexists _, _. split; [|split; [|split]].
    + f_equal. f_equal. f_equal. rewrite length_app, length_replicate. lia.
    + rewrite length_app, length_replicate. lia.
    + rewrite take_app_le by lia. exact He.
    + rewrite length_app, length_replicate. lia.
Qed.


(** X5. [VecUnshift] puts the value in front of the elements; a full vector
    first grows, to capacity 2 when it had none and to twice its capacity
    otherwise. *)
Theorem VecUnshift_prepends v l x :
  vec_wf v -> vec_elems v = Some l -> vec_capacity v <= INT32_MAX ->
  (vec_length v = vec_capacity v -> vec_capacity v * 2 <= INT32_MAX) ->
  exists v' reallocs,
    VecUnshift elem_size v x = Ok (v', reallocs)
    /\ vec_wf v' /\ vec_elems v' = Some (x :: l)
    /\ vec_length v' = vec_length v + 1
    /\ vec_capacity v' = (if vec_length v <? vec_capacity v then vec_capacity v
                          else if vec_capacity v =? 0 then 2 else vec_capacity v * 2).
Proof.
  intros Hwf He Hc Hg. pose proof Hwf as [Hs Hl].
  destruct (vec_make_room_spec v l Hwf He Hc Hg)
    as (slots & reallocs & Hroom & Hlen & Htake & Hcap).
  unfold VecUnshift. rewrite Hroom. mstep. simpl.
  set (len := vec_length v) in *.
  assert (Hmove : exists slots',
             (if len >? 0
              then slots_move elem_size (Some slots) 1 0 (size_t (len * elem_size))
              else Ok (Some slots)) = Ok (Some slots')
             /\ length slots' = length slots
             /\ take (Z.to_nat len) (drop 1 slots') = map Some l).
  { destruct (Z.gtb_spec len 0) as [Hpos|Hzero].
    - unfold slots_move. rewrite size_t_small by (unfold INT32_MAX in *; nia).
      destruct (Z.eqb_spec (len * elem_size) 0); [nia|].
      rewrite Z.div_mul by lia.
      destruct (Z.leb_spec (1 + len) (Z.of_nat (length slots))); [|lia].
      destruct (Z.leb_spec (0 + len) (Z.of_nat (length slots))); [|lia].
      simpl. eexists. split; [reflexivity|].
      destruct slots as [|s0 rest]; [simpl in *; lia|]. simpl. split.
      + rewrite length_app, length_take, length_drop. simpl in *. lia.
      + rewrite drop_0, take_app_length' by (rewrite length_take; simpl in *; lia).
        exact Htake.
    - exists slots. split; [reflexivity|]. split; [reflexivity|].
      replace (Z.to_nat len) with 0%nat in * by lia.
      rewrite take_0 in *. exact Htake. }
  destruct Hmove as (slots' & -> & Hlen' & Htake'). mstep.
  unfold slot_write.
  destruct (Z.ltb_spec 0 (Z.of_nat (length slots'))); [|lia].
  simpl. rewrite i32_in_range by (unfold INT32_MIN, INT32_MAX in *; lia).
  simpl. eexists _, _. split; [reflexivity|].
  assert (Hwf' : vec_wf {| vec_data := Some (<[0%nat := Some x]> slots');
                           vec_length := len + 1;
                           vec_capacity := Z.of_nat (length slots) |}).
  { unfold vec_wf. simpl. rewrite length_insert. lia. }
  split; [exact Hwf'|]. split; [|split; [reflexivity|exact Hcap]].
  apply vec_elems_spec; [exact Hwf'|]. simpl.
  destruct slots' as [|s0 rest]; [simpl in *; lia|]. simpl.
  replace (Z.to_nat (len + 1)) with (S (Z.to_nat len)) by lia.
  simpl in *. rewrite drop_0 in Htake'. rewrite Htake'. reflexivity.
Qed.

(** Shifting a tail one slot up and writing into the gap inserts. *)
Lemma insert_shifted {A : Type} (a b : list A) (y : A) (i : nat) :
  (i < length a)%nat ->
  take (S (length a))
       (<[i := y]> (take (S i) (a ++ b)
                    ++ take (length a - i) (drop i (a ++ b))
                    ++ drop (S (length a)) (a ++ b)))
  = take i a ++ y :: drop i a.
Proof.
  intros Hi.
  rewrite take_app_le, drop_app_le by lia.
  rewrite (take_app_length' (drop i a)) by (rewrite length_drop; lia).
  destruct (lookup_lt_is_Some_2 a i Hi) as [ai Hai].
  rewrite (take_S_r _ _ ai Hai).
  rewrite insert_app_l by (rewrite length_app, length_take; simpl; lia).
  rewrite insert_app_r_alt by (rewrite length_take; lia).
  rewrite length_take. replace (i - i `min` length a)%nat with 0%nat by lia.
  simpl. rewrite (app_assoc _ (drop i a)).
  rewrite take_app_length'.
  - rewrite <- app_assoc. reflexivity.
  - rewrite !length_app, length_take, length_drop. simpl. lia.
Qed.

(** X6. [VecInsert] at an index between 0 and the length places the value
    at that index: the elements before it stay, the ones from it on move up
    by one. *)
Theorem VecInsert_inserts v l x (index : Z) :
  vec_wf v -> vec_elems v = Some l -> vec_capacity v <= INT32_MAX ->
  (vec_length v = vec_capacity v -> vec_capacity v * 2 <= INT32_MAX) ->
  0 <= index <= vec_length v ->
  exists v' reallocs,
    VecInsert elem_size v x index = Ok (v', reallocs)
    /\ vec_wf v'
    /\ vec_elems v' = Some (take (Z.to_nat index) l ++ x :: drop (Z.to_nat index) l)
    /\ vec_length v' = vec_length v + 1.
Proof.
  intros Hwf He Hc Hg Hi. pose proof Hwf as [Hs Hl].
  pose proof (vec_elems_length v l Hwf He) as Hll.
  destruct (vec_make_room_spec v l Hwf He Hc Hg)
    as (slots & reallocs & Hroom & Hlen & Htake & Hcap).
  unfold VecInsert.
  destruct (Z.leb_spec index (vec_length v)); [|lia].
  rewrite assert_true. mstep. rewrite Hroom. mstep. simpl.
  set (len := vec_length v) in *.
  rewrite (i32_in_range (len - index)), (i32_in_range (len + 1))
    by (unfold INT32_MIN, INT32_MAX in *; lia).
  mstep.
  assert (Hmove : exists slots',
             slots_move elem_size (Some slots) (index + 1) index
               (size_t ((len - index) * elem_size)) = Ok (Some slots')
             /\ length slots' = length slots
             /\ take (S (Z.to_nat len)) (<[Z.to_nat index := Some x]> slots')
                = map Some (take (Z.to_nat index) l ++ x :: drop (Z.to_nat index) l)).
  { unfold slots_move. rewrite size_t_small by (unfold INT32_MAX in *; nia).
    destruct (Z.eqb_spec ((len - index) * elem_size) 0) as [Hz|Hnz].
    - assert (index = len) as -> by nia.
      exists slots. split; [reflexivity|]. split; [reflexivity|].
      rewrite (take_S_r _ _ (Some x)) by (apply list_lookup_insert_eq; lia).
      rewrite take_insert_ge by lia. rewrite Htake.
      rewrite take_ge, drop_ge by lia. rewrite map_app. reflexivity.
    - assert (index < len) by nia.
      rewrite Z.div_mul by lia.
      destruct (Z.leb_spec 0 (index + 1)); [|lia].
      destruct (Z.leb_spec 0 index); [|lia].
      destruct (Z.leb_spec (index + 1 + (len - index)) (Z.of_nat (length slots))); [|lia].
      destruct (Z.leb_spec (index + (len - index)) (Z.of_nat (length slots))); [|lia].
      simpl. eexists. split; [reflexivity|].
      split.
      { rewrite !length_app, !length_take, !length_drop. lia. }
      pose proof (insert_shifted (take (Z.to_nat len) slots)
                    (drop (Z.to_nat len) slots) (Some x) (Z.to_nat index)) as Hins.
      rewrite take_drop, length_take in Hins.
      replace (Z.to_nat len `min` length slots)%nat with (Z.to_nat len) in Hins by lia.
      replace (Z.to_nat (index + 1)) with (S (Z.to_nat index)) by lia.
      replace (Z.to_nat (len - index)) with (Z.to_nat len - Z.to_nat index)%nat by lia.
      replace (Z.to_nat (index + 1 + (len - index))) with (S (Z.to_nat len)) by lia.
      rewrite Hins by lia. rewrite Htake.
      rewrite map_app, <- fmap_take. simpl. rewrite <- fmap_drop.
      reflexivity. }
  destruct Hmove as (slots' & -> & Hlen' & Htake'). mstep.
  unfold slot_write.
  destruct (Z.leb_spec 0 index); [|lia].
  destruct (Z.ltb_spec index (Z.of_nat (length slots'))); [|lia].
  simpl. eexists _, _. split; [reflexivity|].
  assert (Hwf' : vec_wf {| vec_data := Some (<[Z.to_nat index := Some x]> slots');
                           vec_length := len + 1;
                           vec_capacity := Z.of_nat (length slots) |}).
  { unfold vec_wf. simpl. rewrite length_insert. lia. }
  split; [exact Hwf'|]. split; [|reflexivity].
  apply vec_elems_spec; [exact Hwf'|]. simpl.
  replace (Z.to_nat (len + 1)) with (S (Z.to_nat len)) by lia.
  exact Htake'.
Qed.

(** X7. [VecAt] at an index below the length yields the element at that
    index. *)
Theorem VecAt_reads v l (index : Z) :
  vec_wf v -> vec_elems v = Some l -> 0 <= index < vec_length v ->
  exists x, l !! Z.to_nat index = Some x /\ VecAt v index = Ok (Some x).
Proof.
  intros Hwf He Hi. pose proof (vec_elems_length v l Hwf He) as Hll.
  destruct (lookup_lt_is_Some_2 l (Z.to_nat index)) as [x Hx]; [lia|].
  exists x. split; [exact Hx|]. unfold VecAt.
  destruct (Z.geb_spec index 0); [|lia].
  destruct (Z.ltb_spec index (vec_length v)); [|lia].
  rewrite assert_true. simpl.
  apply (slot_read_elem v l); auto; lia.
Qed.

(** X1. [VecPush] on a well-formed vector appends the value: the elements
    become [l ++ [x]], the length grows by one and the vector stays
    well-formed, whether or not the buffer had to grow. *)
Theorem VecPush_appends v l x :
  vec_wf v -> vec_elems v = Some l -> vec_capacity v <= INT32_MAX ->
  (vec_length v = vec_capacity v -> grown (vec_capacity v) <= INT32_MAX) ->
  exists v' reallocs,
    VecPush elem_size v x = Ok (v', reallocs)
    /\ vec_wf v' /\ vec_elems v' = Some (l ++ [x])
    /\ vec_length v' = vec_length v + 1.
Proof.
  intros Hwf He Hc Hg.
  destruct (VecPush_spec elem_size elem_size_pos elem_size_small v x l Hwf He Hc Hg)
    as (v' & Hp & Hwf' & He' & Hl' & _).
  eauto 8.
Qed.



(** X8. The bounds the macros assert: [VecPop] and [VecShift] on an empty
    vector, [VecAt] at an index outside [0, length) and [VecInsert] at an
    index above the length abort on their assertion. *)
Theorem Vec_bounds_asserted v x (index : Z) :
  (vec_length v <= 0 ->
   VecPop v = Err (AssertFailed "VecPop: Cannot pop from empty vector"))
  /\ (vec_length v = 0 ->
      VecShift elem_size v
      = Err (AssertFailed "VecShift: Length should at least be >= 1"))
  /\ (~ 0 <= index < vec_length v ->
      VecAt v index = Err (AssertFailed "VecAt: Index out of bounds"))
  /\ (vec_length v < index ->
      VecInsert elem_size v x index
      = Err (AssertFailed "VecInsert: Index out of bounds for insertion")).
Proof.
  split; [|split; [|split]].
  - intros H. unfold VecPop. destruct (Z.gtb_spec (vec_length v) 0); [lia|reflexivity].
  - intros H. unfold VecShift. rewrite H. reflexivity.
  - intros H. unfold VecAt.
    destruct (Z.geb_spec index 0); destruct (Z.ltb_spec index (vec_length v));
      try reflexivity; lia.
  - intros H. unfold VecInsert.
    destruct (Z.leb_spec index (vec_length v)); [lia|reflexivity].
Qed.

(** X9. [VecFree] clears [data] only: the length and the capacity stay. A
    second [VecFree] aborts on its assertion, and a [VecPush] into the freed
    vector, when its length is below its capacity, writes through the null
    pointer. *)
Theorem VecFree_keeps_length v x :
  vec_data v <> None ->
  exists v',
    VecFree v = Ok v'
    /\ vec_data v' = None
    /\ vec_length v' = vec_length v
    /\ vec_capacity v' = vec_capacity v
    /\ VecFree v' = Err (AssertFailed "VecFree: Vector data should never be NULL")
    /\ (vec_length v < vec_capacity v -> VecPush elem_size v' x = Err NullDeref).
Proof.
  intros Hd. unfold VecFree at 1. rewrite bool_decide_eq_true_2 by exact Hd.
  rewrite assert_true. mstep. eexists. split; [reflexivity|].
  split; [reflexivity|]. split; [reflexivity|]. split; [reflexivity|].
  split; [reflexivity|]. intros Hlt. unfold VecPush. simpl.
  destruct (Z.leb_spec (vec_length v) (vec_capacity v)); [|lia].
  rewrite assert_true. mstep.
  destruct (Z.geb_spec (vec_length v) (vec_capacity v)); [lia|]. reflexivity.
Qed.
End VectorOpsFacts.

(** The statements above at vectors of integers with 8-byte elements. *)
Lemma VecPush_appends_witness :
  (0 < 8 /\ 8 <= 2 ^ 32)
  /\ (vec_wf (@VecZero Z) /\ vec_elems (@VecZero Z) = Some []
      /\ vec_capacity (@VecZero Z) <= INT32_MAX
      /\ (vec_length (@VecZero Z) = vec_capacity (@VecZero Z) ->
          grown (vec_capacity (@VecZero Z)) <= INT32_MAX))
  /\ exists v' reallocs,
       VecPush 8 VecZero 7 = Ok (v', reallocs)
       /\ vec_wf v' /\ vec_elems v' = Some ([] ++ [7])
       /\ vec_length v' = vec_length (@VecZero Z) + 1.
Proof.
  assert (H1 : 0 < 8) by lia. assert (H2 : 8 <= 2 ^ 32) by lia.
  assert (Hwf : vec_wf (@VecZero Z)) by (unfold vec_wf; simpl; lia).
  assert (He : vec_elems (@VecZero Z) = Some []) by reflexivity.
  assert (Hc : vec_capacity (@VecZero Z) <= INT32_MAX) by (vm_compute; discriminate).
  assert (Hg : vec_length (@VecZero Z) = vec_capacity (@VecZero Z) ->
               grown (vec_capacity (@VecZero Z)) <= INT32_MAX)
    by (intros _; vm_compute; discriminate).
  split; [split; assumption|]. split; [auto|].
  exact (VecPush_appends 8 H1 H2 VecZero [] 7 Hwf He Hc Hg).
Defined.




Lemma VecUnshift_prepends_witness :
  (0 < 8 /\ 8 <= 2 ^ 32)
  /\ (vec_wf {| vec_data := Some [Some 1; Some 2]; vec_length := 2; vec_capacity := 2 |}
      /\ vec_elems {| vec_data := Some [Some 1; Some 2];
                      vec_length := 2; vec_capacity := 2 |} = Some [1; 2]
      /\ 2 <= INT32_MAX
      /\ (2 = 2 -> 2 * 2 <= INT32_MAX))
  /\ exists v' reallocs,
       VecUnshift 8 {| vec_data := Some [Some 1; Some 2];
                       vec_length := 2; vec_capacity := 2 |} 0 = Ok (v', reallocs)
       /\ vec_wf v' /\ vec_elems v' = Some [0; 1; 2]
       /\ vec_length v' = 2 + 1
       /\ vec_capacity v' = 4.
Proof.
  assert (H1 : 0 < 8) by lia. assert (H2 : 8 <= 2 ^ 32) by lia.
  assert (Hwf : vec_wf {| vec_data := Some [Some 1; Some 2];
                          vec_length := 2; vec_capacity := 2 |})
    by (unfold vec_wf; simpl; lia).
  assert (Hc : 2 <= INT32_MAX) by (vm_compute; discriminate).
  assert (Hg : 2 = 2 -> 2 * 2 <= INT32_MAX) by (intros _; vm_compute; discriminate).
  split; [split; assumption|].
  split; [split; [exact Hwf|split; [reflexivity|split; [exact Hc|exact Hg]]]|].
  exact (VecUnshift_prepends 8 H1 H2 _ [1; 2] 0 Hwf eq_refl Hc Hg).
Defined.

Lemma VecInsert_inserts_witness :
  (0 < 8 /\ 8 <= 2 ^ 32)
  /\ (vec_wf {| vec_data := Some [Some 1; Some 2; Some 3; None];
                vec_length := 3; vec_capacity := 4 |}
      /\ vec_elems {| vec_data := Some [Some 1; Some 2; Some 3; None];
                      vec_length := 3; vec_capacity := 4 |} = Some [1; 2; 3]
      /\ 4 <= INT32_MAX
      /\ (3 = 4 -> 4 * 2 <= INT32_MAX)
      /\ 0 <= 1 <= 3)
  /\ exists v' reallocs,
       VecInsert 8 {| vec_data := Some [Some 1; Some 2; Some 3; None];
                      vec_length := 3; vec_capacity := 4 |} 9 1 = Ok (v', reallocs)
       /\ vec_wf v'
       /\ vec_elems v' = Some [1; 9; 2; 3]
       /\ vec_length v' = 3 + 1.
Proof.
  assert (H1 : 0 < 8) by lia. assert (H2 : 8 <= 2 ^ 32) by lia.
  assert (Hwf : vec_wf {| vec_data := Some [Some 1; Some 2; Some 3; None];
                          vec_length := 3; vec_capacity := 4 |})
    by (unfold vec_wf; simpl; lia).
  assert (Hc : 4 <= INT32_MAX) by (vm_compute; discriminate).
  assert (Hg : 3 = 4 -> 4 * 2 <= INT32_MAX) by (intros _; vm_compute; discriminate).
  assert (Hi : 0 <= 1 <= 3) by lia.
  split; [split; assumption|].
  split; [split; [exact Hwf|split; [reflexivity|split; [exact Hc|split; [exact Hg|exact Hi]]]]|].
  exact (VecInsert_inserts 8 H1 H2 _ [1; 2; 3] 9 1 Hwf eq_refl Hc Hg Hi).
Defined.

Lemma VecAt_reads_witness :
  (vec_wf {| vec_data := Some [Some 1; Some 2; Some 3; None];
             vec_length := 3; vec_capacity := 4 |}
   /\ vec_elems {| vec_data := Some [Some 1; Some 2; Some 3; None];
                   vec_length := 3; vec_capacity := 4 |} = Some [1; 2; 3]
   /\ 0 <= 2 < 3)
  /\ exists x, [1; 2; 3] !! Z.to_nat 2 = Some x
       /\ VecAt {| vec_data := Some [Some 1; Some 2; Some 3; None];
                   vec_length := 3; vec_capacity := 4 |} 2 = Ok (Some x).
Proof.
  assert (Hwf : vec_wf {| vec_data := Some [Some 1; Some 2; Some 3; None];
                          vec_length := 3; vec_capacity := 4 |})
    by (unfold vec_wf; simpl; lia).
  assert (Hi : 0 <= 2 < 3) by lia.
  split; [split; [exact Hwf|split; [reflexivity|exact Hi]]|].
  exact (VecAt_reads _ [1; 2; 3] 2 Hwf eq_refl Hi).
Defined.

Lemma Vec_bounds_asserted_witness :
  (vec_length (@VecZero Z) <= 0 /\ vec_length (@VecZero Z) = 0
   /\ ~ 0 <= 1 < vec_length (@VecZero Z) /\ vec_length (@VecZero Z) < 1)
  /\ VecPop (@VecZero Z) = Err (AssertFailed "VecPop: Cannot pop from empty vector")
  /\ VecShift 8 (@VecZero Z)
     = Err (AssertFailed "VecShift: Length should at least be >= 1")
  /\ VecAt (@VecZero Z) 1 = Err (AssertFailed "VecAt: Index out of bounds")
  /\ VecInsert 8 (@VecZero Z) 5 1
     = Err (AssertFailed "VecInsert: Index out of bounds for insertion").
Proof.
  destruct (Vec_bounds_asserted 8 (@VecZero Z) 5 1) as (Hpop & Hshift & Hat & Hins).
  assert (G1 : vec_length (@VecZero Z) <= 0) by (simpl; lia).
  assert (G2 : vec_length (@VecZero Z) = 0) by reflexivity.
  assert (G3 : ~ 0 <= 1 < vec_length (@VecZero Z)) by (simpl; lia).
  assert (G4 : vec_length (@VecZero Z) < 1) by (simpl; lia).
  split; [exact (conj G1 (conj G2 (conj G3 G4)))|].
  exact (conj (Hpop G1) (conj (Hshift G2) (conj (Hat G3) (Hins G4)))).
Defined.

Lemma VecFree_keeps_length_witness :
  (vec_data {| vec_data := Some [Some 1; Some 2; Some 3; None];
               vec_length := 3; vec_capacity := 4 |} <> None
   /\ 3 < 4)
  /\ exists v',
       VecFree {| vec_data := Some [Some 1; Some 2; Some 3; None];
                  vec_length := 3; vec_capacity := 4 |} = Ok v'
       /\ vec_data v' = None
       /\ vec_length v' = 3
       /\ vec_capacity v' = 4
       /\ VecFree v' = Err (AssertFailed "VecFree: Vector data should never be NULL")
       /\ VecPush 8 v' 9 = Err NullDeref.
Proof.
  assert (Hd : vec_data {| vec_data := Some [Some 1; Some 2; Some 3; None];
                           vec_length := 3; vec_capacity := 4 |} <> None)
    by discriminate.
  assert (Hlt : 3 < 4) by lia.
  split; [exact (conj Hd Hlt)|].
  destruct (VecFree_keeps_length 8 _ 9 Hd) as (v' & Hf & Hn & Hl & Hc & Hff & Hp).
  exists v'. exact (conj Hf (conj Hn (conj Hl (conj Hc (conj Hff (Hp Hlt)))))).
Defined.

(** ** More on the arena *)

Lemma next_fit_None (cs : list ArenaChunk) (i : nat) (bytes : Z) :
  (forall k ch, cs !! k = Some ch -> cap ch <= bytes) ->
  next_fit cs i bytes = None.
Proof.
  revert i. induction cs as [|ch rest IH]; intros i H; simpl; [reflexivity|].
  pose proof (H 0%nat ch eq_refl) as H0.
  destruct (Z.gtb_spec (cap ch) bytes); [lia|].
  apply IH. intros k ch' Hk. exact (H (S k) ch' Hk).
Qed.

(** X10. [ArenaCreate] with a chunk size in (0, 2^62) returns an arena of
    exactly one chunk, of that capacity, which is both [root] and
    [current], with [offset] 0; the memory that existed before is
    unchanged. *)
Theorem ArenaCreate_single_chunk (m : Mem) (size : Z) :
  0 < size < 2 ^ 62 ->
  exists m' arena ch,
    ArenaCreate m size = Ok (m', arena)
    /\ arena_wf m' arena
    /\ chunks arena = [ch] /\ cap ch = size
    /\ current arena = Some 0%nat /\ root arena = Some 0%nat
    /\ offset arena = 0 /\ chunkSize arena = size
    /\ (forall blk off n, (blk < length (blocks m))%nat ->
          load m' (Ptr blk off) n = load m (Ptr blk off) n).
Proof.
  intros Hsize.
  destruct (ArenaCreate_ok m size Hsize) as (m' & Hc & Hwf & _ & Hload & _).
  eexists m', _, _. split; [exact Hc|]. split; [exact Hwf|].
  simpl. repeat (split; [reflexivity|]). exact Hload.
Qed.

(** X11. Every [ArenaAllocChars] call on a well-formed arena returns a
    pointer to [count] zero bytes, and it disturbs nothing handed out
    before: every region that was live is still live, holds the same bytes
    and does not overlap the new region. *)
Theorem ArenaAllocChars_frame (m : Mem) (arena : Arena) (count : Z) :
  arena_wf m arena -> 0 < count < 2 ^ 62 -> offset arena + count < 2 ^ 63 ->
  exists m' arena' blk off,
    ArenaAllocChars m arena count = Ok (m', arena', Ptr blk off)
    /\ arena_wf m' arena'
    /\ live m' arena' (Ptr blk off) count
    /\ load m' (Ptr blk off) count = Ok (replicate (Z.to_nat count) "000"%byte)
    /\ (forall blk' off' n, live m arena (Ptr blk' off') n ->
          live m' arena' (Ptr blk' off') n
          /\ load m' (Ptr blk' off') n = load m (Ptr blk' off') n
          /\ disjoint blk' off' n blk off count).
Proof.
  intros Hwf Hsize Hsum.
  destruct (ArenaAllocChars_ok m arena count Hwf Hsize Hsum)
    as (m' & arena' & blk & off & Hcall & Hwf' & _ & _ & Hlive & Hzero & Hframe).
  exists m', arena', blk, off. auto.
Qed.

(** X12. After [ArenaReset] the next request that fits in the first chunk
    is served at the very start of that chunk, whatever was handed out
    before; no chunk is added. *)
Theorem ArenaReset_reuses_root (m : Mem) (arena : Arena) (count : Z)
    (r : nat) (ch : ArenaChunk) :
  arena_wf m arena -> root arena = Some r -> chunks arena !! r = Some ch ->
  0 < count <= cap ch ->
  exists m',
    ArenaAllocChars m (ArenaReset arena) count
    = Ok (m', arena_at arena r count, buffer ch)
    /\ load m' (buffer ch) count = Ok (replicate (Z.to_nat count) "000"%byte).
Proof.
  intros Hwf Hr Hch Hcount.
  pose proof Hwf as (_ & Hblocks & Huniq & Hoff & Hcs).
  destruct (Hblocks r ch Hch) as [Hbs Hcap].
  assert (Hwf' : arena_wf m (ArenaReset arena)).
  { split; [|split; [|split; [|split]]]; simpl; auto; try lia.
    exists r. split; [exact Hr|]. eapply lookup_lt_Some; eauto. }
  destruct (ArenaAllocChars_fits m (ArenaReset arena) count r ch Hwf' Hr Hch)
    as (m' & Hset & Hcall); simpl; try lia.
  exists m'. unfold buffer.
  replace (sizeof_ArenaChunk + 0) with sizeof_ArenaChunk in * by lia.
  split.
  - rewrite Hcall. reflexivity.
  - apply (memset_inv m m' _ _ _ _ Hset). lia.
Qed.

(** X13. A linked chunk is reused only when its capacity is strictly above
    [max(count, chunkSize)]. When a request does not fit in the current
    chunk and no chunk after it is that large (chunks of exactly
    [chunkSize] bytes, for one), a new chunk is allocated and linked at the
    tail, and the request is served at its start; the chunks in between
    stay unused. *)
Theorem ArenaAllocChars_equal_chunks_not_reused (m : Mem) (arena : Arena)
    (count : Z) (c : nat) (ch : ArenaChunk) :
  arena_wf m arena -> current arena = Some c -> chunks arena !! c = Some ch ->
  0 < count < 2 ^ 62 -> offset arena + count < 2 ^ 63 ->
  cap ch < offset arena + count ->
  (forall j chj, (c < j)%nat -> chunks arena !! j = Some chj ->
     cap chj <= Z.max count (chunkSize arena)) ->
  exists m' arena',
    ArenaAllocChars m arena count
    = Ok (m', arena', Ptr (length (blocks m)) sizeof_ArenaChunk)
    /\ chunks arena'
       = chunks arena ++ [{| base := length (blocks m);
                             cap := Z.max count (chunkSize arena) |}]
    /\ current arena' = Some (length (chunks arena))
    /\ offset arena' = offset arena + count
    /\ length (blocks m') = S (length (blocks m)).
Proof.
  intros Hwf Hc Hch Hcount Hsum Hfull Hcaps.
  assert (Hmax : (if count >? chunkSize arena then count else chunkSize arena)
                 = Z.max count (chunkSize arena)).
  { destruct (Z.gtb_spec count (chunkSize arena)); lia. }
  destruct (ArenaAllocChars_new_chunk m arena count c ch Hwf Hc Hch Hcount Hsum Hfull)
    as (m' & Hset & Hcall).
  { apply next_fit_None. intros k chk Hk. rewrite Hmax.
    rewrite lookup_drop in Hk. apply (Hcaps (S c + k)%nat chk); [lia|exact Hk]. }
  rewrite Hmax in *.
  eexists m', _. split; [exact Hcall|]. split; [reflexivity|].
  split; [reflexivity|]. split; [reflexivity|].
  rewrite (memset_blocks_length _ _ _ _ _ Hset). simpl.
  rewrite length_app. simpl. lia.
Qed.

(** X14. Once the arena is [exhausted] (the current chunk is the last one
    and [offset] has reached its capacity) with [offset] at [chunkSize] or
    above, every further [ArenaAllocChars] call allocates one more chunk,
    however small the request, and leaves the arena in such a state
    again: [offset] is not reset when a chunk is entered. *)
Theorem ArenaAllocChars_chunk_per_call (m : Mem) (arena : Arena) (count : Z) :
  arena_wf m arena -> exhausted arena -> chunkSize arena <= offset arena ->
  0 < count < 2 ^ 62 -> offset arena + count < 2 ^ 63 ->
  exists m' arena',
    ArenaAllocChars m arena count
    = Ok (m', arena', Ptr (length (blocks m)) sizeof_ArenaChunk)
    /\ length (chunks arena') = S (length (chunks arena))
    /\ arena_wf m' arena' /\ exhausted arena'
    /\ chunkSize arena' <= offset arena'.
Proof.
  intros Hwf (c & ch & Hc & Hlast & Hch & Hcap) Hcs Hcount Hsum.
  pose proof Hwf as (_ & _ & _ & Hoff & _).
  set (bytes := if count >? chunkSize arena then count else chunkSize arena).
  assert (Hbytes : bytes <= offset arena + count).
  { unfold bytes. destruct (Z.gtb_spec count (chunkSize arena)); lia. }
  destruct (ArenaAllocChars_new_chunk m arena count c ch Hwf Hc Hch Hcount Hsum)
    as (m' & Hset & Hcall); [lia| |].
  { rewrite drop_ge by lia. reflexivity. }
  fold bytes in Hset, Hcall.
  pose proof (alloc_post_new_chunk m arena count Hwf Hcount m' Hset)
    as (Hwf' & _).
  fold bytes in Hwf'.
  eexists m', _. split; [exact Hcall|]. split.
  { simpl. rewrite length_app. simpl. lia. }
  split; [exact Hwf'|]. split.
  - exists (length (chunks arena)), {| base := length (blocks m); cap := bytes |}.
    simpl. split; [reflexivity|]. split; [rewrite length_app; simpl; lia|].
    split; [|exact Hbytes].
    rewrite lookup_app_r by lia. rewrite Nat.sub_diag. reflexivity.
  - simpl. lia.
Qed.

(** X15. [ArenaAllocAligned] can hand out bytes that are in use. When
    [offset] is not a multiple of the alignment [al] (a power of two) and
    is above it, the region returned starts at position [al] of the
    current chunk, inside the part already handed out: its first byte was
    live before the call. The region is zeroed, and [offset] becomes
    [al + size], whatever it was. *)
Theorem ArenaAllocAligned_hands_out_live_bytes (m : Mem) (arena : Arena)
    (size al k : Z) (c : nat) (ch : ArenaChunk) :
  arena_wf m arena -> current arena = Some c -> chunks arena !! c = Some ch ->
  0 < size < 2 ^ 62 -> al = 2 ^ k -> 0 <= k < 62 -> offset arena < 2 ^ 62 ->
  offset arena mod al <> 0 -> al < offset arena -> al + size <= cap ch ->
  exists m',
    ArenaAllocAligned m arena size al
    = Ok (m', arena_at arena c (al + size), Ptr (base ch) (sizeof_ArenaChunk + al))
    /\ live m arena (Ptr (base ch) (sizeof_ArenaChunk + al)) 1
    /\ load m' (Ptr (base ch) (sizeof_ArenaChunk + al)) size
       = Ok (replicate (Z.to_nat size) "000"%byte).
Proof.
  intros Hwf Hc Hch Hsize Hal Hk Hoff Hmis Habove Hfit.
  assert (Hpos : aligned_position (offset arena) al = al).
  { unfold aligned_position. rewrite (tail_value arena size al k Hal Hk).
    destruct (Z.eqb_spec (offset arena mod al) 0); [contradiction|reflexivity]. }
  destruct (ArenaAllocAligned_aligned_zeroed m arena size al k c ch
              Hwf Hc Hch Hsize Hal Hk Hoff)
    as (m' & arena' & blk & off & Hcall & _ & Hzero & _ & Hin & _).
  rewrite Hpos in Hin. destruct (Hin Hfit) as (-> & -> & ->).
  exists m'. split; [exact Hcall|]. split; [|exact Hzero].
  pose proof Hwf as (_ & Hblocks & Huniq & _).
  destruct (Hblocks c ch Hch) as [Hbs Hcap].
  assert (0 < al) by (subst al; apply Z.pow_pos_nonneg; lia).
  split.
  - exists (sizeof_ArenaChunk + cap ch). unfold sizeof_ArenaChunk. split; [exact Hbs|lia].
  - intros i chi Hi Hbase. exists c. split; [exact Hc|]. right.
    split; [exact (Huniq i c chi ch Hi Hch Hbase)|lia].
Qed.

(** Well-formedness of an arena given by its list of chunks. *)
Ltac arena_wf_literal :=
  unfold arena_wf; simpl;
  split; [eexists; split; [reflexivity|simpl; lia]|];
  split; [intros i ch Hi;
          repeat (destruct i as [|i]; [injection Hi as <-; vm_compute; intuition congruence|]);
          discriminate Hi|];
  split; [intros i j ci cj Hi Hj Hb;
          repeat (destruct i as [|i];
                  [repeat (destruct j as [|j];
                           [injection Hi as <-; injection Hj as <-;
                            first [reflexivity|discriminate Hb]|]);
                   discriminate Hj|]);
          discriminate Hi|];
  lia.

(** The statements above at arenas with chunks of 64 bytes. *)
Lemma ArenaCreate_single_chunk_witness :
  0 < 64 < 2 ^ 62
  /\ exists m' arena ch,
       ArenaCreate (static_mem [literal "abc"]) 64 = Ok (m', arena)
       /\ arena_wf m' arena
       /\ chunks arena = [ch] /\ cap ch = 64
       /\ current arena = Some 0%nat /\ root arena = Some 0%nat
       /\ offset arena = 0 /\ chunkSize arena = 64
       /\ (forall blk off n, (blk < length (blocks (static_mem [literal "abc"])))%nat ->
             load m' (Ptr blk off) n = load (static_mem [literal "abc"]) (Ptr blk off) n).
Proof.
  assert (H : 0 < 64 < 2 ^ 62) by lia.
  split; [exact H|].
  exact (ArenaCreate_single_chunk (static_mem [literal "abc"]) 64 H).
Defined.

Lemma ArenaAllocChars_frame_witness :
  (arena_wf (static_mem [replicate 80 "205"%byte])
     {| chunks := [{| base := 0; cap := 64 |}]; current := Some 0%nat;
        offset := 24; root := Some 0%nat; chunkSize := 64 |}
   /\ 0 < 8 < 2 ^ 62 /\ 24 + 8 < 2 ^ 63)
  /\ exists m' arena' blk off,
       ArenaAllocChars (static_mem [replicate 80 "205"%byte])
         {| chunks := [{| base := 0; cap := 64 |}]; current := Some 0%nat;
            offset := 24; root := Some 0%nat; chunkSize := 64 |} 8
       = Ok (m', arena', Ptr blk off)
       /\ arena_wf m' arena'
       /\ live m' arena' (Ptr blk off) 8
       /\ load m' (Ptr blk off) 8 = Ok (replicate (Z.to_nat 8) "000"%byte)
       /\ (forall blk' off' n,
             live (static_mem [replicate 80 "205"%byte])
               {| chunks := [{| base := 0; cap := 64 |}]; current := Some 0%nat;
                  offset := 24; root := Some 0%nat; chunkSize := 64 |}
               (Ptr blk' off') n ->
             live m' arena' (Ptr blk' off') n
             /\ load m' (Ptr blk' off') n
                = load (static_mem [replicate 80 "205"%byte]) (Ptr blk' off') n
             /\ disjoint blk' off' n blk off 8).
Proof.
  assert (Hwf : arena_wf (static_mem [replicate 80 "205"%byte])
                  {| chunks := [{| base := 0; cap := 64 |}]; current := Some 0%nat;
                     offset := 24; root := Some 0%nat; chunkSize := 64 |})
    by arena_wf_literal.
  assert (H1 : 0 < 8 < 2 ^ 62) by lia.
  assert (H2 : 24 + 8 < 2 ^ 63) by lia.
  split; [exact (conj Hwf (conj H1 H2))|].
  exact (ArenaAllocChars_frame _ _ 8 Hwf H1 H2).
Defined.

Lemma ArenaReset_reuses_root_witness :
  (arena_wf (static_mem [replicate 80 "205"%byte])
     {| chunks := [{| base := 0; cap := 64 |}]; current := Some 0%nat;
        offset := 40; root := Some 0%nat; chunkSize := 64 |}
   /\ 0 < 8 <= 64)
  /\ exists m',
       ArenaAllocChars (static_mem [replicate 80 "205"%byte])
         (ArenaReset {| chunks := [{| base := 0; cap := 64 |}]; current := Some 0%nat;
                        offset := 40; root := Some 0%nat; chunkSize := 64 |}) 8
       = Ok (m', {| chunks := [{| base := 0; cap := 64 |}]; current := Some 0%nat;
                    offset := 8; root := Some 0%nat; chunkSize := 64 |},
             Ptr 0 16)
       /\ load m' (Ptr 0 16) 8 = Ok (replicate (Z.to_nat 8) "000"%byte).
Proof.
  assert (Hwf : arena_wf (static_mem [replicate 80 "205"%byte])
                  {| chunks := [{| base := 0; cap := 64 |}]; current := Some 0%nat;
                     offset := 40; root := Some 0%nat; chunkSize := 64 |})
    by arena_wf_literal.
  assert (H1 : 0 < 8 <= 64) by lia.
  split; [exact (conj Hwf H1)|].
  exact (ArenaReset_reuses_root _ _ 8 0%nat {| base := 0; cap := 64 |}
           Hwf eq_refl eq_refl H1).
Defined.

Lemma ArenaAllocChars_equal_chunks_not_reused_witness :
  (arena_wf (static_mem [replicate 80 "205"%byte; replicate 80 "205"%byte])
     {| chunks := [{| base := 0; cap := 64 |}; {| base := 1; cap := 64 |}];
        current := Some 0%nat; offset := 60; root := Some 0%nat; chunkSize := 64 |}
   /\ 0 < 8 < 2 ^ 62 /\ 60 + 8 < 2 ^ 63 /\ 64 < 60 + 8
   /\ (forall j chj, (0 < j)%nat ->
         [{| base := 0; cap := 64 |}; {| base := 1; cap := 64 |}] !! j = Some chj ->
         cap chj <= Z.max 8 64))
  /\ exists m' arena',
       ArenaAllocChars (static_mem [replicate 80 "205"%byte; replicate 80 "205"%byte])
         {| chunks := [{| base := 0; cap := 64 |}; {| base := 1; cap := 64 |}];
            current := Some 0%nat; offset := 60; root := Some 0%nat; chunkSize := 64 |} 8
       = Ok (m', arena', Ptr 2 sizeof_ArenaChunk)
       /\ chunks arena'
          = [{| base := 0; cap := 64 |}; {| base := 1; cap := 64 |}]
            ++ [{| base := 2; cap := Z.max 8 64 |}]
       /\ current arena' = Some 2%nat
       /\ offset arena' = 60 + 8
       /\ length (blocks m') = 3%nat.
Proof.
  assert (Hwf : arena_wf (static_mem [replicate 80 "205"%byte; replicate 80 "205"%byte])
                  {| chunks := [{| base := 0; cap := 64 |}; {| base := 1; cap := 64 |}];
                     current := Some 0%nat; offset := 60; root := Some 0%nat;
                     chunkSize := 64 |})
    by arena_wf_literal.
  assert (H1 : 0 < 8 < 2 ^ 62) by lia.
  assert (H2 : 60 + 8 < 2 ^ 63) by lia.
  assert (H3 : 64 < 60 + 8) by lia.
  assert (H4 : forall j chj, (0 < j)%nat ->
                 [{| base := 0; cap := 64 |}; {| base := 1; cap := 64 |}] !! j = Some chj ->
                 cap chj <= Z.max 8 64).
  { intros [|[|j]] chj Hj Hl; [lia| |discriminate Hl].
    injection Hl as <-. simpl. lia. }
  split; [exact (conj Hwf (conj H1 (conj H2 (conj H3 H4))))|].
  exact (ArenaAllocChars_equal_chunks_not_reused _ _ 8 0%nat {| base := 0; cap := 64 |}
           Hwf eq_refl eq_refl H1 H2 H3 H4).
Defined.

Lemma ArenaAllocChars_chunk_per_call_witness :
  (arena_wf (static_mem [replicate 80 "205"%byte])
     {| chunks := [{| base := 0; cap := 64 |}]; current := Some 0%nat;
        offset := 64; root := Some 0%nat; chunkSize := 64 |}
   /\ exhausted {| chunks := [{| base := 0; cap := 64 |}]; current := Some 0%nat;
                   offset := 64; root := Some 0%nat; chunkSize := 64 |}
   /\ 64 <= 64 /\ 0 < 1 < 2 ^ 62 /\ 64 + 1 < 2 ^ 63)
  /\ exists m' arena',
       ArenaAllocChars (static_mem [replicate 80 "205"%byte])
         {| chunks := [{| base := 0; cap := 64 |}]; current := Some 0%nat;
            offset := 64; root := Some 0%nat; chunkSize := 64 |} 1
       = Ok (m', arena', Ptr 1 sizeof_ArenaChunk)
       /\ length (chunks arena') = 2%nat
       /\ arena_wf m' arena' /\ exhausted arena'
       /\ chunkSize arena' <= offset arena'.
Proof.
  assert (Hwf : arena_wf (static_mem [replicate 80 "205"%byte])
                  {| chunks := [{| base := 0; cap := 64 |}]; current := Some 0%nat;
                     offset := 64; root := Some 0%nat; chunkSize := 64 |})
    by arena_wf_literal.
  assert (Hex : exhausted {| chunks := [{| base := 0; cap := 64 |}]; current := Some 0%nat;
                             offset := 64; root := Some 0%nat; chunkSize := 64 |}).
  { exists 0%nat, {| base := 0; cap := 64 |}. simpl.
    split; [reflexivity|]. split; [reflexivity|]. split; [reflexivity|lia]. }
  assert (H0 : 64 <= 64) by lia.
  assert (H1 : 0 < 1 < 2 ^ 62) by lia.
  assert (H2 : 64 + 1 < 2 ^ 63) by lia.
  split; [exact (conj Hwf (conj Hex (conj H0 (conj H1 H2))))|].
  exact (ArenaAllocChars_chunk_per_call _ _ 1 Hwf Hex H0 H1 H2).
Defined.

Lemma ArenaAllocAligned_hands_out_live_bytes_witness :
  (arena_wf (static_mem [replicate 80 "205"%byte])
     {| chunks := [{| base := 0; cap := 64 |}]; current := Some 0%nat;
        offset := 17; root := Some 0%nat; chunkSize := 64 |}
   /\ 0 < 8 < 2 ^ 62 /\ 16 = 2 ^ 4 /\ 0 <= 4 < 62 /\ 17 < 2 ^ 62
   /\ 17 mod 16 <> 0 /\ 16 < 17 /\ 16 + 8 <= 64)
  /\ exists m',
       ArenaAllocAligned (static_mem [replicate 80 "205"%byte])
         {| chunks := [{| base := 0; cap := 64 |}]; current := Some 0%nat;
            offset := 17; root := Some 0%nat; chunkSize := 64 |} 8 16
       = Ok (m', {| chunks := [{| base := 0; cap := 64 |}]; current := Some 0%nat;
                    offset := 16 + 8; root := Some 0%nat; chunkSize := 64 |},
             Ptr 0 (sizeof_ArenaChunk + 16))
       /\ live (static_mem [replicate 80 "205"%byte])
            {| chunks := [{| base := 0; cap := 64 |}]; current := Some 0%nat;
               offset := 17; root := Some 0%nat; chunkSize := 64 |}
            (Ptr 0 (sizeof_ArenaChunk + 16)) 1
       /\ load m' (Ptr 0 (sizeof_ArenaChunk + 16)) 8
          = Ok (replicate (Z.to_nat 8) "000"%byte).
Proof.
  assert (Hwf : arena_wf (static_mem [replicate 80 "205"%byte])
                  {| chunks := [{| base := 0; cap := 64 |}]; current := Some 0%nat;
                     offset := 17; root := Some 0%nat; chunkSize := 64 |})
    by arena_wf_literal.
  assert (H1 : 0 < 8 < 2 ^ 62) by lia.
  assert (H2 : 16 = 2 ^ 4) by reflexivity.
  assert (H3 : 0 <= 4 < 62) by lia.
  assert (H4 : 17 < 2 ^ 62) by lia.
  assert (H5 : 17 mod 16 <> 0) by (vm_compute; discriminate).
  assert (H6 : 16 < 17) by lia.
  assert (H7 : 16 + 8 <= 64) by lia.
  split; [exact (conj Hwf (conj H1 (conj H2 (conj H3 (conj H4 (conj H5 (conj H6 H7)))))))|].
  exact (ArenaAllocAligned_hands_out_live_bytes _ _ 8 16 4 0%nat {| base := 0; cap := 64 |}
           Hwf eq_refl eq_refl H1 H2 H3 H4 H5 H6 H7).
Defined.

(** ** More on strings *)

(** X16. What [memcpy_s] does when it refuses to copy: with a null
    destination it returns [EINVAL] and touches nothing; with a null source
    or with [count] above [destSize] it copies nothing, fills the
    [destSize] bytes of the destination with zeros and returns [EINVAL]. *)
Theorem memcpy_s_refuses (m : Mem) (blk : nat) (off destSize : Z) (src : pointer)
    (count : Z) :
  memcpy_s m NULL destSize src count = Ok (m, EINVAL)
  /\ (src = NULL \/ destSize < count ->
      readable m (Ptr blk off) destSize ->
      exists m',
        memcpy_s m (Ptr blk off) destSize src count = Ok (m', EINVAL)
        /\ load m' (Ptr blk off) destSize
           = Ok (replicate (Z.to_nat destSize) "000"%byte)
        /\ (forall blk' off' n, disjoint blk' off' n blk off destSize ->
              load m' (Ptr blk' off') n = load m (Ptr blk' off') n)).
Proof.
  split; [reflexivity|]. intros Hbad Hr.
  destruct (memset_Ok m (Ptr blk off) "000"%byte destSize Hr) as (m' & Hset & _ & _).
  assert (Hsz : 0 <= destSize) by (destruct Hr as (? & _ & _ & ? & _); lia).
  destruct (memset_inv m m' blk off destSize _ Hset Hsz) as (_ & Hz & Hother).
  exists m'. split; [|split; [exact Hz|exact Hother]].
  unfold memcpy_s. rewrite bool_decide_eq_false_2 by discriminate.
  assert (Hcond : bool_decide (src = NULL) || (destSize <? count) = true).
  { destruct Hbad as [->|Hlt].
    - reflexivity.
    - apply orb_true_iff. right. apply Z.ltb_lt. exact Hlt. }
  rewrite Hcond, Hset. reflexivity.
Qed.

(** X17. [StrEqual] decides equality of contents: for two strings whose
    bytes can be read it returns [true] exactly when they hold the same
    bytes. *)
Theorem StrEqual_iff_same_bytes (m : Mem) (string1 string2 : String)
    (bs1 bs2 : list byte) :
  0 <= str_length string1 -> 0 <= str_length string2 ->
  str_bytes m string1 = Ok bs1 -> str_bytes m string2 = Ok bs2 ->
  StrEqual m string1 string2 = Ok (bool_decide (bs1 = bs2)).
Proof.
  intros H1 H2 Hb1 Hb2. unfold str_bytes in *.
  pose proof (load_length _ _ _ _ Hb1 H1) as Hl1.
  pose proof (load_length _ _ _ _ Hb2 H2) as Hl2.
  unfold StrEqual.
  destruct (Z.eqb_spec (str_length string1) (str_length string2)) as [Heq|Hne];
    cbn [negb].
  - unfold memcmp. rewrite Hb1. mstep. rewrite Heq, Hb2. do 2 mstep.
    assert (Hlen : length bs1 = length bs2) by lia.
    pose proof (bytes_cmp_eq bs1 bs2 Hlen) as Hcmp.
    destruct (decide (bs1 = bs2)) as [E|E].
    + rewrite (proj2 (Z.eqb_eq _ _) (proj2 Hcmp E)).
      rewrite bool_decide_eq_true_2 by exact E. reflexivity.
    + rewrite (proj2 (Z.eqb_neq _ _) (fun Hz => E (proj1 Hcmp Hz))).
      rewrite bool_decide_eq_false_2 by exact E. reflexivity.
  - rewrite bool_decide_eq_false_2; [reflexivity|].
    intros ->. lia.
Qed.

(** X18. [StrCopy] into a destination at least as long as the source, with
    room for its terminator: afterwards the destination has the length of
    the source and holds its bytes followed by a zero byte. *)
Theorem StrCopy_copies (m : Mem) (destination source : String) (bd : nat) (od : Z)
    (bs : list byte) :
  str_data destination = Ptr bd od -> str_data source <> NULL ->
  0 <= str_length source <= str_length destination ->
  readable m (Ptr bd od) (str_length destination + 1) ->
  str_bytes m source = Ok bs ->
  exists m',
    StrCopy m destination source
    = Ok (m', {| str_length := str_length source; str_data := Ptr bd od |})
    /\ load m' (Ptr bd od) (str_length source + 1) = Ok (bs ++ ["000"%byte]).
Proof.
  intros Hd Hs Hlen Hr Hbs. unfold str_bytes in Hbs.
  destruct source as [ls [|b' o']]; cbn [str_length str_data] in *; [congruence|].
  destruct destination as [ld dd]; cbn [str_length str_data] in *. subst dd.
  pose proof Hr as (size & Hsize & Ho & _ & Hfit).
  pose proof (load_length _ _ _ _ Hbs ltac:(lia)) as Hbl.
  unfold StrCopy, StrIsNull. cbn [str_length str_data].
  rewrite !bool_decide_eq_false_2 by discriminate. cbn [negb].
  rewrite assert_true. mstep. rewrite assert_true. mstep.
  destruct (Z.geb_spec ld ls); [|lia]. rewrite assert_true. mstep.
  destruct (memcpy_s_copy m bd b' od o' ld ls bs) as (m1 & Hcpy & Hst1);
    [lia|exact Hbs| |].
  { exists size. repeat split; auto; lia. }
  rewrite Hcpy. mstep. simpl (0 =? 0). rewrite assert_true. mstep.
  unfold addNullTerminator, ptr_add.
  destruct (readable_store m1 bd (od + ls) ["000"%byte]) as [m2 Hst2].
  { exists size. rewrite (store_block_size _ _ _ _ _ Hst1). simpl. repeat split; auto; lia. }
  rewrite Hst2. mstep. exists m2. split; [reflexivity|].
  apply (load_app m2 bd od ls 1 bs ["000"%byte]); [lia|lia| |].
  - rewrite (load_after_store m1 m2 bd bd (od + ls) od ls _ Hst2)
      by (unfold disjoint; simpl; lia).
    rewrite <- Hbl. apply (load_store_same _ _ _ _ Hst1).
  - apply (load_store_same _ _ _ _ Hst2).
Qed.

Lemma load_byte_at (m : Mem) (blk : nat) (off n i : Z) (bs : list byte) (c : byte) :
  load m (Ptr blk off) n = Ok bs -> 0 <= i < n -> bs !! Z.to_nat i = Some c ->
  load_byte m (Ptr blk (off + i)) = Ok c.
Proof.
  intros Hl Hi Hc. unfold load_byte.
  rewrite (load_sub m blk off n i 1 bs Hl) by lia. mstep.
  rewrite (drop_S _ c _ Hc). reflexivity.
Qed.

Lemma strLength_loop_stop (m : Mem) (b : nat) (o : Z) (pre : list byte) (c : byte) :
  forall (len : Z) (n : nat),
    0 <= len ->
    load m (Ptr b (o + len)) (Z.of_nat (length pre) + 1) = Ok (pre ++ [c]) ->
    Forall (fun x => x <> "000"%byte) pre ->
    (length pre <= n)%nat ->
    c = "000"%byte \/ length pre = n ->
    strLength_loop m (Ptr b o) len n = Ok (len + Z.of_nat (length pre)).
Proof.
  induction pre as [|x pre IH]; intros len n Hlen Hload Hnz Hn Hstop.
  - simpl in *. rewrite Z.add_0_r. destruct n as [|n]; [reflexivity|].
    destruct Hstop as [->|?]; [|lia]. cbn [strLength_loop ptr_add].
    change (load m (Ptr b (o + len)) 1 = Ok ["000"%byte]) in Hload.
    unfold load_byte. rewrite Hload. reflexivity.
  - destruct n as [|n]; [simpl in Hn; lia|].
    inversion Hnz as [|? ? Hx Hrest]; subst.
    cbn [strLength_loop ptr_add].
    pose proof (load_byte_at m b (o + len) _ 0 _ x Hload ltac:(simpl; lia) eq_refl) as Hb.
    rewrite Z.add_0_r in Hb. rewrite Hb. mstep.
    rewrite bool_decide_eq_false_2 by exact Hx.
    rewrite (IH (len + 1) n); [simpl length; f_equal; lia|lia| |exact Hrest|simpl in Hn; lia|].
    + pose proof (load_sub m b (o + len) _ 1 (Z.of_nat (length pre) + 1) _ Hload
                    ltac:(lia) ltac:(lia) ltac:(simpl length; lia)) as Hs.
      replace (o + len + 1) with (o + (len + 1)) in Hs by lia.
      rewrite Hs. change (drop (Z.to_nat 1) ((x :: pre) ++ [c])) with (pre ++ [c]).
      rewrite take_ge; [reflexivity|]. rewrite length_app. simpl. lia.
    + destruct Hstop as [?|Hs]; [left; assumption|right; simpl in Hs; lia].
Qed.

(** X19. [StrNew] on a C string of one byte or more copies it: when the
    bytes at [str] are [bs] (none of them zero) followed by a terminator,
    or when [bs] are the first [maxStringSize] bytes, the result has length
    [|bs|] and its buffer holds [bs] followed by a zero byte; nothing
    handed out before is disturbed. *)
Theorem StrNew_copies (maxStringSize : Z) (m : Mem) (arena : Arena)
    (blk : nat) (off : Z) (bs : list byte) (c : byte) :
  arena_wf m arena ->
  0 < Z.of_nat (length bs) <= maxStringSize ->
  Z.of_nat (length bs) < 2 ^ 62 - 1 ->
  offset arena + Z.of_nat (length bs) + 1 < 2 ^ 63 ->
  live m arena (Ptr blk off) (Z.of_nat (length bs) + 1) ->
  load m (Ptr blk off) (Z.of_nat (length bs) + 1) = Ok (bs ++ [c]) ->
  Forall (fun x => x <> "000"%byte) bs ->
  c = "000"%byte \/ Z.of_nat (length bs) = maxStringSize ->
  exists m' arena' b o,
    StrNew maxStringSize m arena (Ptr blk off)
    = Ok (m', arena', {| str_length := Z.of_nat (length bs); str_data := Ptr b o |})
    /\ arena_wf m' arena'
    /\ live m' arena' (Ptr b o) (Z.of_nat (length bs) + 1)
    /\ load m' (Ptr b o) (Z.of_nat (length bs) + 1) = Ok (bs ++ ["000"%byte])
    /\ (forall blk' off' n, live m arena (Ptr blk' off') n ->
          live m' arena' (Ptr blk' off') n
          /\ load m' (Ptr blk' off') n = load m (Ptr blk' off') n).
Proof.
  intros Hwf Hlen Hsmall Hsum Hlive Hload Hnz Hstop.
  set (len := Z.of_nat (length bs)) in *.
  assert (Hscan : strLength m (Ptr blk off) maxStringSize = Ok len).
  { unfold strLength. rewrite bool_decide_eq_false_2 by discriminate.
    rewrite (strLength_loop_stop m blk off bs c 0 (Z.to_nat maxStringSize));
      [reflexivity|lia| |exact Hnz|lia|].
    - rewrite Z.add_0_r. exact Hload.
    - destruct Hstop as [?|?]; [left; assumption|right; lia]. }
  assert (Hbs : load m (Ptr blk off) len = Ok bs).
  { rewrite (load_prefix m blk off (len + 1) len _ Hload) by lia.
    unfold len. rewrite Nat2Z.id, take_app_length. reflexivity. }
  destruct (StrNewSize_spec m arena blk off len bs Hwf ltac:(lia) Hsum Hlive Hbs)
    as (m' & arena' & b & o & Hnew & Hwf' & _ & Hlive' & Hload' & Hframe).
  exists m', arena', b, o. split; [|auto].
  unfold StrNew. rewrite Hscan. mstep.
  destruct (Z.eqb_spec len 0); [lia|]. exact Hnew.
Qed.

(** X20. [StrNew] on a null pointer, on an empty C string, or with
    [maxStringSize] at zero returns the "no value" string (length 0, null
    [data]) and allocates nothing; [StrSplit] on that result aborts on its
    assertion. *)
Theorem StrNew_empty_is_null (maxStringSize : Z) (m : Mem) (arena : Arena)
    (str : pointer) (delimiter : String) :
  str = NULL \/ maxStringSize <= 0 \/ load_byte m str = Ok "000"%byte ->
  exists res,
    StrNew maxStringSize m arena str = Ok (m, arena, res)
    /\ StrIsNull res = true /\ str_length res = 0
    /\ StrSplit m arena res delimiter
       = Err (AssertFailed "StrSplit: str should never be NULL").
Proof.
  intros Hcase. exists {| str_length := 0; str_data := NULL |}.
  split; [|repeat split].
  unfold StrNew.
  assert (Hscan : strLength m str maxStringSize = Ok 0).
  { unfold strLength. destruct (decide (str = NULL)) as [->|Hnn]; [reflexivity|].
    rewrite bool_decide_eq_false_2 by exact Hnn.
    destruct Hcase as [?|[Hmax|Hzero]]; [contradiction| |].
    - replace (Z.to_nat maxStringSize) with 0%nat by lia. reflexivity.
    - destruct (Z.to_nat maxStringSize); [reflexivity|]. simpl.
      replace (ptr_add str 0) with str
        by (destruct str; simpl; [reflexivity|f_equal; lia]).
      rewrite Hzero. reflexivity. }
  rewrite Hscan. reflexivity.
Qed.

(** X21. [StrSlice] with [0 <= start <= end <= length] returns a new string
    that holds the bytes [start .. end) of the source, with its terminator;
    the source still holds its bytes. *)
Theorem StrSlice_copies_range (m : Mem) (arena : Arena) (str : String)
    (bs : list byte) (start end_ : Z) :
  arena_wf m arena -> holds m arena str bs ->
  0 <= start <= end_ -> end_ <= str_length str -> str_length str < 2 ^ 62 - 1 ->
  offset arena + (end_ - start) + 1 < 2 ^ 63 ->
  exists m' arena' res,
    StrSlice m arena str start end_ = Ok (m', arena', res)
    /\ arena_wf m' arena'
    /\ holds m' arena' res
         (take (Z.to_nat (end_ - start)) (drop (Z.to_nat start) bs))
    /\ holds m' arena' str bs.
Proof.
  intros Hwf Hstr Hse Hend Hsmall Hsum.
  pose proof Hstr as (Hlen & b & o & Hdata & Hlive & Hload).
  set (n := str_length str) in *. set (len := end_ - start).
  assert (Hmid : load m (Ptr b (o + start)) len
                 = Ok (take (Z.to_nat len) (drop (Z.to_nat start) bs))).
  { apply (load_sub m b o n start len bs Hload); unfold len; lia. }
  set (mid := take (Z.to_nat len) (drop (Z.to_nat start) bs)) in *.
  assert (Hml : Z.of_nat (length mid) = len)
    by (apply (load_length _ _ _ _ Hmid); unfold len; lia).
  assert (Hlv : live m arena (Ptr b (o + start)) (len + 1))
    by (apply (live_sub m arena b o (n + 1)); auto; unfold len; lia).
  destruct (StrNewSize_spec m arena b (o + start) len _ Hwf
              ltac:(unfold len; lia) ltac:(unfold len; lia) Hlv Hmid)
    as (m' & arena' & b' & o' & Hnew & Hwf' & _ & Hlive' & Hload' & Hframe).
  exists m', arena', {| str_length := len; str_data := Ptr b' o' |}.
  split; [|split; [exact Hwf'|split]].
  - unfold StrSlice. cbv zeta. rewrite (size_t_small start), (size_t_small end_) by lia.
    destruct (Z.geb_spec start 0); [|lia]. rewrite assert_true. mstep.
    destruct (Z.leb_spec start (str_length str)); [|unfold n in *; lia].
    rewrite assert_true. mstep.
    destruct (Z.ltb_spec end_ 0); [lia|].
    destruct (Z.geb_spec end_ start); [|lia]. rewrite assert_true. mstep.
    destruct (Z.leb_spec end_ (str_length str)); [|unfold n in *; lia].
    rewrite assert_true. mstep.
    rewrite size_t_small by lia. rewrite Hdata. exact Hnew.
  - split; [simpl; lia|]. exists b', o'. cbn [str_length str_data].
    split; [reflexivity|]. split; [exact Hlive'|].
    rewrite (load_prefix m' b' o' (len + 1) len _ Hload') by (unfold len; lia).
    rewrite <- Hml, Nat2Z.id, take_app_length. reflexivity.
  - apply (holds_frame m m' arena arena'); [exact Hframe|exact Hstr].
Qed.

(** X22. [ParsePath] returns a new string that holds the path without a
    leading ["./"] or [".\"], and the path as it is when it has no such
    prefix. *)
Theorem ParsePath_strips_dot (m : Mem) (arena : Arena) (path : String)
    (bs : list byte) :
  arena_wf m arena -> holds m arena path bs ->
  0 < str_length path < 2 ^ 62 - 1 ->
  offset arena + str_length path + 1 < 2 ^ 63 ->
  exists m' arena' res,
    ParsePath m arena path = Ok (m', arena', res)
    /\ arena_wf m' arena'
    /\ holds m' arena' res (strip_dot_prefix bs)
    /\ holds m' arena' path bs.
Proof.
  intros Hwf Hstr Hn Hsum.
  pose proof Hstr as (Hlen & b & o & Hdata & Hlive & Hload).
  set (n := str_length path) in *.
  assert (Hwhole : exists m' arena' res,
             StrNewSize m arena (Ptr b o) n = Ok (m', arena', res)
             /\ arena_wf m' arena' /\ holds m' arena' res bs /\ holds m' arena' path bs).
  { destruct (StrNewSize_spec m arena b o n bs Hwf ltac:(lia) Hsum Hlive Hload)
      as (m' & arena' & b' & o' & Hnew & Hwf' & _ & Hlive' & Hload' & Hframe).
    exists m', arena', {| str_length := n; str_data := Ptr b' o' |}.
    split; [exact Hnew|]. split; [exact Hwf'|]. split.
    - split; [exact Hlen|]. exists b', o'. cbn [str_length str_data].
      split; [reflexivity|]. split; [exact Hlive'|].
      rewrite (load_prefix m' b' o' (n + 1) n _ Hload') by lia.
      rewrite Hlen, Nat2Z.id, take_app_length. reflexivity.
    - apply (holds_frame m m' arena arena'); [exact Hframe|exact Hstr]. }
  unfold ParsePath. rewrite Hdata. fold n.
  destruct bs as [|c0 [|c1 rest]].
  - simpl in Hlen. lia.
  - simpl in Hlen. destruct (Z.geb_spec n 2); [lia|]. mstep. exact Hwhole.
  - assert (H2 : 2 <= n) by (simpl length in Hlen; lia).
    destruct (Z.geb_spec n 2); [|lia].
    pose proof (load_byte_at m b o n 0 _ c0 Hload ltac:(lia) eq_refl) as Hb0.
    pose proof (load_byte_at m b o n 1 _ c1 Hload ltac:(lia) eq_refl) as Hb1.
    rewrite Z.add_0_r in Hb0. rewrite Hb0. mstep. cbn [ptr_add].
    unfold strip_dot_prefix.
    destruct (bool_decide (c0 = "."%byte)); cbn [andb]; [|mstep; exact Hwhole].
    rewrite Hb1. mstep.
    destruct (bool_decide (c1 = "/"%byte) || bool_decide (c1 = "092"%byte));
      mstep; [|exact Hwhole].
    rewrite size_t_small by lia.
    assert (Hrest : load m (Ptr b (o + 2)) (n - 2) = Ok rest).
    { rewrite (load_sub m b o n 2 (n - 2) _ Hload) by lia.
      change (drop (Z.to_nat 2) (c0 :: c1 :: rest)) with rest.
      rewrite take_ge; [reflexivity|]. simpl length in Hlen. lia. }
    assert (Hlv : live m arena (Ptr b (o + 2)) (n - 2 + 1))
      by (apply (live_sub m arena b o (n + 1)); auto; lia).
    destruct (StrNewSize_spec m arena b (o + 2) (n - 2) rest Hwf
                ltac:(lia) ltac:(lia) Hlv Hrest)
      as (m' & arena' & b' & o' & Hnew & Hwf' & _ & Hlive' & Hload' & Hframe).
    rewrite Hnew. mstep. cbn [str_data].
    assert (Hrl : Z.of_nat (length rest) = n - 2) by (simpl length in Hlen; lia).
    assert (Hres : load m' (Ptr b' o') (n - 2) = Ok rest).
    { rewrite (load_prefix m' b' o' (n - 2 + 1) (n - 2) _ Hload') by lia.
      rewrite <- Hrl, Nat2Z.id, take_app_length. reflexivity. }
    assert (Hsrc : load m' (Ptr b (o + 2)) (n - 2) = Ok rest).
    { destruct (Hframe b (o + 2) (n - 2)) as [_ ->]; [|exact Hrest].
      apply (live_sub m arena b o (n + 1)); auto; lia. }
    unfold memcpy. rewrite Hsrc. mstep.
    rewrite (store_same_id m' (Ptr b' o') (n - 2) rest Hres). mstep.
    exists m', arena', {| str_length := n - 2; str_data := Ptr b' o' |}.
    split; [reflexivity|]. split; [exact Hwf'|]. split.
    + split; [simpl; lia|]. exists b', o'. cbn [str_length str_data].
      split; [reflexivity|]. split; [exact Hlive'|exact Hres].
    + apply (holds_frame m m' arena arena'); [exact Hframe|exact Hstr].
Qed.

Lemma store_past_end (m : Mem) (blk : nat) (off size : Z) (bs : list byte) :
  block_size m blk = Some size -> size < off + Z.of_nat (length bs) -> bs <> [] ->
  store m (Ptr blk off) bs = Err OutOfBounds.
Proof.
  intros Hsize Hpast Hne. apply block_size_Some in Hsize as (b & Hb & Hlen).
  unfold store. destruct bs as [|x bs]; [congruence|]. rewrite Hb.
  destruct (in_block b off (Z.of_nat (length (x :: bs)))) eqn:E; [|reflexivity].
  apply in_block_true in E. lia.
Qed.

(** X23. [StrConcat] with a "no value" operand reserves [length] bytes for
    the copy of the other operand, without the byte of the terminator, and
    then writes the terminator at index [length]. When the copy ends
    exactly at the end of the current chunk, that write is outside the
    block of the chunk. *)
Theorem StrConcat_null_operand_overflows (m : Mem) (arena : Arena)
    (null value : String) (c : nat) (ch : ArenaChunk) (b : nat) (o : Z) :
  arena_wf m arena -> current arena = Some c -> chunks arena !! c = Some ch ->
  str_data null = NULL -> str_data value = Ptr b o ->
  0 < str_length value < 2 ^ 62 ->
  readable m (Ptr b o) (str_length value) ->
  offset arena + str_length value = cap ch ->
  StrConcat m arena null value = Err OutOfBounds
  /\ StrConcat m arena value null = Err OutOfBounds.
Proof.
  intros Hwf Hc Hch Hnull Hval Hlen Hr Hfull.
  set (len := str_length value) in *.
  pose proof Hwf as (_ & Hblocks & _ & Hoff & _).
  destruct (Hblocks c ch Hch) as [Hbs Hcap].
  destruct (ArenaAllocChars_fits m arena len c ch Hwf Hc Hch Hlen ltac:(lia) ltac:(lia))
    as (m1 & Hset & Hcall).
  assert (Hsame : forall blk, block_size m1 blk = block_size m blk)
    by (intros blk; apply (store_block_size _ _ _ _ _ Hset)).
  destruct (readable_load m1 (Ptr b o) len) as [bs Hbsl].
  { eapply readable_block_size; eauto. }
  destruct (memcpy_s_copy m1 (base ch) b (sizeof_ArenaChunk + offset arena) o len len bs)
    as (m2 & Hcpy & Hst); [lia|exact Hbsl| |].
  { exists (sizeof_ArenaChunk + cap ch). rewrite Hsame.
    unfold sizeof_ArenaChunk. repeat split; auto; lia. }
  assert (Hterm : addNullTerminator m2 (Ptr (base ch) (sizeof_ArenaChunk + offset arena)) len
                  = Err OutOfBounds).
  { unfold addNullTerminator, ptr_add.
    apply (store_past_end m2 (base ch) _ (sizeof_ArenaChunk + cap ch)).
    - rewrite (store_block_size _ _ _ _ _ Hst), Hsame. exact Hbs.
    - simpl. lia.
    - discriminate. }
  assert (Hbody :
            ('(m, arena, allocatedString) ← ArenaAllocChars m arena (size_t (1 * len));
             '(m, _) ← memcpy_s m allocatedString (size_t (1 * len)) (str_data value) len;
             m ← addNullTerminator m allocatedString len;
             Ok (m, arena, {| str_length := len; str_data := allocatedString |}))
            = Err OutOfBounds).
  { rewrite Z.mul_1_l, size_t_small by lia. rewrite Hcall. mstep.
    rewrite Hval, Hcpy. mstep. rewrite Hterm. reflexivity. }
  split.
  - unfold StrConcat, StrIsNull. rewrite Hnull.
    rewrite bool_decide_eq_true_2 by reflexivity. exact Hbody.
  - unfold StrConcat, StrIsNull. rewrite Hnull, Hval.
    rewrite bool_decide_eq_false_2 by discriminate.
    rewrite bool_decide_eq_true_2 by reflexivity.
    rewrite <- Hval. exact Hbody.
Qed.

(** A string literal of the static memory is held on a fresh arena; [H] is
    the conclusion of [ArenaCreate_live]. *)
Ltac fresh_holds H :=
  split; [reflexivity|];
  eexists _, _; split; [reflexivity|]; split;
  [ apply H; eexists; split; [reflexivity|simpl; lia]
  | match goal with
    | |- load _ (Ptr ?b ?o) ?n = _ =>
        let E := fresh in
        destruct (H b o n) as [_ E];
        [eexists; split; [reflexivity|simpl; lia]|rewrite E; reflexivity]
    end ].

(** The statements above on string literals. *)
Lemma memcpy_s_refuses_witness :
  ((Ptr 0 0 = NULL \/ 5 < 9)
   /\ readable (static_mem [literal "abcd"]) (Ptr 0 0) 5)
  /\ memcpy_s (static_mem [literal "abcd"]) NULL 5 (Ptr 0 0) 9
     = Ok (static_mem [literal "abcd"], EINVAL)
  /\ exists m',
       memcpy_s (static_mem [literal "abcd"]) (Ptr 0 0) 5 (Ptr 0 0) 9 = Ok (m', EINVAL)
       /\ load m' (Ptr 0 0) 5 = Ok (replicate (Z.to_nat 5) "000"%byte)
       /\ (forall blk' off' n, disjoint blk' off' n 0 0 5 ->
             load m' (Ptr blk' off') n
             = load (static_mem [literal "abcd"]) (Ptr blk' off') n).
Proof.
  assert (H1 : Ptr 0 0 = NULL \/ 5 < 9) by (right; lia).
  assert (H2 : readable (static_mem [literal "abcd"]) (Ptr 0 0) 5)
    by (exists 5; split; [reflexivity|lia]).
  destruct (memcpy_s_refuses (static_mem [literal "abcd"]) 0 0 5 (Ptr 0 0) 9)
    as [Hnull Hzero].
  split; [exact (conj H1 H2)|].
  split; [exact Hnull|]. exact (Hzero H1 H2).
Defined.

Lemma StrEqual_iff_same_bytes_witness :
  (0 <= str_length (StrLit 0 "abc") /\ 0 <= str_length (StrLit 1 "abd")
   /\ str_bytes (static_mem [literal "abc"; literal "abd"]) (StrLit 0 "abc")
      = Ok (list_byte_of_string "abc")
   /\ str_bytes (static_mem [literal "abc"; literal "abd"]) (StrLit 1 "abd")
      = Ok (list_byte_of_string "abd"))
  /\ StrEqual (static_mem [literal "abc"; literal "abd"]) (StrLit 0 "abc") (StrLit 1 "abd")
     = Ok (bool_decide (list_byte_of_string "abc" = list_byte_of_string "abd")).
Proof.
  assert (H1 : 0 <= str_length (StrLit 0 "abc")) by (simpl; lia).
  assert (H2 : 0 <= str_length (StrLit 1 "abd")) by (simpl; lia).
  split; [exact (conj H1 (conj H2 (conj eq_refl eq_refl)))|].
  exact (StrEqual_iff_same_bytes (static_mem [literal "abc"; literal "abd"])
           (StrLit 0 "abc") (StrLit 1 "abd")
           (list_byte_of_string "abc") (list_byte_of_string "abd")
           H1 H2 eq_refl eq_refl).
Defined.

Lemma StrCopy_copies_witness :
  (str_data (StrLit 0 "hello") = Ptr 0 0 /\ str_data (StrLit 1 "abc") <> NULL
   /\ 0 <= str_length (StrLit 1 "abc") <= str_length (StrLit 0 "hello")
   /\ readable (static_mem [literal "hello"; literal "abc"]) (Ptr 0 0)
        (str_length (StrLit 0 "hello") + 1)
   /\ str_bytes (static_mem [literal "hello"; literal "abc"]) (StrLit 1 "abc")
      = Ok (list_byte_of_string "abc"))
  /\ exists m',
       StrCopy (static_mem [literal "hello"; literal "abc"])
         (StrLit 0 "hello") (StrLit 1 "abc")
       = Ok (m', {| str_length := str_length (StrLit 1 "abc"); str_data := Ptr 0 0 |})
       /\ load m' (Ptr 0 0) (str_length (StrLit 1 "abc") + 1)
          = Ok (list_byte_of_string "abc" ++ ["000"%byte]).
Proof.
  assert (H1 : str_data (StrLit 1 "abc") <> NULL) by discriminate.
  assert (H2 : 0 <= str_length (StrLit 1 "abc") <= str_length (StrLit 0 "hello"))
    by (simpl; lia).
  assert (H3 : readable (static_mem [literal "hello"; literal "abc"]) (Ptr 0 0)
                 (str_length (StrLit 0 "hello") + 1))
    by (exists 6; split; [reflexivity|simpl; lia]).
  split; [exact (conj eq_refl (conj H1 (conj H2 (conj H3 eq_refl))))|].
  exact (StrCopy_copies (static_mem [literal "hello"; literal "abc"])
           (StrLit 0 "hello") (StrLit 1 "abc") 0%nat 0 (list_byte_of_string "abc")
           eq_refl H1 H2 H3 eq_refl).
Defined.

Lemma StrNew_copies_witness :
  match ArenaCreate (static_mem [literal "abc"]) 64 with
  | Ok (m, arena) =>
      (arena_wf m arena
       /\ 0 < Z.of_nat (length (list_byte_of_string "abc")) <= 10000
       /\ Z.of_nat (length (list_byte_of_string "abc")) < 2 ^ 62 - 1
       /\ offset arena + Z.of_nat (length (list_byte_of_string "abc")) + 1 < 2 ^ 63
       /\ live m arena (Ptr 0 0) (Z.of_nat (length (list_byte_of_string "abc")) + 1)
       /\ load m (Ptr 0 0) (Z.of_nat (length (list_byte_of_string "abc")) + 1)
          = Ok (list_byte_of_string "abc" ++ ["000"%byte])
       /\ Forall (fun x => x <> "000"%byte) (list_byte_of_string "abc")
       /\ ("000"%byte = "000"%byte
           \/ Z.of_nat (length (list_byte_of_string "abc")) = 10000))
      /\ exists m' arena' b o,
           StrNew 10000 m arena (Ptr 0 0)
           = Ok (m', arena', {| str_length := 3; str_data := Ptr b o |})
           /\ arena_wf m' arena'
           /\ live m' arena' (Ptr b o) (3 + 1)
           /\ load m' (Ptr b o) (3 + 1) = Ok (list_byte_of_string "abc" ++ ["000"%byte])
           /\ (forall blk' off' n, live m arena (Ptr blk' off') n ->
                 live m' arena' (Ptr blk' off') n
                 /\ load m' (Ptr blk' off') n = load m (Ptr blk' off') n)
  | Err _ => False
  end.
Proof.
  destruct (ArenaCreate_live (static_mem [literal "abc"]) 64)
    as (m & arena & Hc & Hwf & Ho & Hlive); [lia|].
  rewrite Hc.
  assert (H1 : 0 < Z.of_nat (length (list_byte_of_string "abc")) <= 10000)
    by (simpl; lia).
  assert (H2 : Z.of_nat (length (list_byte_of_string "abc")) < 2 ^ 62 - 1)
    by (simpl; lia).
  assert (H3 : offset arena + Z.of_nat (length (list_byte_of_string "abc")) + 1 < 2 ^ 63)
    by (rewrite Ho; simpl; lia).
  assert (H4 : live m arena (Ptr 0 0) (Z.of_nat (length (list_byte_of_string "abc")) + 1)).
  { apply Hlive. exists 4. split; [reflexivity|simpl; lia]. }
  assert (H5 : load m (Ptr 0 0) (Z.of_nat (length (list_byte_of_string "abc")) + 1)
               = Ok (list_byte_of_string "abc" ++ ["000"%byte])).
  { destruct (Hlive 0%nat 0 (Z.of_nat (length (list_byte_of_string "abc")) + 1)) as [_ ->];
      [exists 4; split; [reflexivity|simpl; lia]|reflexivity]. }
  assert (H6 : Forall (fun x => x <> "000"%byte) (list_byte_of_string "abc"))
    by (repeat constructor; discriminate).
  assert (H7 : "000"%byte = "000"%byte
               \/ Z.of_nat (length (list_byte_of_string "abc")) = 10000)
    by (left; reflexivity).
  split; [exact (conj Hwf (conj H1 (conj H2 (conj H3 (conj H4 (conj H5 (conj H6 H7)))))))|].
  exact (StrNew_copies 10000 m arena 0%nat 0 (list_byte_of_string "abc") "000"%byte
           Hwf H1 H2 H3 H4 H5 H6 H7).
Defined.

Lemma StrNew_empty_is_null_witness :
  (Ptr 0 0 = NULL \/ 10000 <= 0
   \/ load_byte (static_mem [literal ""]) (Ptr 0 0) = Ok "000"%byte)
  /\ exists res,
       StrNew 10000 (static_mem [literal ""])
         {| chunks := []; current := None; offset := 0; root := None; chunkSize := 64 |}
         (Ptr 0 0)
       = Ok (static_mem [literal ""],
             {| chunks := []; current := None; offset := 0; root := None; chunkSize := 64 |},
             res)
       /\ StrIsNull res = true /\ str_length res = 0
       /\ StrSplit (static_mem [literal ""])
            {| chunks := []; current := None; offset := 0; root := None; chunkSize := 64 |}
            res (StrLit 0 "")
          = Err (AssertFailed "StrSplit: str should never be NULL").
Proof.
  assert (H : Ptr 0 0 = NULL \/ 10000 <= 0
              \/ load_byte (static_mem [literal ""]) (Ptr 0 0) = Ok "000"%byte)
    by (right; right; reflexivity).
  split; [exact H|].
  exact (StrNew_empty_is_null 10000 (static_mem [literal ""])
           {| chunks := []; current := None; offset := 0; root := None; chunkSize := 64 |}
           (Ptr 0 0) (StrLit 0 "") H).
Defined.

Lemma StrSlice_copies_range_witness :
  match ArenaCreate (static_mem [literal "hello world"]) 64 with
  | Ok (m, arena) =>
      (arena_wf m arena
       /\ holds m arena (StrLit 0 "hello world") (list_byte_of_string "hello world")
       /\ 0 <= 6 <= 11 /\ 11 <= str_length (StrLit 0 "hello world")
       /\ str_length (StrLit 0 "hello world") < 2 ^ 62 - 1
       /\ offset arena + (11 - 6) + 1 < 2 ^ 63)
      /\ exists m' arena' res,
           StrSlice m arena (StrLit 0 "hello world") 6 11 = Ok (m', arena', res)
           /\ arena_wf m' arena'
           /\ holds m' arena' res (list_byte_of_string "world")
           /\ holds m' arena' (StrLit 0 "hello world") (list_byte_of_string "hello world")
  | Err _ => False
  end.
Proof.
  destruct (ArenaCreate_live (static_mem [literal "hello world"]) 64)
    as (m & arena & Hc & Hwf & Ho & Hlive); [lia|].
  rewrite Hc.
  assert (Hh : holds m arena (StrLit 0 "hello world") (list_byte_of_string "hello world"))
    by fresh_holds Hlive.
  assert (H1 : 0 <= 6 <= 11) by lia.
  assert (H2 : 11 <= str_length (StrLit 0 "hello world")) by (simpl; lia).
  assert (H3 : str_length (StrLit 0 "hello world") < 2 ^ 62 - 1) by (simpl; lia).
  assert (H4 : offset arena + (11 - 6) + 1 < 2 ^ 63) by (rewrite Ho; lia).
  split; [exact (conj Hwf (conj Hh (conj H1 (conj H2 (conj H3 H4)))))|].
  exact (StrSlice_copies_range m arena (StrLit 0 "hello world")
           (list_byte_of_string "hello world") 6 11 Hwf Hh H1 H2 H3 H4).
Defined.

Lemma ParsePath_strips_dot_witness :
  match ArenaCreate (static_mem [literal "./src/base.h"]) 64 with
  | Ok (m, arena) =>
      (arena_wf m arena
       /\ holds m arena (StrLit 0 "./src/base.h") (list_byte_of_string "./src/base.h")
       /\ 0 < str_length (StrLit 0 "./src/base.h") < 2 ^ 62 - 1
       /\ offset arena + str_length (StrLit 0 "./src/base.h") + 1 < 2 ^ 63)
      /\ exists m' arena' res,
           ParsePath m arena (StrLit 0 "./src/base.h") = Ok (m', arena', res)
           /\ arena_wf m' arena'
           /\ holds m' arena' res (list_byte_of_string "src/base.h")
           /\ holds m' arena' (StrLit 0 "./src/base.h") (list_byte_of_string "./src/base.h")
  | Err _ => False
  end.
Proof.
  destruct (ArenaCreate_live (static_mem [literal "./src/base.h"]) 64)
    as (m & arena & Hc & Hwf & Ho & Hlive); [lia|].
  rewrite Hc.
  assert (Hh : holds m arena (StrLit 0 "./src/base.h") (list_byte_of_string "./src/base.h"))
    by fresh_holds Hlive.
  assert (H1 : 0 < str_length (StrLit 0 "./src/base.h") < 2 ^ 62 - 1) by (simpl; lia).
  assert (H2 : offset arena + str_length (StrLit 0 "./src/base.h") + 1 < 2 ^ 63)
    by (rewrite Ho; simpl; lia).
  split; [exact (conj Hwf (conj Hh (conj H1 H2)))|].
  exact (ParsePath_strips_dot m arena (StrLit 0 "./src/base.h")
           (list_byte_of_string "./src/base.h") Hwf Hh H1 H2).
Defined.

Lemma StrConcat_null_operand_overflows_witness :
  (arena_wf (static_mem [replicate 80 "205"%byte; literal "abc"])
     {| chunks := [{| base := 0; cap := 64 |}]; current := Some 0%nat;
        offset := 61; root := Some 0%nat; chunkSize := 64 |}
   /\ str_data {| str_length := 0; str_data := NULL |} = NULL
   /\ str_data (StrLit 1 "abc") = Ptr 1 0
   /\ 0 < str_length (StrLit 1 "abc") < 2 ^ 62
   /\ readable (static_mem [replicate 80 "205"%byte; literal "abc"]) (Ptr 1 0)
        (str_length (StrLit 1 "abc"))
   /\ 61 + str_length (StrLit 1 "abc") = 64)
  /\ StrConcat (static_mem [replicate 80 "205"%byte; literal "abc"])
       {| chunks := [{| base := 0; cap := 64 |}]; current := Some 0%nat;
          offset := 61; root := Some 0%nat; chunkSize := 64 |}
       {| str_length := 0; str_data := NULL |} (StrLit 1 "abc")
     = Err OutOfBounds
  /\ StrConcat (static_mem [replicate 80 "205"%byte; literal "abc"])
       {| chunks := [{| base := 0; cap := 64 |}]; current := Some 0%nat;
          offset := 61; root := Some 0%nat; chunkSize := 64 |}
       (StrLit 1 "abc") {| str_length := 0; str_data := NULL |}
     = Err OutOfBounds.
Proof.
  assert (Hwf : arena_wf (static_mem [replicate 80 "205"%byte; literal "abc"])
                  {| chunks := [{| base := 0; cap := 64 |}]; current := Some 0%nat;
                     offset := 61; root := Some 0%nat; chunkSize := 64 |})
    by arena_wf_literal.
  assert (H1 : 0 < str_length (StrLit 1 "abc") < 2 ^ 62) by (simpl; lia).
  assert (H2 : readable (static_mem [replicate 80 "205"%byte; literal "abc"]) (Ptr 1 0)
                 (str_length (StrLit 1 "abc")))
    by (exists 4; split; [reflexivity|simpl; lia]).
  assert (H3 : 61 + str_length (StrLit 1 "abc") = 64) by reflexivity.
  split; [exact (conj Hwf (conj eq_refl (conj eq_refl (conj H1 (conj H2 H3)))))|].
  exact (StrConcat_null_operand_overflows
           (static_mem [replicate 80 "205"%byte; literal "abc"])
           {| chunks := [{| base := 0; cap := 64 |}]; current := Some 0%nat;
              offset := 61; root := Some 0%nat; chunkSize := 64 |}
           {| str_length := 0; str_data := NULL |} (StrLit 1 "abc")
           0%nat {| base := 0; cap := 64 |} 1%nat 0
           Hwf eq_refl eq_refl eq_refl eq_refl H1 H2 H3).
Defined.

(** ** Case conversion *)


Lemma toupper_idem (c : byte) : toupper (toupper c) = toupper c.
Proof. destruct c; reflexivity. Qed.




(** ** What [StrTrim] keeps *)

(** A scan that has seen a character: [lastChar] ends on the last
    character of the rest that is not white space, if there is one. *)
Lemma trim_scan_started_last (rest : list byte) :
  forall (j f0 l0 : Z),
    exists l',
      trim_scan rest j (Some f0) (Some l0) = (Some f0, Some l')
      /\ ((l' = l0 /\ forallb isSpace rest = true)
          \/ exists k c, l' = j + Z.of_nat k /\ rest !! k = Some c
               /\ isSpace c = false /\ forallb isSpace (drop (S k) rest) = true).
Proof.
  induction rest as [|c rest IH]; intros j f0 l0.
  - exists l0. split; [reflexivity|]. left. split; reflexivity.
  - cbn [trim_scan]. destruct (isSpace c) eqn:Hc.
    + destruct (IH (j + 1) f0 l0) as (l' & Hscan & [[-> Hall]|(k & x & -> & Hk & Hx & Hpost)]).
      * exists l0. split; [exact Hscan|]. left. split; [reflexivity|].
        simpl. rewrite Hc. exact Hall.
      * exists (j + 1 + Z.of_nat k). split; [exact Hscan|]. right.
        exists (S k), x. split; [lia|]. split; [exact Hk|]. split; [exact Hx|exact Hpost].
    + destruct (IH (j + 1) f0 j) as (l' & Hscan & [[-> Hall]|(k & x & -> & Hk & Hx & Hpost)]).
      * exists j. split; [exact Hscan|]. right. exists 0%nat, c.
        split; [lia|]. split; [reflexivity|]. split; [exact Hc|exact Hall].
      * exists (j + 1 + Z.of_nat k). split; [exact Hscan|]. right.
        exists (S k), x. split; [lia|]. split; [exact Hk|]. split; [exact Hx|exact Hpost].
Qed.

(** A scan from the start: [firstChar] and [lastChar] end on the first and
    the last character that is not white space. *)
Lemma trim_scan_bounds (bytes : list byte) :
  forall i : Z,
    (trim_scan bytes i None None = (None, None) /\ forallb isSpace bytes = true)
    \/ exists (f l : nat) (cf cl : byte),
         trim_scan bytes i None None = (Some (i + Z.of_nat f), Some (i + Z.of_nat l))
         /\ (f <= l)%nat
         /\ bytes !! f = Some cf /\ isSpace cf = false
         /\ bytes !! l = Some cl /\ isSpace cl = false
         /\ forallb isSpace (take f bytes) = true
         /\ forallb isSpace (drop (S l) bytes) = true.
Proof.
  induction bytes as [|c bytes IH]; intros i.
  - left. split; reflexivity.
  - cbn [trim_scan]. destruct (isSpace c) eqn:Hc.
    + destruct (IH (i + 1))
        as [[Hscan Hall]|(f & l & cf & cl & Hscan & Hfl & Hf & Hcf & Hl & Hcl & Hpre & Hpost)].
      * left. split; [exact Hscan|]. simpl. rewrite Hc. exact Hall.
      * right. exists (S f), (S l), cf, cl.
        split; [rewrite Hscan; f_equal; f_equal; lia|].
        split; [lia|]. repeat (split; [assumption|]).
        split; [|exact Hpost]. simpl. rewrite Hc. exact Hpre.
    + right.
      destruct (trim_scan_started_last bytes (i + 1) i i)
        as (l' & Hscan & [[-> Hall]|(k & x & -> & Hk & Hx & Hpost)]).
      * exists 0%nat, 0%nat, c, c.
        split; [rewrite Hscan; f_equal; f_equal; lia|].
        split; [lia|]. repeat (split; [first [reflexivity|assumption]|]). exact Hall.
      * exists 0%nat, (S k), c, x.
        split; [rewrite Hscan; f_equal; f_equal; lia|].
        split; [lia|]. repeat (split; [first [reflexivity|assumption]|]). exact Hpost.
Qed.

(** X25. [StrTrim] removes the white space at both ends and nothing else:
    the bytes of the string split as [pre ++ mid ++ post] with [pre] and
    [post] all white space and [mid] empty or starting and ending with a
    character that is not white space; afterwards the string, at the same
    address, holds [mid]. A zero byte follows [mid], unless the call left
    the string as it was (a single character that is not white space). *)
Theorem StrTrim_strips_whitespace (m : Mem) (str : String) (bs : list byte) :
  0 <= str_length str < 2 ^ 62 ->
  str_length str = 0 \/ readable m (str_data str) (str_length str + 1) ->
  str_bytes m str = Ok bs ->
  exists m' str' pre mid post,
    StrTrim m str = Ok (m', str')
    /\ str_data str' = str_data str
    /\ bs = pre ++ mid ++ post
    /\ forallb isSpace pre = true /\ forallb isSpace post = true
    /\ (mid = []
        \/ exists cf cl, mid !! 0%nat = Some cf /\ isSpace cf = false
             /\ mid !! (length mid - 1)%nat = Some cl /\ isSpace cl = false)
    /\ str_length str' = Z.of_nat (length mid)
    /\ str_bytes m' str' = Ok mid
    /\ (str_length str <> 0 ->
        load m' (ptr_add (str_data str') (str_length str')) 1 = Ok ["000"%byte]
        \/ str' = str).
Proof.
  intros Hlen Hvalid Hbs. destruct str as [n data].
  unfold str_bytes in *. cbn [str_length str_data] in *.
  destruct (Z.eq_dec n 0) as [->|Hn0].
  { simpl in Hbs. injection Hbs as <-.
    exists m, {| str_length := 0; str_data := data |}, [], [], [].
    repeat (split; [reflexivity|]). split; [left; reflexivity|].
    repeat (split; [reflexivity|]). intros H. congruence. }
  destruct Hvalid as [?|Hr]; [lia|].
  destruct data as [|b o]; [destruct Hr|].
  pose proof Hr as (size & Hsize & Ho & _ & Hfit).
  assert (Hblen : Z.of_nat (length bs) = n) by (eapply load_length; eauto; lia).
  assert (Hwrite : forall m1 i k, (forall blk, block_size m1 blk = block_size m blk) ->
                     0 <= i -> 0 <= k -> i + k <= n + 1 -> readable m1 (Ptr b (o + i)) k).
  { intros m1 i k Hsame Hi Hk Hik. exists size. rewrite Hsame. repeat split; auto; lia. }
  assert (Hw0 : readable m (Ptr b o) 1).
  { pose proof (Hwrite m 0 1 ltac:(reflexivity)) as Hw. rewrite Z.add_0_r in Hw.
    apply Hw; lia. }
  destruct (Z.eq_dec n 1) as [->|Hn1].
  - (* one byte *)
    unfold StrTrim. cbn [str_length str_data]. simpl (1 =? 0). simpl (1 =? 1). cbv iota.
    unfold load_byte. rewrite Hbs. mstep.
    destruct bs as [|c [|? ?]]; try (simpl in Hblen; lia).
    mstep. destruct (isSpace c) eqn:Hc.
    + destruct (readable_store m b o ["000"%byte] Hw0) as [m1 Hm1].
      rewrite Hm1. mstep.
      exists m1, {| str_length := 0; str_data := Ptr b o |}, [c], [], [].
      split; [reflexivity|]. split; [reflexivity|]. split; [reflexivity|].
      split; [simpl; rewrite Hc; reflexivity|]. split; [reflexivity|].
      split; [left; reflexivity|]. split; [reflexivity|]. split; [reflexivity|].
      intros _. left. cbn [str_length str_data ptr_add]. rewrite Z.add_0_r.
      apply (load_store_same _ _ _ _ Hm1).
    + exists m, {| str_length := 1; str_data := Ptr b o |}, [], [c], [].
      split; [reflexivity|]. split; [reflexivity|]. split; [reflexivity|].
      split; [reflexivity|]. split; [reflexivity|].
      split; [right; exists c, c; repeat split; assumption|].
      split; [reflexivity|]. split; [exact Hbs|]. intros _. right. reflexivity.
  - (* two bytes or more *)
    unfold StrTrim. cbn [str_length str_data].
    destruct (Z.eqb_spec n 0); [lia|]. destruct (Z.eqb_spec n 1); [lia|].
    rewrite Hbs. mstep.
    destruct (trim_scan_bounds bs 0)
      as [[Hscan Hall]|(f & l & cf & cl & Hscan & Hfl & Hf & Hcf & Hl & Hcl & Hpre & Hpost)];
      rewrite Hscan.
    + (* nothing but white space *)
      destruct (readable_store m b o ["000"%byte] Hw0) as [m1 Hm1].
      rewrite Hm1. mstep. unfold addNullTerminator, ptr_add.
      destruct (readable_store m1 b (o + 0) ["000"%byte]) as [m2 Hm2].
      { apply (Hwrite m1 0 1); [|lia..]. intros blk. eapply store_block_size; eauto. }
      rewrite Hm2. mstep.
      exists m2, {| str_length := 0; str_data := Ptr b o |}, bs, [], [].
      split; [reflexivity|]. split; [reflexivity|].
      split; [rewrite app_nil_r; reflexivity|].
      split; [exact Hall|]. split; [reflexivity|]. split; [left; reflexivity|].
      split; [reflexivity|]. split; [reflexivity|].
      intros _. left. cbn [str_length str_data ptr_add].
      apply (load_store_same _ _ _ _ Hm2).
    + (* the range [f, l] is kept *)
      rewrite !Z.add_0_l.
      apply lookup_lt_Some in Hl as Hllt.
      set (len := Z.of_nat l - Z.of_nat f + 1) in *.
      assert (Hlenr : 1 <= len <= n) by (unfold len; lia).
      rewrite (size_t_small len) by lia.
      pose proof (load_sub m b o n (Z.of_nat f) len bs Hbs ltac:(lia) ltac:(lia) ltac:(lia))
        as Hmid.
      rewrite Nat2Z.id in Hmid.
      set (mid := take (Z.to_nat len) (drop f bs)) in *.
      assert (Hmlen : Z.of_nat (length mid) = len) by (eapply load_length; eauto; lia).
      unfold ptr_add at 1.
      destruct (memcpy_s_copy m b b o (o + Z.of_nat f) n len mid) as (m1 & Hcpy & Hst1);
        [lia|exact Hmid| |].
      { pose proof (Hwrite m 0 len ltac:(reflexivity)) as Hw. rewrite Z.add_0_r in Hw.
        apply Hw; lia. }
      rewrite Hcpy. mstep. unfold addNullTerminator, ptr_add.
      destruct (readable_store m1 b (o + len) ["000"%byte]) as [m2 Hst2].
      { apply (Hwrite m1 len 1); [|lia..]. intros blk. eapply store_block_size; eauto. }
      rewrite Hst2. mstep.
      exists m2, {| str_length := len; str_data := Ptr b o |},
        (take f bs), mid, (drop (S l) bs).
      split; [reflexivity|]. split; [reflexivity|]. split.
      { unfold mid. rewrite <- (take_drop f bs) at 1. f_equal.
        rewrite <- (take_drop (Z.to_nat len) (drop f bs)) at 1. f_equal.
        rewrite drop_drop. f_equal. unfold len. lia. }
      split; [exact Hpre|]. split; [exact Hpost|]. split.
      { right. exists cf, cl. split; [|split; [exact Hcf|split; [|exact Hcl]]].
        - unfold mid. rewrite lookup_take, lookup_drop, Nat.add_0_r.
          destruct (decide _); [exact Hf|lia].
        - replace (length mid - 1)%nat with (Z.to_nat (len - 1)) by lia.
          unfold mid. rewrite lookup_take, lookup_drop.
          destruct (decide _); [|lia].
          replace (f + Z.to_nat (len - 1))%nat with l by (unfold len; lia).
          exact Hl. }
      split; [cbn [str_length]; lia|]. split.
      { cbn [str_length str_data].
        rewrite (load_after_store m1 m2 b b (o + len) o len _ Hst2)
          by (unfold disjoint; simpl; lia).
        rewrite <- Hmlen. apply (load_store_same _ _ _ _ Hst1). }
      intros _. left. cbn [str_length str_data ptr_add].
      apply (load_store_same _ _ _ _ Hst2).
Qed.

Lemma StrTrim_strips_whitespace_witness :
  (0 <= str_length (StrLit 0 "  a b  ") < 2 ^ 62
   /\ (str_length (StrLit 0 "  a b  ") = 0
       \/ readable (static_mem [literal "  a b  "]) (str_data (StrLit 0 "  a b  "))
            (str_length (StrLit 0 "  a b  ") + 1))
   /\ str_bytes (static_mem [literal "  a b  "]) (StrLit 0 "  a b  ")
      = Ok (list_byte_of_string "  a b  "))
  /\ exists m' str' pre mid post,
       StrTrim (static_mem [literal "  a b  "]) (StrLit 0 "  a b  ") = Ok (m', str')
       /\ str_data str' = str_data (StrLit 0 "  a b  ")
       /\ list_byte_of_string "  a b  " = pre ++ mid ++ post
       /\ forallb isSpace pre = true /\ forallb isSpace post = true
       /\ (mid = []
           \/ exists cf cl, mid !! 0%nat = Some cf /\ isSpace cf = false
                /\ mid !! (length mid - 1)%nat = Some cl /\ isSpace cl = false)
       /\ str_length str' = Z.of_nat (length mid)
       /\ str_bytes m' str' = Ok mid
       /\ (str_length (StrLit 0 "  a b  ") <> 0 ->
           load m' (ptr_add (str_data str') (str_length str')) 1 = Ok ["000"%byte]
           \/ str' = StrLit 0 "  a b  ").
Proof.
  assert (H1 : 0 <= str_length (StrLit 0 "  a b  ") < 2 ^ 62) by (simpl; lia).
  assert (H2 : str_length (StrLit 0 "  a b  ") = 0
               \/ readable (static_mem [literal "  a b  "]) (str_data (StrLit 0 "  a b  "))
                    (str_length (StrLit 0 "  a b  ") + 1)).
  { right. exists 8. split; [reflexivity|simpl; lia]. }
  split; [exact (conj H1 (conj H2 eq_refl))|].
  exact (StrTrim_strips_whitespace (static_mem [literal "  a b  "]) (StrLit 0 "  a b  ")
           (list_byte_of_string "  a b  ") H1 H2 eq_refl).
Defined.

(** ** Random numbers *)

Lemma to_i32_u32_add (a b : Z) :
  INT32_MIN <= a + b <= INT32_MAX -> to_i32 (u32 a + b) = a + b.
Proof.
  unfold to_i32, u32, INT32_MIN, INT32_MAX. intros H.
  rewrite Zplus_mod_idemp_l.
  destruct (Z.ltb_spec ((a + b) mod 2 ^ 32) (2 ^ 31)) as [Hlt|Hge].
  - destruct (Z.le_gt_cases 0 (a + b)) as [Hpos|Hneg].
    + apply Z.mod_small. lia.
    + exfalso. rewrite <- (Z.mod_unique_pos (a + b) (2 ^ 32) (-1) (a + b + 2 ^ 32)) in Hlt; lia.
  - destruct (Z.le_gt_cases 0 (a + b)) as [Hpos|Hneg].
    + rewrite Z.mod_small in Hge; lia.
    + rewrite <- (Z.mod_unique_pos (a + b) (2 ^ 32) (-1) (a + b + 2 ^ 32)); lia.
Qed.

Lemma rand_until_first (pre rest : list Z) (r limit RAND_MAX : Z) :
  RAND_MAX < 2 ^ 32 ->
  Forall (fun x => limit <= x <= RAND_MAX) pre -> 0 <= r < limit -> limit <= 2 ^ 32 ->
  rand_until (pre ++ r :: rest) limit = Ok r.
Proof.
  intros Hmax Hpre Hr Hlim. induction Hpre as [|x pre Hx _ IH]; simpl.
  - unfold u32. rewrite Z.mod_small by lia.
    destruct (Z.geb_spec r limit); [lia|reflexivity].
  - unfold u32 at 1. rewrite Z.mod_small by lia.
    destruct (Z.geb_spec x limit); [exact IH|lia].
Qed.

Lemma rand_until_zero (rands : list Z) : rand_until rands 0 = Err OutOfFuel.
Proof.
  induction rands as [|x rands IH]; simpl; [reflexivity|].
  destruct (Z.geb_spec (u32 x) 0) as [|Hlt]; [exact IH|].
  unfold u32 in Hlt. pose proof (Z.mod_pos_bound x (2 ^ 32)). lia.
Qed.

(** X26. [RandomInteger] on a range that [RAND_MAX] covers: with
    [buckets = RAND_MAX / (max - min + 1)], the call skips the results of
    [rand()] that are [buckets * (max - min + 1)] or more and turns the
    first one below, [r], into [min + r / buckets], which lies in
    [min, max]. *)
Theorem RandomInteger_in_range (RAND_MAX : Z) (pre rest : list Z) (r min max : Z) :
  0 < RAND_MAX <= INT32_MAX ->
  INT32_MIN <= min -> min <= max -> max <= INT32_MAX ->
  max - min + 1 <= RAND_MAX ->
  Forall (fun x => RAND_MAX / (max - min + 1) * (max - min + 1) <= x <= RAND_MAX) pre ->
  0 <= r < RAND_MAX / (max - min + 1) * (max - min + 1) ->
  RandomInteger RAND_MAX (pre ++ r :: rest) min max
  = Ok (min + r / (RAND_MAX / (max - min + 1)))
  /\ min <= min + r / (RAND_MAX / (max - min + 1)) <= max.
Proof.
  intros Hmax Hmin Hle Hmaxv Hcover Hpre Hr.
  set (range := max - min + 1) in *.
  set (buckets := RAND_MAX / range) in *.
  assert (Hrange : 0 < range) by (unfold range; lia).
  assert (Hb : 1 <= buckets).
  { unfold buckets. apply Z.div_le_lower_bound; lia. }
  assert (Hlimit : buckets * range <= RAND_MAX).
  { unfold buckets. rewrite Z.mul_comm. apply Z.mul_div_le. lia. }
  assert (Hq : 0 <= r / buckets < range).
  { split; [apply Z.div_pos; lia|]. apply Z.div_lt_upper_bound; lia. }
  split; [|unfold range in Hq; lia].
  unfold RandomInteger. unfold INT32_MIN, INT32_MAX in *.
  destruct (Z.leb_spec min max); [|lia]. rewrite assert_true. mstep.
  rewrite (i32_in_range (max - min)) by (unfold INT32_MIN, INT32_MAX; lia). mstep.
  destruct (Z.leb_spec (max - min) (2 ^ 31 - 1 - 1)); [|lia].
  rewrite assert_true. mstep.
  rewrite (i32_in_range (max - min + 1)) by (unfold INT32_MIN, INT32_MAX; lia). mstep.
  fold range. rewrite Z.quot_div_nonneg by lia. fold buckets.
  assert (Hu : forall z, 0 <= z < 2 ^ 32 -> u32 z = z)
    by (intros z Hz; apply Z.mod_small; exact Hz).
  rewrite (Hu buckets), (Hu range), (Hu (buckets * range)) by lia.
  rewrite (rand_until_first pre rest r (buckets * range) RAND_MAX); [|lia| |lia|lia].
  - mstep. rewrite Z.quot_div_nonneg by lia.
    rewrite to_i32_u32_add; [reflexivity|].
    unfold INT32_MIN, INT32_MAX, range in *. lia.
  - exact Hpre.
Qed.

(** X27. [RandomInteger] on a range wider than [RAND_MAX] (more than
    [RAND_MAX] values): [buckets] is 0, so is the limit of the rejection
    loop, and no result of [rand()] ends the loop. *)
Theorem RandomInteger_wide_range_never_returns (RAND_MAX : Z) (rands : list Z)
    (min max : Z) :
  0 < RAND_MAX <= INT32_MAX ->
  INT32_MIN <= min -> min <= max -> max <= INT32_MAX ->
  RAND_MAX < max - min + 1 <= INT32_MAX ->
  RandomInteger RAND_MAX rands min max = Err OutOfFuel.
Proof.
  intros Hmax Hmin Hle Hmaxv Hwide.
  unfold RandomInteger. unfold INT32_MIN, INT32_MAX in *.
  destruct (Z.leb_spec min max); [|lia]. rewrite assert_true. mstep.
  rewrite (i32_in_range (max - min)) by (unfold INT32_MIN, INT32_MAX; lia). mstep.
  destruct (Z.leb_spec (max - min) (2 ^ 31 - 1 - 1)); [|lia].
  rewrite assert_true. mstep.
  rewrite (i32_in_range (max - min + 1)) by (unfold INT32_MIN, INT32_MAX; lia). mstep.
  rewrite Z.quot_small by lia.
  change (u32 0) with 0. rewrite Z.mul_0_l. change (u32 0) with 0.
  rewrite rand_until_zero. reflexivity.
Qed.

(** A die, with the [RAND_MAX] of a C library that has 15-bit results. *)
Lemma RandomInteger_in_range_witness :
  (0 < 32767 <= INT32_MAX /\ INT32_MIN <= 1 /\ 1 <= 6 /\ 6 <= INT32_MAX
   /\ 6 - 1 + 1 <= 32767
   /\ Forall (fun x => 32767 / (6 - 1 + 1) * (6 - 1 + 1) <= x <= 32767) [32766; 32767]
   /\ 0 <= 12345 < 32767 / (6 - 1 + 1) * (6 - 1 + 1))
  /\ RandomInteger 32767 ([32766; 32767] ++ 12345 :: [7]) 1 6
     = Ok (1 + 12345 / (32767 / (6 - 1 + 1)))
  /\ 1 <= 1 + 12345 / (32767 / (6 - 1 + 1)) <= 6.
Proof.
  assert (H1 : 0 < 32767 <= INT32_MAX) by (unfold INT32_MAX; lia).
  assert (H2 : INT32_MIN <= 1) by (unfold INT32_MIN; lia).
  assert (H3 : 1 <= 6) by lia.
  assert (H4 : 6 <= INT32_MAX) by (unfold INT32_MAX; lia).
  assert (H5 : 6 - 1 + 1 <= 32767) by lia.
  assert (H6 : Forall (fun x => 32767 / (6 - 1 + 1) * (6 - 1 + 1) <= x <= 32767)
                 [32766; 32767])
    by (repeat constructor; vm_compute; discriminate).
  assert (H7 : 0 <= 12345 < 32767 / (6 - 1 + 1) * (6 - 1 + 1))
    by (split; vm_compute; [discriminate|reflexivity]).
  split; [exact (conj H1 (conj H2 (conj H3 (conj H4 (conj H5 (conj H6 H7))))))|].
  exact (RandomInteger_in_range 32767 [32766; 32767] [7] 12345 1 6 H1 H2 H3 H4 H5 H6 H7).
Defined.

Lemma RandomInteger_wide_range_never_returns_witness :
  (0 < 32767 <= INT32_MAX /\ INT32_MIN <= 0 /\ 0 <= 40000 /\ 40000 <= INT32_MAX
   /\ 32767 < 40000 - 0 + 1 <= INT32_MAX)
  /\ RandomInteger 32767 [0; 1; 2; 32767] 0 40000 = Err OutOfFuel.
Proof.
  assert (H1 : 0 < 32767 <= INT32_MAX) by (unfold INT32_MAX; lia).
  assert (H2 : INT32_MIN <= 0) by (unfold INT32_MIN; lia).
  assert (H3 : 0 <= 40000) by lia.
  assert (H4 : 40000 <= INT32_MAX) by (unfold INT32_MAX; lia).
  assert (H5 : 32767 < 40000 - 0 + 1 <= INT32_MAX) by (unfold INT32_MAX; lia).
  split; [exact (conj H1 (conj H2 (conj H3 (conj H4 H5))))|].
  exact (RandomInteger_wide_range_never_returns 32767 [0; 1; 2; 32767] 0 40000
           H1 H2 H3 H4 H5).
Defined.

(** ** The tokens of [StrSplit], exactly *)

Lemma find_pure_Some (s d : list byte) (k : nat) :
  forall (search mt : nat),
    find_pure s d search k = Some mt ->
    (search <= mt < search + k)%nat
    /\ take (length d) (drop mt s) = d
    /\ (forall p, (search <= p < mt)%nat -> take (length d) (drop p s) <> d).
Proof.
  induction k as [|k IH]; intros search mt H; [discriminate|].
  simpl in H. destruct (decide (take (length d) (drop search s) = d)) as [E|E].
  - rewrite bool_decide_eq_true_2 in H by exact E. injection H as <-.
    split; [lia|]. split; [exact E|]. intros p Hp. lia.
  - rewrite bool_decide_eq_false_2 in H by exact E.
    destruct (IH (S search) mt H) as (Hr & Hm & Hleft).
    split; [lia|]. split; [exact Hm|]. intros p Hp.
    destruct (decide (p = search)) as [->|Hne]; [exact E|]. apply Hleft. lia.
Qed.

Lemma find_pure_None (s d : list byte) (k : nat) :
  forall (search : nat),
    find_pure s d search k = None ->
    forall p, (search <= p < search + k)%nat -> take (length d) (drop p s) <> d.
Proof.
  induction k as [|k IH]; intros search H p Hp; [lia|].
  simpl in H. destruct (decide (take (length d) (drop search s) = d)) as [E|E].
  - rewrite bool_decide_eq_true_2 in H by exact E. discriminate.
  - rewrite bool_decide_eq_false_2 in H by exact E.
    destruct (decide (p = search)) as [->|Hne]; [exact E|].
    apply (IH (S search) H). lia.
Qed.

(** An occurrence of [d] inside a piece of [s] is an occurrence in [s]. *)
Lemma occurrence_in_piece (s d : list byte) (curr len i : nat) :
  d <> [] ->
  take (length d) (drop i (take len (drop curr s))) = d ->
  take (length d) (drop (curr + i) s) = d /\ (i + length d <= len)%nat
  /\ (curr + i + length d <= length s)%nat.
Proof.
  intros Hd H.
  assert (Hlen : (length d <= length (drop i (take len (drop curr s))))%nat).
  { apply (f_equal length) in H. rewrite length_take in H. lia. }
  rewrite length_drop, length_take, length_drop in Hlen.
  assert (0 < length d)%nat by (destruct d; [congruence|simpl; lia]).
  split; [|lia]. rewrite <- H at 2.
  replace len with (i + (len - i))%nat at 1 by lia.
  rewrite <- take_drop_commute, take_take, drop_drop.
  f_equal. lia.
Qed.

Lemma split_pure_free (s d : list byte) (fuel : nat) :
  d <> [] ->
  forall curr t i,
    t ∈ split_pure fuel s d curr -> take (length d) (drop i t) <> d.
Proof.
  intros Hd. assert (0 < length d)%nat by (destruct d; [congruence|simpl; lia]).
  induction fuel as [|fuel IH]; intros curr t i Ht; simpl in Ht.
  - destruct (curr <? length s)%nat; apply elem_of_nil in Ht; destruct Ht.
  - destruct (Nat.ltb_spec curr (length s)) as [Hlt|Hge];
      [|apply elem_of_nil in Ht; destruct Ht].
    destruct (find_pure s d curr (length s + 1 - length d - curr)) as [mt|] eqn:Hfind.
    + apply find_pure_Some in Hfind as (Hr & Hm & Hleft).
      apply elem_of_cons in Ht as [->|Ht]; [|exact (IH _ _ _ Ht)].
      intros Hocc. apply occurrence_in_piece in Hocc as (Hocc & Hfit & _); [|exact Hd].
      apply (Hleft (curr + i)%nat); [lia|exact Hocc].
    + apply list_elem_of_singleton in Ht as ->. intros Hocc.
      rewrite <- (take_ge (drop curr s) (length s)) in Hocc by (rewrite length_drop; lia).
      apply occurrence_in_piece in Hocc as (Hocc & _ & Hfit); [|exact Hd].
      apply (find_pure_None _ _ _ _ Hfind (curr + i)%nat); [lia|exact Hocc].
Qed.

Section SplitPure.
Variables (bs : nat) (os n : Z) (bd : nat) (od dn : Z).
Variables (sbytes dbytes : list byte).

Let str : String := {| str_length := n; str_data := Ptr bs os |}.
Let delimiter : String := {| str_length := dn; str_data := Ptr bd od |}.

Hypothesis Hn : 0 <= n < 2 ^ 30.
Hypothesis Hdn : 0 < dn.

Let source_ok (m : Mem) (arena : Arena) : Prop :=
  live m arena (Ptr bs os) (n + 1) /\ load m (Ptr bs os) n = Ok sbytes
  /\ live m arena (Ptr bd od) dn /\ load m (Ptr bd od) dn = Ok dbytes.

(** The search loop finds what [find_pure] finds. *)
Lemma find_match_pure (m : Mem) (arena : Arena) (k : nat) :
  source_ok m arena ->
  forall search : Z,
    0 <= search ->
    k = 0%nat \/ search + Z.of_nat k + dn <= n + 1 ->
    find_match m str delimiter search k
    = Ok (Z.of_nat <$> find_pure sbytes dbytes (Z.to_nat search) k).
Proof.
  intros (Hls & Hs & Hld & Hd).
  assert (Hds : Z.of_nat (length dbytes) = dn) by (eapply load_length; eauto; lia).
  assert (Hss : Z.of_nat (length sbytes) = n) by (eapply load_length; eauto; lia).
  induction k as [|k IH]; intros search Hpos Hk; [reflexivity|].
  destruct Hk as [|Hk]; [discriminate|].
  simpl. unfold memcmp. cbn [str_data str_length str delimiter ptr_add].
  rewrite (load_sub m bs os n search dn sbytes Hs) by lia. mstep.
  rewrite Hd. do 2 mstep.
  replace (length dbytes) with (Z.to_nat dn) by lia.
  assert (Hlen : length (take (Z.to_nat dn) (drop (Z.to_nat search) sbytes))
                 = length dbytes)
    by (rewrite length_take, length_drop; lia).
  pose proof (bytes_cmp_eq _ _ Hlen) as Hcmp.
  destruct (decide (take (Z.to_nat dn) (drop (Z.to_nat search) sbytes) = dbytes)) as [E|E].
  - rewrite (proj2 (Z.eqb_eq _ _) (proj2 Hcmp E)).
    rewrite bool_decide_eq_true_2 by exact E. simpl. f_equal. f_equal. lia.
  - rewrite (proj2 (Z.eqb_neq _ _) (fun Hz => E (proj1 Hcmp Hz))).
    rewrite bool_decide_eq_false_2 by exact E.
    rewrite (IH (search + 1)) by lia.
    replace (Z.to_nat (search + 1)) with (S (Z.to_nat search)) by lia. reflexivity.
Qed.

(** The main loop adds the tokens of [split_pure]. *)
Lemma split_loop_pure (fuel : nat) :
  forall (m : Mem) (arena : Arena) (result : StringVector) (curr : Z)
         (toks : list String) (acc : list (list byte)),
    arena_wf m arena ->
    source_ok m arena ->
    vec_wf result -> vec_elems result = Some toks ->
    vec_capacity result <= INT32_MAX -> vec_length result <= curr ->
    Forall2 (holds m arena) toks acc ->
    0 <= curr <= n ->
    offset arena + (n - curr) + 1 < 2 ^ 63 ->
    (Z.to_nat (n - curr) <= fuel)%nat ->
    exists m' arena' result' toks',
      split_loop fuel m arena str delimiter result curr = Ok (m', arena', result')
      /\ vec_elems result' = Some toks'
      /\ Forall2 (holds m' arena') toks'
           (acc ++ split_pure fuel sbytes dbytes (Z.to_nat curr)).
Proof.
  induction fuel as [|fuel IH];
    intros m arena result curr toks acc Hwf Hsrc Hvwf Hve Hvcap Hvlen Htoks Hcurr Hoff Hfuel.
  - assert (curr = n) as -> by lia.
    pose proof Hsrc as (_ & Hs & _).
    assert (Hss : Z.of_nat (length sbytes) = n) by (eapply load_length; eauto; lia).
    simpl. cbn [str_length str]. rewrite Z.ltb_irrefl.
    destruct (Nat.ltb_spec (Z.to_nat n) (length sbytes)); [lia|].
    rewrite app_nil_r. exists m, arena, result, toks. auto.
  - pose proof Hsrc as (Hls & Hs & Hld & Hd).
    assert (Hss : Z.of_nat (length sbytes) = n) by (eapply load_length; eauto; lia).
    assert (Hds : Z.of_nat (length dbytes) = dn) by (eapply load_length; eauto; lia).
    cbn [split_loop split_pure]. cbn [str_length str_data str delimiter ptr_add].
    destruct (Z.ltb_spec curr n) as [Hlt|Hge].
    2:{ destruct (Nat.ltb_spec (Z.to_nat curr) (length sbytes)); [lia|].
        rewrite app_nil_r. exists m, arena, result, toks. auto. }
    destruct (Nat.ltb_spec (Z.to_nat curr) (length sbytes)); [|lia].
    assert (Hpush : forall (v : StringVector) (x : String) (l : list String),
              vec_wf v -> vec_elems v = Some l ->
              vec_capacity v <= INT32_MAX -> vec_length v <= curr ->
              exists v' r, VecPush sizeof_String v x = Ok (v', r)
                /\ vec_wf v' /\ vec_elems v' = Some (l ++ [x])
                /\ vec_length v' = vec_length v + 1
                /\ vec_capacity v' <= INT32_MAX).
    { intros v x l Hv1 Hv2 Hv3 Hv4.
      assert (Hg : vec_length v = vec_capacity v -> grown (vec_capacity v) <= INT32_MAX).
      { intros E. unfold grown, INT32_MAX. destruct (Z.eqb_spec (vec_capacity v) 0); lia. }
      destruct (VecPush_spec sizeof_String ltac:(reflexivity) ltac:(discriminate) v x l
                  Hv1 Hv2 Hv3 Hg) as (v' & Hp & Hw' & He' & Hl' & Hc').
      exists v'. eexists. split; [exact Hp|]. repeat split; auto; try apply Hw'.
      rewrite Hc'. destruct (Z.ltb_spec (vec_length v) (vec_capacity v)); [exact Hv3|].
      apply Hg. destruct Hv1. lia. }
    rewrite (find_match_pure m arena _ Hsrc curr) by lia.
    replace (Z.to_nat (n - dn - curr + 1))
      with (length sbytes + 1 - length dbytes - Z.to_nat curr)%nat by lia.
    destruct (find_pure sbytes dbytes (Z.to_nat curr)
                (length sbytes + 1 - length dbytes - Z.to_nat curr)) as [mt|] eqn:Hfind;
      cbn [fmap option_fmap option_map]; mstep.
    + (* a match at [mt]: the token is the bytes before it *)
      apply find_pure_Some in Hfind as (Hr & Hm & _).
      assert (Hfit : Z.of_nat mt + dn <= n) by lia.
      set (tok := take (mt - Z.to_nat curr) (drop (Z.to_nat curr) sbytes)).
      assert (Hlv : live m arena (Ptr bs (os + curr)) (Z.of_nat mt - curr + 1))
        by (apply (live_sub m arena bs os (n + 1) curr (Z.of_nat mt - curr + 1) Hls); lia).
      assert (Hld' : load m (Ptr bs (os + curr)) (Z.of_nat mt - curr) = Ok tok).
      { rewrite (load_sub m bs os n curr (Z.of_nat mt - curr) sbytes Hs) by lia.
        unfold tok. do 2 f_equal. lia. }
      destruct (StrNewSize_spec m arena bs (os + curr) (Z.of_nat mt - curr) tok Hwf
                  ltac:(lia) ltac:(lia) Hlv Hld')
        as (m1 & arena1 & b & o & Hnew & Hwf1 & Hoff1 & Hlive1 & Hload1 & Hframe).
      rewrite Hnew. mstep.
      destruct (Hpush result {| str_length := Z.of_nat mt - curr; str_data := Ptr b o |} toks)
        as (v' & r & Hp & Hw' & He' & Hl' & Hc'); auto.
      rewrite Hp. mstep.
      assert (Htok : Z.of_nat (length tok) = Z.of_nat mt - curr)
        by (unfold tok; rewrite length_take, length_drop; lia).
      destruct (IH m1 arena1 v' (Z.of_nat mt + dn)
                  (toks ++ [{| str_length := Z.of_nat mt - curr; str_data := Ptr b o |}])
                  (acc ++ [tok]))
        as (m' & arena' & result' & toks' & Hloop & Hve' & Hholds); auto; try lia.
      * destruct (Hframe _ _ _ Hls) as [Hls1 _]. destruct (Hframe _ _ _ Hld) as [Hld1 Hd1].
        pose proof (live_sub m arena bs os (n + 1) 0 n Hls) as Hsub.
        rewrite Z.add_0_r in Hsub.
        destruct (Hframe bs os n) as [_ Hs1]; [apply Hsub; lia|].
        split; [exact Hls1|]. split; [congruence|]. split; [exact Hld1|congruence].
      * apply Forall2_app.
        -- eapply Forall2_impl; [|exact Htoks]. intros s t Hst. eapply holds_frame; eauto.
        -- constructor; [|constructor]. split; [simpl; lia|].
           exists b, o. cbn [str_length str_data]. split; [reflexivity|]. split; [exact Hlive1|].
           rewrite (load_prefix m1 b o (Z.of_nat mt - curr + 1) (Z.of_nat mt - curr) _ Hload1)
             by lia.
           rewrite take_app_length' by lia. reflexivity.
      * exists m', arena', result', toks'. split; [exact Hloop|]. split; [exact Hve'|].
        rewrite <- app_assoc in Hholds. simpl in Hholds.
        replace (Z.to_nat (Z.of_nat mt + dn)) with (mt + length dbytes)%nat in Hholds by lia.
        exact Hholds.
    + (* no match: the rest of the source is the last token *)
      set (rest := drop (Z.to_nat curr) sbytes).
      assert (Hlv : live m arena (Ptr bs (os + curr)) (n - curr + 1)).
      { replace (n - curr + 1) with (n + 1 - curr) by lia.
        apply (live_sub m arena bs os (n + 1) curr (n + 1 - curr) Hls); lia. }
      assert (Hld' : load m (Ptr bs (os + curr)) (n - curr) = Ok rest).
      { rewrite (load_sub m bs os n curr (n - curr) sbytes Hs) by lia.
        unfold rest. rewrite take_ge; [reflexivity|]. rewrite length_drop. lia. }
      destruct (StrNewSize_spec m arena bs (os + curr) (n - curr) rest Hwf
                  ltac:(lia) ltac:(lia) Hlv Hld')
        as (m1 & arena1 & b & o & Hnew & Hwf1 & Hoff1 & Hlive1 & Hload1 & Hframe).
      rewrite Hnew. mstep.
      destruct (Hpush result {| str_length := n - curr; str_data := Ptr b o |} toks)
        as (v' & r & Hp & Hw' & He' & Hl' & Hc'); auto.
      rewrite Hp. mstep.
      assert (Hrest : Z.of_nat (length rest) = n - curr)
        by (unfold rest; rewrite length_drop; lia).
      exists m1, arena1, v', (toks ++ [{| str_length := n - curr; str_data := Ptr b o |}]).
      split; [reflexivity|]. split; [exact He'|].
      apply Forall2_app.
      * eapply Forall2_impl; [|exact Htoks]. intros s t Hst. eapply holds_frame; eauto.
      * constructor; [|constructor]. split; [simpl; lia|].
        exists b, o. cbn [str_length str_data]. split; [reflexivity|]. split; [exact Hlive1|].
        rewrite (load_prefix m1 b o (n - curr + 1) (n - curr) _ Hload1) by lia.
        rewrite take_app_length' by lia. reflexivity.
Qed.
End SplitPure.

(** [StrSplit] with a delimiter of one byte or more returns the tokens of
    [split_pure]. *)
Lemma split_tokens_pure (m : Mem) (arena : Arena)
    (str delimiter : String) (sbytes dbytes : list byte) :
  arena_wf m arena ->
  live m arena (str_data str) (str_length str + 1) ->
  live m arena (str_data delimiter) (str_length delimiter) ->
  str_bytes m str = Ok sbytes ->
  str_bytes m delimiter = Ok dbytes ->
  0 < str_length delimiter ->
  0 <= str_length str < 2 ^ 30 ->
  offset arena + str_length str + 1 < 2 ^ 63 ->
  split_tokens m arena str delimiter = Ok (split_pure (length sbytes) sbytes dbytes 0).
Proof.
  intros Hwf Hls Hld Hs Hd Hdn Hn Hoff.
  destruct str as [n [|bs os]]; [destruct Hls as [[] _]|].
  destruct delimiter as [dn [|bd od]]; [destruct Hld as [[] _]|].
  unfold str_bytes in Hs, Hd. cbn [str_length str_data] in *.
  assert (Hss : Z.of_nat (length sbytes) = n) by (eapply load_length; eauto; lia).
  assert (Hcap : vec_capacity (@VecZero String) <= INT32_MAX) by discriminate.
  assert (Hfuel : (Z.to_nat (n - 0) <= Z.to_nat n)%nat) by lia.
  destruct (split_loop_pure bs os n bd od dn sbytes dbytes Hn Hdn (Z.to_nat n)
              m arena VecZero 0 [] [] Hwf (conj Hls (conj Hs (conj Hld Hd)))
              VecZero_wf eq_refl Hcap (Z.le_refl 0) (Forall2_nil _)
              ltac:(lia) ltac:(lia) Hfuel)
    as (m' & arena' & result' & toks' & Hloop & Hve & Hholds).
  simpl app in Hholds. change (Z.to_nat 0) with 0%nat in Hholds.
  replace (Z.to_nat n) with (length sbytes) in Hholds by lia.
  unfold split_tokens, StrSplit. cbn [str_length str_data].
  change (StrIsNull _) with false. simpl negb. rewrite !assert_true.
  destruct (Z.eqb_spec dn 0); [lia|].
  repeat mstep. unfold StringVector in *. rewrite Hloop. repeat mstep. rewrite Hve.
  eapply strs_bytes_holds; eauto.
Qed.

(** X28. The tokens of [StrSplit] with a delimiter of one byte or more are
    those of [split_pure]: each token runs up to the next occurrence of
    the delimiter, so that no token contains the delimiter. *)
Theorem StrSplit_tokens_free_of_delimiter (m : Mem) (arena : Arena)
    (str delimiter : String) (sbytes dbytes : list byte) :
  arena_wf m arena ->
  live m arena (str_data str) (str_length str + 1) ->
  live m arena (str_data delimiter) (str_length delimiter) ->
  str_bytes m str = Ok sbytes ->
  str_bytes m delimiter = Ok dbytes ->
  0 < str_length delimiter ->
  0 <= str_length str < 2 ^ 30 ->
  offset arena + str_length str + 1 < 2 ^ 63 ->
  exists tokens,
    split_tokens m arena str delimiter = Ok tokens
    /\ tokens = split_pure (length sbytes) sbytes dbytes 0
    /\ (forall t i, t ∈ tokens -> take (length dbytes) (drop i t) <> dbytes).
Proof.
  intros Hwf Hls Hld Hs Hd Hdn Hn Hoff.
  exists (split_pure (length sbytes) sbytes dbytes 0).
  split; [apply split_tokens_pure; assumption|]. split; [reflexivity|].
  intros t i Ht. apply (split_pure_free sbytes dbytes (length sbytes)) with (curr := 0%nat).
  - intros ->. unfold str_bytes in Hd.
    apply load_length in Hd; [simpl in Hd|]; lia.
  - exact Ht.
Qed.

(** [StrSplit] of the literal ["a--b-c--"] by ["--"] on a fresh arena. *)
Lemma StrSplit_tokens_free_of_delimiter_witness :
  match ArenaCreate (static_mem [literal "a--b-c--"; literal "--"]) 64 with
  | Ok (m, arena) =>
      (arena_wf m arena
       /\ live m arena (Ptr 0 0) (8 + 1) /\ live m arena (Ptr 1 0) 2
       /\ str_bytes m (StrLit 0 "a--b-c--") = Ok (list_byte_of_string "a--b-c--")
       /\ str_bytes m (StrLit 1 "--") = Ok (list_byte_of_string "--")
       /\ 0 < 2 /\ 0 <= 8 < 2 ^ 30
       /\ offset arena + 8 + 1 < 2 ^ 63)
      /\ exists tokens,
           split_tokens m arena (StrLit 0 "a--b-c--") (StrLit 1 "--") = Ok tokens
           /\ tokens = [list_byte_of_string "a"; list_byte_of_string "b-c"]
           /\ (forall t i, t ∈ tokens ->
                 take (length (list_byte_of_string "--")) (drop i t)
                 <> list_byte_of_string "--")
  | Err _ => False
  end.
Proof.
  destruct (ArenaCreate_live (static_mem [literal "a--b-c--"; literal "--"]) 64)
    as (m & arena & Hc & Hwf & Ho & Hlive); [lia|].
  rewrite Hc.
  assert (Hl1 : live m arena (Ptr 0 0) (8 + 1)).
  { apply Hlive. exists 9. split; [reflexivity|]. lia. }
  assert (Hl2 : live m arena (Ptr 1 0) 2).
  { apply Hlive. exists 3. split; [reflexivity|]. lia. }
  assert (Hs : str_bytes m (StrLit 0 "a--b-c--") = Ok (list_byte_of_string "a--b-c--")).
  { unfold str_bytes. cbn [StrLit str_data str_length].
    destruct (Hlive 0%nat 0 (Z.of_nat (String.length "a--b-c--"))) as [_ ->];
      [exists 9; split; [reflexivity|simpl; lia]|reflexivity]. }
  assert (Hd : str_bytes m (StrLit 1 "--") = Ok (list_byte_of_string "--")).
  { unfold str_bytes. cbn [StrLit str_data str_length].
    destruct (Hlive 1%nat 0 (Z.of_nat (String.length "--"))) as [_ ->];
      [exists 3; split; [reflexivity|simpl; lia]|reflexivity]. }
  assert (H1 : 0 < 2) by lia. assert (H2 : 0 <= 8 < 2 ^ 30) by lia.
  assert (H3 : offset arena + 8 + 1 < 2 ^ 63) by (rewrite Ho; lia).
  split; [exact (conj Hwf (conj Hl1 (conj Hl2 (conj Hs (conj Hd (conj H1 (conj H2 H3)))))))|].
  exact (StrSplit_tokens_free_of_delimiter m arena (StrLit 0 "a--b-c--") (StrLit 1 "--")
           (list_byte_of_string "a--b-c--") (list_byte_of_string "--")
           Hwf Hl1 Hl2 Hs Hd H1 H2 H3).
Defined.

(** ** The lines of [StrSplitNewLine] *)

Lemma take_1_drop (s : list byte) (p : nat) (c : byte) :
  take 1 (drop p s) = [c] <-> s !! p = Some c.
Proof.
  split.
  - intros H. destruct (s !! p) as [x|] eqn:E.
    + rewrite (drop_S _ _ _ E) in H. simpl in H. rewrite take_0 in H. congruence.
    + apply lookup_ge_None in E. rewrite drop_ge in H by lia. discriminate.
  - intros H. rewrite (drop_S _ _ _ H). reflexivity.
Qed.

Lemma lines_pure_free (s : list byte) (fuel : nat) :
  forall curr t, t ∈ lines_pure fuel s curr -> "010"%byte ∉ t.
Proof.
  assert (Hpiece : forall curr len i,
            take len (drop curr s) !! i = Some "010"%byte ->
            s !! (curr + i)%nat = Some "010"%byte /\ (i < len)%nat).
  { intros curr len i Hi. apply lookup_take_Some in Hi as [Hi Hlt].
    rewrite lookup_drop in Hi. auto. }
  induction fuel as [|fuel IH]; intros curr t Ht; simpl in Ht.
  - destruct (curr <? length s)%nat; apply elem_of_nil in Ht; destruct Ht.
  - destruct (Nat.ltb_spec curr (length s)) as [Hlt|Hge];
      [|apply elem_of_nil in Ht; destruct Ht].
    destruct (find_pure s ["010"%byte] curr (length s - curr)) as [pos|] eqn:Hfind.
    + apply find_pure_Some in Hfind as (Hr & Hm & Hleft).
      apply elem_of_cons in Ht as [->|Ht]; [|exact (IH _ _ Ht)].
      intros Hin.
      assert (Hocc : exists len i, (len <= pos - curr)%nat
                       /\ take len (drop curr s) !! i = Some "010"%byte).
      { destruct ((curr <? pos)%nat && bool_decide (s !! (pos - 1)%nat = Some "013"%byte));
          apply list_elem_of_lookup in Hin as [i Hi]; eexists _, i; (split; [|exact Hi]); lia. }
      destruct Hocc as (len & i & Hlen & Hi).
      apply Hpiece in Hi as [Hi Hil].
      apply (Hleft (curr + i)%nat); [lia|]. apply take_1_drop. exact Hi.
    + apply list_elem_of_singleton in Ht as ->. intros Hin.
      apply list_elem_of_lookup in Hin as [i Hi]. rewrite lookup_drop in Hi.
      apply lookup_lt_Some in Hi as Hil.
      apply (find_pure_None _ _ _ _ Hfind (curr + i)%nat); [lia|].
      apply take_1_drop. exact Hi.
Qed.

(** On text without carriage returns the lines are the tokens of a split
    by the line feed. *)
Lemma lines_pure_split_pure (s : list byte) (fuel : nat) :
  "013"%byte ∉ s ->
  forall curr, lines_pure fuel s curr = split_pure fuel s ["010"%byte] curr.
Proof.
  intros Hcr. induction fuel as [|fuel IH]; intros curr; [reflexivity|].
  simpl. destruct (curr <? length s)%nat; [|reflexivity].
  replace (length s + 1 - 1 - curr)%nat with (length s - curr)%nat by lia.
  destruct (find_pure s ["010"%byte] curr (length s - curr)) as [pos|]; [|reflexivity].
  rewrite bool_decide_eq_false_2.
  - rewrite andb_false_r, IH. do 2 f_equal. lia.
  - intros Hp. apply Hcr. eapply list_elem_of_lookup_2. exact Hp.
Qed.

Section Lines.
Variables (bs : nat) (os n : Z) (sbytes : list byte).

Let str : String := {| str_length := n; str_data := Ptr bs os |}.

Hypothesis Hn : 0 <= n < 2 ^ 30.

Let source_ok (m : Mem) (arena : Arena) : Prop :=
  live m arena (Ptr bs os) (n + 1) /\ load m (Ptr bs os) n = Ok sbytes.

(** The inner loop stops where [find_pure] finds a line feed, and at the
    end of the range when there is none. *)
Lemma find_newline_pure (m : Mem) (k : nat) :
  load m (Ptr bs os) n = Ok sbytes ->
  forall pos : Z,
    0 <= pos -> pos + Z.of_nat k <= n ->
    find_newline m str pos k
    = Ok (match find_pure sbytes ["010"%byte] (Z.to_nat pos) k with
          | Some p => Z.of_nat p
          | None => pos + Z.of_nat k
          end).
Proof.
  intros Hs.
  assert (Hss : Z.of_nat (length sbytes) = n) by (eapply load_length; eauto; lia).
  induction k as [|k IH]; intros pos Hpos Hk; [simpl; f_equal; lia|].
  destruct (lookup_lt_is_Some_2 sbytes (Z.to_nat pos)) as [c Hc]; [lia|].
  cbn [find_newline find_pure str_data str ptr_add].
  rewrite (load_byte_at m bs os n pos sbytes c Hs) by (auto; lia). mstep.
  destruct (decide (c = "010"%byte)) as [->|Hne].
  - rewrite bool_decide_eq_true_2 by reflexivity.
    rewrite bool_decide_eq_true_2 by (apply take_1_drop; exact Hc).
    f_equal. lia.
  - rewrite bool_decide_eq_false_2 by exact Hne.
    rewrite bool_decide_eq_false_2
      by (intros E; apply take_1_drop in E; congruence).
    rewrite (IH (pos + 1)) by lia.
    replace (Z.to_nat (pos + 1)) with (S (Z.to_nat pos)) by lia.
    destruct (find_pure sbytes ["010"%byte] (S (Z.to_nat pos)) k); f_equal; lia.
Qed.

(** The outer loop adds the lines of [lines_pure]. *)
Lemma newline_loop_pure (fuel : nat) :
  forall (m : Mem) (arena : Arena) (result : StringVector) (curr : Z)
         (toks : list String) (acc : list (list byte)),
    arena_wf m arena ->
    source_ok m arena ->
    vec_wf result -> vec_elems result = Some toks ->
    vec_capacity result <= INT32_MAX -> vec_length result <= curr ->
    Forall2 (holds m arena) toks acc ->
    0 <= curr <= n ->
    offset arena + (n - curr) + 1 < 2 ^ 63 ->
    (Z.to_nat (n - curr) <= fuel)%nat ->
    exists m' arena' result' toks',
      newline_loop fuel m arena str result curr = Ok (m', arena', result')
      /\ vec_elems result' = Some toks'
      /\ Forall2 (holds m' arena') toks'
           (acc ++ lines_pure fuel sbytes (Z.to_nat curr)).
Proof.
  induction fuel as [|fuel IH];
    intros m arena result curr toks acc Hwf Hsrc Hvwf Hve Hvcap Hvlen Htoks Hcurr Hoff Hfuel.
  - assert (curr = n) as -> by lia.
    pose proof Hsrc as (_ & Hs).
    assert (Hss : Z.of_nat (length sbytes) = n) by (eapply load_length; eauto; lia).
    simpl. cbn [str_length str]. rewrite Z.ltb_irrefl.
    destruct (Nat.ltb_spec (Z.to_nat n) (length sbytes)); [lia|].
    rewrite app_nil_r. exists m, arena, result, toks. auto.
  - pose proof Hsrc as (Hls & Hs).
    assert (Hss : Z.of_nat (length sbytes) = n) by (eapply load_length; eauto; lia).
    cbn [newline_loop lines_pure]. cbn [str_length str_data str ptr_add].
    destruct (Z.ltb_spec curr n) as [Hlt|Hge].
    2:{ destruct (Nat.ltb_spec (Z.to_nat curr) (length sbytes)); [lia|].
        rewrite app_nil_r. exists m, arena, result, toks. auto. }
    destruct (Nat.ltb_spec (Z.to_nat curr) (length sbytes)); [|lia].
    assert (Hpush : forall (v : StringVector) (x : String) (l : list String),
              vec_wf v -> vec_elems v = Some l ->
              vec_capacity v <= INT32_MAX -> vec_length v <= curr ->
              exists v' r, VecPush sizeof_String v x = Ok (v', r)
                /\ vec_wf v' /\ vec_elems v' = Some (l ++ [x])
                /\ vec_length v' = vec_length v + 1
                /\ vec_capacity v' <= INT32_MAX).
    { intros v x l Hv1 Hv2 Hv3 Hv4.
      assert (Hg : vec_length v = vec_capacity v -> grown (vec_capacity v) <= INT32_MAX).
      { intros E. unfold grown, INT32_MAX. destruct (Z.eqb_spec (vec_capacity v) 0); lia. }
      destruct (VecPush_spec sizeof_String ltac:(reflexivity) ltac:(discriminate) v x l
                  Hv1 Hv2 Hv3 Hg) as (v' & Hp & Hw' & He' & Hl' & Hc').
      exists v'. eexists. split; [exact Hp|]. repeat split; auto; try apply Hw'.
      rewrite Hc'. destruct (Z.ltb_spec (vec_length v) (vec_capacity v)); [exact Hv3|].
      apply Hg. destruct Hv1. lia. }
    (* one token, of [len] bytes from [curr], then the rest of the loop *)
    assert (Htoken : forall len : Z, 0 <= len <= n - curr ->
              exists m1 arena1 v',
                ('(m, arena, currString) ←
                   StrNewSize m arena (Ptr bs (os + curr)) len;
                 '(result, _) ← VecPush sizeof_String result currString;
                 Ok (m, arena, result)) = Ok (m1, arena1, v')
                /\ arena_wf m1 arena1 /\ source_ok m1 arena1
                /\ offset arena1 = offset arena + (len + 1)
                /\ vec_wf v' /\ vec_capacity v' <= INT32_MAX
                /\ vec_length v' = vec_length result + 1
                /\ exists tok, vec_elems v' = Some (toks ++ [tok])
                     /\ Forall2 (holds m1 arena1) (toks ++ [tok])
                          (acc ++ [take (Z.to_nat len) (drop (Z.to_nat curr) sbytes)])).
    { intros len Hlen.
      set (tok := take (Z.to_nat len) (drop (Z.to_nat curr) sbytes)).
      assert (Hlv : live m arena (Ptr bs (os + curr)) (len + 1))
        by (apply (live_sub m arena bs os (n + 1) curr (len + 1) Hls); lia).
      assert (Hld' : load m (Ptr bs (os + curr)) len = Ok tok)
        by (apply (load_sub m bs os n curr len sbytes Hs); lia).
      destruct (StrNewSize_spec m arena bs (os + curr) len tok Hwf
                  ltac:(lia) ltac:(lia) Hlv Hld')
        as (m1 & arena1 & b & o & Hnew & Hwf1 & Hoff1 & Hlive1 & Hload1 & Hframe).
      rewrite Hnew. mstep.
      destruct (Hpush result {| str_length := len; str_data := Ptr b o |} toks)
        as (v' & r & Hp & Hw' & He' & Hl' & Hc'); auto.
      rewrite Hp. mstep.
      assert (Htok : Z.of_nat (length tok) = len)
        by (unfold tok; rewrite length_take, length_drop; lia).
      exists m1, arena1, v'. split; [reflexivity|]. split; [exact Hwf1|]. split.
      { destruct (Hframe _ _ _ Hls) as [Hls1 _].
        pose proof (live_sub m arena bs os (n + 1) 0 n Hls) as Hsub.
        rewrite Z.add_0_r in Hsub.
        destruct (Hframe bs os n) as [_ Hs1]; [apply Hsub; lia|].
        split; [exact Hls1|congruence]. }
      split; [exact Hoff1|]. split; [exact Hw'|]. split; [exact Hc'|].
      split; [exact Hl'|].
      exists {| str_length := len; str_data := Ptr b o |}. split; [exact He'|].
      apply Forall2_app.
      - eapply Forall2_impl; [|exact Htoks]. intros s t Hst. eapply holds_frame; eauto.
      - constructor; [|constructor]. split; [simpl; lia|].
        exists b, o. cbn [str_length str_data]. split; [reflexivity|]. split; [exact Hlive1|].
        rewrite (load_prefix m1 b o (len + 1) len _ Hload1) by lia.
        rewrite take_app_length' by lia. reflexivity. }
    rewrite (find_newline_pure m _ Hs curr) by lia.
    replace (Z.to_nat (n - curr)) with (length sbytes - Z.to_nat curr)%nat by lia.
    destruct (find_pure sbytes ["010"%byte] (Z.to_nat curr)
                (length sbytes - Z.to_nat curr)) as [p|] eqn:Hfind; mstep.
    + (* a line feed at [p] *)
      apply find_pure_Some in Hfind as (Hr & Hm & _).
      destruct (Z.ltb_spec (Z.of_nat p) n); [|lia].
      assert (Hlen : exists len,
                (if true && (Z.of_nat p >? curr)
                 then c ← load_byte m (Ptr bs (os + (Z.of_nat p - 1)));
                      if bool_decide (c = "013"%byte)
                      then Ok (Z.of_nat p - curr - 1) else Ok (Z.of_nat p - curr)
                 else Ok (Z.of_nat p - curr)) = Ok len
                /\ 0 <= len <= Z.of_nat p - curr
                /\ (if (Z.to_nat curr <? p)%nat
                       && bool_decide (sbytes !! (p - 1)%nat = Some "013"%byte)
                    then take (p - Z.to_nat curr - 1) (drop (Z.to_nat curr) sbytes)
                    else take (p - Z.to_nat curr) (drop (Z.to_nat curr) sbytes))
                   = take (Z.to_nat len) (drop (Z.to_nat curr) sbytes)).
      { cbn [andb]. destruct (Z.gtb_spec (Z.of_nat p) curr) as [Hgt|Hle].
        - destruct (Nat.ltb_spec (Z.to_nat curr) p); [|lia]. cbn [andb].
          destruct (lookup_lt_is_Some_2 sbytes (p - 1)) as [c Hc]; [lia|].
          rewrite (load_byte_at m bs os n (Z.of_nat p - 1) sbytes c Hs)
            by (try lia; replace (Z.to_nat (Z.of_nat p - 1)) with (p - 1)%nat by lia;
                exact Hc).
          mstep. rewrite Hc. destruct (decide (c = "013"%byte)) as [->|Hne].
          + rewrite !bool_decide_eq_true_2 by reflexivity.
            eexists. split; [reflexivity|]. split; [lia|]. f_equal. lia.
          + rewrite bool_decide_eq_false_2 by exact Hne.
            rewrite bool_decide_eq_false_2 by congruence.
            eexists. split; [reflexivity|]. split; [lia|]. f_equal. lia.
        - destruct (Nat.ltb_spec (Z.to_nat curr) p); [lia|]. cbn [andb].
          eexists. split; [reflexivity|]. split; [lia|]. f_equal. lia. }
      destruct Hlen as (len & -> & Hlenr & ->). mstep.
      destruct (Htoken len ltac:(lia))
        as (m1 & arena1 & v' & Hrun & Hwf1 & Hsrc1 & Hoff1 & Hw' & Hc' & Hl' & tok & He' & Hh').
      assert (Hstep :
                ('(m, arena, currString) ←
                   StrNewSize m arena (Ptr bs (os + curr)) len;
                 '(result, _) ← VecPush sizeof_String result currString;
                 newline_loop fuel m arena str result (Z.of_nat p + 1))
                = newline_loop fuel m1 arena1 str v' (Z.of_nat p + 1)).
      { destruct (StrNewSize m arena (Ptr bs (os + curr)) len) as [[[mm aa] ss]|e];
          [|discriminate Hrun].
        revert Hrun. mstep. intros Hrun. mstep.
        destruct (VecPush sizeof_String result ss) as [[vv rr]|e]; [|discriminate Hrun].
        revert Hrun. mstep. intros [= -> -> ->]. mstep. reflexivity. }
      fold str. rewrite Hstep.
      destruct (IH m1 arena1 v' (Z.of_nat p + 1) (toks ++ [tok])
                  (acc ++ [take (Z.to_nat len) (drop (Z.to_nat curr) sbytes)]))
        as (m' & arena' & result' & toks' & Hloop & Hve' & Hholds); auto; try lia.
      exists m', arena', result', toks'. split; [exact Hloop|]. split; [exact Hve'|].
      rewrite <- app_assoc in Hholds. simpl in Hholds.
      replace (Z.to_nat (Z.of_nat p + 1)) with (S p) in Hholds by lia.
      exact Hholds.
    + (* no line feed: the rest of the source is the last line *)
      replace (curr + Z.of_nat (length sbytes - Z.to_nat curr)) with n by lia.
      rewrite Z.ltb_irrefl. cbn [andb]. mstep.
      destruct (Htoken (n - curr) ltac:(lia))
        as (m1 & arena1 & v' & Hrun & Hwf1 & Hsrc1 & Hoff1 & Hw' & Hc' & Hl' & tok & He' & Hh').
      rewrite take_ge in Hh' by (rewrite length_drop; lia).
      exists m1, arena1, v', (toks ++ [tok]). split; [|split; [exact He'|exact Hh']].
      destruct (StrNewSize m arena (Ptr bs (os + curr)) (n - curr)) as [[[mm aa] ss]|e];
        [|discriminate Hrun].
      revert Hrun. mstep. intros Hrun. mstep.
      destruct (VecPush sizeof_String result ss) as [[vv rr]|e]; [|discriminate Hrun].
      revert Hrun. mstep. intros [= -> -> ->]. mstep. reflexivity.
Qed.
End Lines.

(** X29. The lines [StrSplitNewLine] returns are those of [lines_pure]:
    each runs up to the next line feed, without a carriage return right
    before that line feed, and none contains a line feed. On text without
    carriage returns they are the tokens that [StrSplit] returns for the
    delimiter ["\n"]. *)
Theorem StrSplitNewLine_lines (m : Mem) (arena : Arena) (str delimiter : String)
    (sbytes : list byte) :
  arena_wf m arena ->
  live m arena (str_data str) (str_length str + 1) ->
  str_bytes m str = Ok sbytes ->
  0 <= str_length str < 2 ^ 30 ->
  offset arena + str_length str + 1 < 2 ^ 63 ->
  exists lines,
    line_tokens m arena str = Ok lines
    /\ lines = lines_pure (length sbytes) sbytes 0
    /\ (forall t, t ∈ lines -> "010"%byte ∉ t)
    /\ ("013"%byte ∉ sbytes ->
        live m arena (str_data delimiter) (str_length delimiter) ->
        str_bytes m delimiter = Ok ["010"%byte] ->
        split_tokens m arena str delimiter = Ok lines).
Proof.
  intros Hwf Hls Hs Hn Hoff.
  exists (lines_pure (length sbytes) sbytes 0).
  split; [|split; [reflexivity|split]].
  - destruct str as [n [|bs os]]; [destruct Hls as [[] _]|].
    unfold str_bytes in Hs. cbn [str_length str_data] in *.
    assert (Hss : Z.of_nat (length sbytes) = n) by (eapply load_length; eauto; lia).
    assert (Hcap : vec_capacity (@VecZero String) <= INT32_MAX) by discriminate.
    assert (Hfuel : (Z.to_nat (n - 0) <= Z.to_nat n)%nat) by lia.
    destruct (newline_loop_pure bs os n sbytes Hn (Z.to_nat n)
                m arena VecZero 0 [] [] Hwf (conj Hls Hs)
                VecZero_wf eq_refl Hcap (Z.le_refl 0) (Forall2_nil _)
                ltac:(lia) ltac:(lia) Hfuel)
      as (m' & arena' & result' & toks' & Hloop & Hve & Hholds).
    simpl app in Hholds. change (Z.to_nat 0) with 0%nat in Hholds.
    replace (Z.to_nat n) with (length sbytes) in Hholds by lia.
    unfold line_tokens, StrSplitNewLine. cbn [str_length str_data].
    change (StrIsNull _) with false. simpl negb. rewrite assert_true.
    repeat mstep. unfold StringVector in *. rewrite Hloop. repeat mstep. rewrite Hve.
    eapply strs_bytes_holds; eauto.
  - intros t Ht. exact (lines_pure_free sbytes (length sbytes) 0%nat t Ht).
  - intros Hcr Hld Hd.
    rewrite (lines_pure_split_pure sbytes (length sbytes) Hcr).
    apply split_tokens_pure; auto.
    unfold str_bytes in Hd. apply load_length in Hd; [simpl in Hd; lia|].
    destruct Hld as [Hr _]. destruct (str_data delimiter); [destruct Hr|].
    destruct Hr as (? & _ & _ & ? & _). lia.
Qed.

(** [StrSplitNewLine] of the three lines ["ab"], [""] and ["c"]. *)
Lemma StrSplitNewLine_lines_witness :
  match ArenaCreate
          (static_mem [list_byte_of_string "ab" ++ ["010"; "010"; "c"; "000"]%byte;
                       ["010"; "000"]%byte]) 64 with
  | Ok (m, arena) =>
      (arena_wf m arena
       /\ live m arena (Ptr 0 0) (5 + 1)
       /\ str_bytes m {| str_length := 5; str_data := Ptr 0 0 |}
          = Ok (list_byte_of_string "ab" ++ ["010"; "010"; "c"]%byte)
       /\ 0 <= 5 < 2 ^ 30
       /\ offset arena + 5 + 1 < 2 ^ 63
       /\ ("013"%byte ∉ list_byte_of_string "ab" ++ ["010"; "010"; "c"]%byte)
       /\ live m arena (Ptr 1 0) 1
       /\ str_bytes m {| str_length := 1; str_data := Ptr 1 0 |} = Ok ["010"%byte])
      /\ exists lines,
           line_tokens m arena {| str_length := 5; str_data := Ptr 0 0 |} = Ok lines
           /\ lines = [list_byte_of_string "ab"; []; list_byte_of_string "c"]
           /\ (forall t, t ∈ lines -> "010"%byte ∉ t)
           /\ split_tokens m arena {| str_length := 5; str_data := Ptr 0 0 |}
                {| str_length := 1; str_data := Ptr 1 0 |} = Ok lines
  | Err _ => False
  end.
Proof.
  destruct (ArenaCreate_live
              (static_mem [list_byte_of_string "ab" ++ ["010"; "010"; "c"; "000"]%byte;
                           ["010"; "000"]%byte]) 64)
    as (m & arena & Hc & Hwf & Ho & Hlive); [lia|].
  rewrite Hc.
  assert (Hl1 : live m arena (Ptr 0 0) (5 + 1)).
  { apply Hlive. exists 6. split; [reflexivity|]. lia. }
  assert (Hs : str_bytes m {| str_length := 5; str_data := Ptr 0 0 |}
               = Ok (list_byte_of_string "ab" ++ ["010"; "010"; "c"]%byte)).
  { unfold str_bytes. cbn [str_data str_length].
    destruct (Hlive 0%nat 0 5) as [_ ->];
      [exists 6; split; [reflexivity|lia]|reflexivity]. }
  assert (H2 : 0 <= 5 < 2 ^ 30) by lia.
  assert (H3 : offset arena + 5 + 1 < 2 ^ 63) by (rewrite Ho; lia).
  assert (H4 : "013"%byte ∉ list_byte_of_string "ab" ++ ["010"; "010"; "c"]%byte).
  { intros Hin. simpl in Hin. repeat (apply elem_of_cons in Hin as [Hin|Hin]; [discriminate Hin|]).
    apply elem_of_nil in Hin. exact Hin. }
  assert (Hl2 : live m arena (Ptr 1 0) 1).
  { apply Hlive. exists 2. split; [reflexivity|]. lia. }
  assert (Hd : str_bytes m {| str_length := 1; str_data := Ptr 1 0 |} = Ok ["010"%byte]).
  { unfold str_bytes. cbn [str_data str_length].
    destruct (Hlive 1%nat 0 1) as [_ ->];
      [exists 2; split; [reflexivity|lia]|reflexivity]. }
  split; [exact (conj Hwf (conj Hl1 (conj Hs (conj H2 (conj H3 (conj H4 (conj Hl2 Hd)))))))|].
  destruct (StrSplitNewLine_lines m arena {| str_length := 5; str_data := Ptr 0 0 |}
              {| str_length := 1; str_data := Ptr 1 0 |}
              (list_byte_of_string "ab" ++ ["010"; "010"; "c"]%byte)
              Hwf Hl1 Hs H2 H3)
    as (lines & Hrun & Hlines & Hfree & Hsame).
  exists lines. exact (conj Hrun (conj Hlines (conj Hfree (Hsame H4 Hl2 Hd)))).
Defined.

(** ** [StrSplit] with an empty delimiter *)

Section SplitBytes.
Variables (bs : nat) (os n : Z) (sbytes : list byte).

Let str : String := {| str_length := n; str_data := Ptr bs os |}.

Hypothesis Hn : 0 <= n < 2 ^ 30.

Let source_ok (m : Mem) (arena : Arena) : Prop :=
  live m arena (Ptr bs os) (n + 1) /\ load m (Ptr bs os) n = Ok sbytes.

(** The loop adds one token of one byte for each byte it passes. *)
Lemma split_bytes_spec (k : nat) :
  forall (m : Mem) (arena : Arena) (result : StringVector) (i : Z)
         (toks : list String) (acc : list (list byte)),
    arena_wf m arena ->
    source_ok m arena ->
    vec_wf result -> vec_elems result = Some toks ->
    vec_capacity result <= INT32_MAX -> vec_length result <= i ->
    Forall2 (holds m arena) toks acc ->
    0 <= i -> i + Z.of_nat k <= n ->
    offset arena + 2 * Z.of_nat k < 2 ^ 63 ->
    exists m' arena' result' toks',
      split_bytes m arena str result i k = Ok (m', arena', result')
      /\ vec_elems result' = Some toks'
      /\ Forall2 (holds m' arena') toks'
           (acc ++ map (fun c => [c]) (take k (drop (Z.to_nat i) sbytes))).
Proof.
  induction k as [|k IH];
    intros m arena result i toks acc Hwf Hsrc Hvwf Hve Hvcap Hvlen Htoks Hi Hik Hoff.
  - simpl. rewrite app_nil_r. exists m, arena, result, toks. auto.
  - pose proof Hsrc as (Hls & Hs).
    assert (Hss : Z.of_nat (length sbytes) = n) by (eapply load_length; eauto; lia).
    destruct (lookup_lt_is_Some_2 sbytes (Z.to_nat i)) as [c Hc]; [lia|].
    cbn [split_bytes str_data str ptr_add].
    assert (Hlv : live m arena (Ptr bs (os + i)) (1 + 1))
      by (apply (live_sub m arena bs os (n + 1) i (1 + 1) Hls); lia).
    assert (Hld : load m (Ptr bs (os + i)) 1 = Ok [c]).
    { rewrite (load_sub m bs os n i 1 sbytes Hs) by lia.
      rewrite (drop_S _ _ _ Hc). reflexivity. }
    destruct (StrNewSize_spec m arena bs (os + i) 1 [c] Hwf
                ltac:(lia) ltac:(lia) Hlv Hld)
      as (m1 & arena1 & b & o & Hnew & Hwf1 & Hoff1 & Hlive1 & Hload1 & Hframe).
    rewrite Hnew. mstep.
    assert (Hg : vec_length result = vec_capacity result ->
                 grown (vec_capacity result) <= INT32_MAX).
    { intros E. unfold grown, INT32_MAX. destruct (Z.eqb_spec (vec_capacity result) 0); lia. }
    destruct (VecPush_spec sizeof_String ltac:(reflexivity) ltac:(discriminate) result
                {| str_length := 1; str_data := Ptr b o |} toks Hvwf Hve Hvcap Hg)
      as (v' & Hp & Hw' & He' & Hl' & Hc').
    unfold StringVector in *. rewrite Hp. mstep.
    destruct (IH m1 arena1 v' (i + 1)
                (toks ++ [{| str_length := 1; str_data := Ptr b o |}]) (acc ++ [[c]]))
      as (m' & arena' & result' & toks' & Hloop & Hve' & Hholds); auto; try lia.
    + destruct (Hframe _ _ _ Hls) as [Hls1 _].
      pose proof (live_sub m arena bs os (n + 1) 0 n Hls) as Hsub.
      rewrite Z.add_0_r in Hsub.
      destruct (Hframe bs os n) as [_ Hs1]; [apply Hsub; lia|].
      split; [exact Hls1|congruence].
    + rewrite Hc'. destruct (Z.ltb_spec (vec_length result) (vec_capacity result));
        [exact Hvcap|]. apply Hg. destruct Hvwf. lia.
    + apply Forall2_app.
      * eapply Forall2_impl; [|exact Htoks]. intros s t Hst. eapply holds_frame; eauto.
      * constructor; [|constructor]. split; [reflexivity|].
        exists b, o. cbn [str_length str_data]. split; [reflexivity|]. split; [exact Hlive1|].
        rewrite (load_prefix m1 b o (1 + 1) 1 _ Hload1) by lia. reflexivity.
    + exists m', arena', result', toks'. split; [exact Hloop|]. split; [exact Hve'|].
      rewrite <- app_assoc in Hholds. simpl in Hholds.
      replace (Z.to_nat (i + 1)) with (S (Z.to_nat i)) in Hholds by lia.
      rewrite (drop_S _ _ _ Hc). exact Hholds.
Qed.
End SplitBytes.

(** X30. [StrSplit] with an empty delimiter (length 0, [data] not null)
    returns one token per byte of the string: the tokens are the bytes, in
    order, each as a string of length 1. *)
Theorem StrSplit_empty_delimiter (m : Mem) (arena : Arena) (str delimiter : String)
    (sbytes : list byte) :
  arena_wf m arena ->
  live m arena (str_data str) (str_length str + 1) ->
  str_bytes m str = Ok sbytes ->
  str_data delimiter <> NULL -> str_length delimiter = 0 ->
  0 <= str_length str < 2 ^ 30 ->
  offset arena + 2 * str_length str < 2 ^ 63 ->
  split_tokens m arena str delimiter = Ok (map (fun c => [c]) sbytes).
Proof.
  intros Hwf Hls Hs Hdn Hd0 Hn Hoff.
  destruct str as [n [|bs os]]; [destruct Hls as [[] _]|].
  destruct delimiter as [dn dd]. unfold str_bytes in Hs.
  cbn [str_length str_data] in *. subst dn.
  assert (Hss : Z.of_nat (length sbytes) = n) by (eapply load_length; eauto; lia).
  assert (Hcap : vec_capacity (@VecZero String) <= INT32_MAX) by discriminate.
  destruct (split_bytes_spec bs os n sbytes Hn (Z.to_nat n)
              m arena VecZero 0 [] [] Hwf (conj Hls Hs)
              VecZero_wf eq_refl Hcap (Z.le_refl 0) (Forall2_nil _)
              ltac:(lia) ltac:(lia) ltac:(lia))
    as (m' & arena' & result' & toks' & Hloop & Hve & Hholds).
  simpl app in Hholds. change (Z.to_nat 0) with 0%nat in Hholds.
  rewrite drop_0, take_ge in Hholds by lia.
  unfold split_tokens, StrSplit, StrIsNull. cbn [str_length str_data].
  rewrite (bool_decide_eq_false_2 (Ptr bs os = NULL)) by discriminate.
  rewrite (bool_decide_eq_false_2 (dd = NULL)) by exact Hdn.
  simpl negb. rewrite !assert_true. simpl (0 =? 0).
  repeat mstep. unfold StringVector in *. rewrite Hloop. repeat mstep. rewrite Hve.
  eapply strs_bytes_holds; eauto.
Qed.

(** [StrSplit] of the literal ["abc"] by the literal [""] on a fresh arena. *)
Lemma StrSplit_empty_delimiter_witness :
  match ArenaCreate (static_mem [literal "abc"; literal ""]) 64 with
  | Ok (m, arena) =>
      (arena_wf m arena
       /\ live m arena (Ptr 0 0) (3 + 1)
       /\ str_bytes m (StrLit 0 "abc") = Ok (list_byte_of_string "abc")
       /\ str_data (StrLit 1 "") <> NULL /\ str_length (StrLit 1 "") = 0
       /\ 0 <= 3 < 2 ^ 30
       /\ offset arena + 2 * 3 < 2 ^ 63)
      /\ split_tokens m arena (StrLit 0 "abc") (StrLit 1 "")
         = Ok [list_byte_of_string "a"; list_byte_of_string "b"; list_byte_of_string "c"]
  | Err _ => False
  end.
Proof.
  destruct (ArenaCreate_live (static_mem [literal "abc"; literal ""]) 64)
    as (m & arena & Hc & Hwf & Ho & Hlive); [lia|].
  rewrite Hc.
  assert (Hl1 : live m arena (Ptr 0 0) (3 + 1)).
  { apply Hlive. exists 4. split; [reflexivity|]. lia. }
  assert (Hs : str_bytes m (StrLit 0 "abc") = Ok (list_byte_of_string "abc")).
  { unfold str_bytes. cbn [StrLit str_data str_length].
    destruct (Hlive 0%nat 0 (Z.of_nat (String.length "abc"))) as [_ ->];
      [exists 4; split; [reflexivity|simpl; lia]|reflexivity]. }
  assert (H1 : str_data (StrLit 1 "") <> NULL) by discriminate.
  assert (H2 : 0 <= 3 < 2 ^ 30) by lia.
  assert (H3 : offset arena + 2 * 3 < 2 ^ 63) by (rewrite Ho; lia).
  split; [exact (conj Hwf (conj Hl1 (conj Hs (conj H1 (conj eq_refl (conj H2 H3))))))|].
  exact (StrSplit_empty_delimiter m arena (StrLit 0 "abc") (StrLit 1 "")
           (list_byte_of_string "abc") Hwf Hl1 Hs H1 eq_refl H2 H3).
Defined.
